(** * The configuration subsystem of the Epoch init system (src/config.c)

    A shallow embedding of [config.c]: the line reader, the attribute ladder of
    [InitConfig], the post-parse priority renumbering, the integrity scan, the
    runlevel and inheritance tables, [GetObjectByPriority], [EditConfigValue]
    and [ReloadConfig], followed by the properties of the specification that
    concern them.

    Conventions of the embedding.
    - A C string is a [string] without NUL byte; reaching the end of the Rocq
      string is reading the terminating NUL.  A [char *] that walks forward
      through a buffer is the remaining suffix of that buffer.
    - The intrusive linked lists (object table, runlevel list of an object,
      alias list, inheritance list) are Rocq lists of their used nodes; the
      free node kept at the tail has no content and is left implicit.  The
      empty list is the NULL head.
    - [unsigned long] is 64 bits wide, [int] 32 bits (LP64).
    - A computation whose C behaviour is undefined (NULL dereference, write
      past a buffer) yields [None].
    - libc is glibc: [atol] and [atoi] answer on every string of digits, and
      a block that [malloc] returns can hold more than was asked for. *)

From Stdlib Require Import ZArith Lia Ascii String.
From stdpp Require Import base option list strings.

#[local] Open Scope string_scope.
#[local] Open Scope list_scope.
#[local] Open Scope Z_scope.

(** Appending to a string that begins with a known byte is unfolded by
    [simpl]. *)
#[local] Arguments String.append !_ _ / : simpl nomatch.

(** ** C strings *)

Module CStr.

Definition NL : ascii := "010"%char.
Definition TAB : ascii := "009"%char.
Definition NUL : ascii := "000"%char.

(** [c == ' ' || c == '\t'] *)
Definition is_blank (c : ascii) : bool :=
  Ascii.eqb c " "%char || Ascii.eqb c TAB.

(** [*s == '\n' || *s == '\0'] *)
Definition at_eol (s : string) : bool :=
  match s with
  | EmptyString => true
  | String c _ => Ascii.eqb c NL
  end.

(** The bytes of a buffer up to its first NUL: how C sees what [fread] loaded. *)
Fixpoint c_str (s : string) : string :=
  match s with
  | EmptyString => EmptyString
  | String c s' => if Ascii.eqb c NUL then EmptyString else String c (c_str s')
  end.

(** [while ( *s == ' ' || *s == '\t') ++s;] *)
Fixpoint skip_blanks (s : string) : string :=
  match s with
  | String c s' => if is_blank c then skip_blanks s' else s
  | EmptyString => EmptyString
  end.

(** The run of blanks that [skip_blanks] steps over. *)
Fixpoint blank_run (s : string) : string :=
  match s with
  | String c s' => if is_blank c then String c (blank_run s') else EmptyString
  | EmptyString => EmptyString
  end.

(** [while (!stop( *s) && *s != '\0') ++s;]: the stream at its first stop
    byte. *)
Fixpoint from (stop : ascii -> bool) (s : string) : string :=
  match s with
  | String c s' => if stop c then s else from stop s'
  | EmptyString => EmptyString
  end.

(** The bytes that [from] steps over. *)
Fixpoint until (stop : ascii -> bool) (s : string) : string :=
  match s with
  | String c s' => if stop c then EmptyString else String c (until stop s')
  | EmptyString => EmptyString
  end.

(** The stop sets of the scans in [config.c]. *)
Definition stop_nl (c : ascii) : bool := Ascii.eqb c NL.
Definition stop_blank (c : ascii) : bool := is_blank c.
Definition stop_word (c : ascii) : bool := is_blank c || Ascii.eqb c NL.
Definition stop_key (c : ascii) : bool :=
  is_blank c || Ascii.eqb c "="%char || Ascii.eqb c NL.
Definition stop_sep (c : ascii) : bool :=
  negb (Ascii.eqb c "="%char || is_blank c).

(** [*s == '='] *)
Definition at_equals (s : string) : bool :=
  match s with
  | String c _ => Ascii.eqb c "="%char
  | EmptyString => false
  end.

(** The bytes up to the end of the line, newline excluded, and the stream
    from there on. *)
Definition line_of : string -> string := until stop_nl.
Definition skip_line : string -> string := from stop_nl.

(** The first [n] bytes. *)
Fixpoint stake (n : nat) (s : string) : string :=
  match n, s with
  | S n', String c s' => String c (stake n' s')
  | _, _ => EmptyString
  end.

(** The stream from offset [n] on. *)
Fixpoint sdrop (n : nat) (s : string) : string :=
  match n, s with
  | S n', String _ s' => sdrop n' s'
  | _, _ => s
  end.

(** [snprintf(dst, size, "%s", src)]: at most [size - 1] bytes are stored. *)
Definition snprintf_s (size : nat) (src : string) : string :=
  stake (size - 1) src.

(** [!strncmp(s, key, strlen(key))]: [key] is a prefix of [s]. *)
Definition strncmp_eq (s key : string) : bool := String.prefix key s.

(** [!strcmp(a, b)] *)
Definition strcmp_eq (a b : string) : bool := String.eqb a b.

(** [strstr(hay, needle)], as the offset of the first occurrence. *)
Fixpoint strstr (hay needle : string) : option nat :=
  if String.prefix needle hay then Some 0%nat
  else match hay with
       | EmptyString => None
       | String _ hay' => S <$> strstr hay' needle
       end.

(** [strstr(s, " ") || strstr(s, "\t")] *)
Fixpoint has_blank (s : string) : bool :=
  match s with
  | String c s' => is_blank c || has_blank s'
  | EmptyString => false
  end.

(** A buffer that holds nothing but spaces and tabs. *)
Fixpoint all_blank (s : string) : bool :=
  match s with
  | String c s' => is_blank c && all_blank s'
  | EmptyString => true
  end.

(** The last byte of a string. *)
Fixpoint last_byte (s : string) : option ascii :=
  match s with
  | EmptyString => None
  | String c EmptyString => Some c
  | String _ s' => last_byte s'
  end.

(** All but the last byte. *)
Fixpoint but_last (s : string) : string :=
  match s with
  | EmptyString => EmptyString
  | String _ EmptyString => EmptyString
  | String c s' => String c (but_last s')
  end.

End CStr.
Import CStr.

(** [NextLine]: the stream after the next newline, NULL when there is no
    newline or nothing follows it. *)
Fixpoint NextLine (InStream : string) : option string :=
  match InStream with
  | EmptyString => None
  | String c s' =>
      if Ascii.eqb c NL
      then (match s' with EmptyString => None | _ => Some s' end)
      else NextLine s'
  end.

(** [WhitespaceArg]: the start of the next blank-separated argument of the
    line, NULL when the line holds no further argument. *)
Definition WhitespaceArg (InStream : string) : option string :=
  let s1 := from stop_word InStream in
  if at_eol s1 then None
  else let s2 := skip_blanks s1 in
       if at_eol s2 then None else Some s2.

(** ** Numbers *)

(** [unsigned long] arithmetic on LP64; [int] and [long] ranges. *)
Definition ULONG_MODULUS : Z := 2 ^ 64.
Definition LONG_MAX : Z := 2 ^ 63 - 1.
Definition INT_MAX : Z := 2 ^ 31 - 1.

(** [++x] on an [unsigned long]. *)
Definition ulong_incr (x : Z) : Z := (x + 1) mod ULONG_MODULUS.

Definition is_digit (c : ascii) : bool :=
  (48 <=? Z.of_nat (nat_of_ascii c)) && (Z.of_nat (nat_of_ascii c) <=? 57).

Fixpoint all_digits (s : string) : bool :=
  match s with
  | EmptyString => true
  | String c s' => is_digit c && all_digits s'
  end.

(** Modelled from the spec: [AllNumeric] lives in another file of the
    repository; the specification calls its positive answer an all-digits
    integer.  The empty string is not one. *)
Definition AllNumeric (s : string) : bool :=
  match s with
  | EmptyString => false
  | _ => all_digits s
  end.

(** The value of the leading decimal digits, most significant first. *)
Fixpoint decimal_from (acc : Z) (s : string) : Z :=
  match s with
  | String c s' =>
      if is_digit c
      then decimal_from (10 * acc + (Z.of_nat (nat_of_ascii c) - 48)) s'
      else acc
  | EmptyString => acc
  end.

(** [strtol(s, NULL, 10)] on the strings [config.c] has: they passed
    [AllNumeric], so neither sign nor leading blank occurs.  A value above
    [LONG_MAX] is answered with [LONG_MAX]. *)
Definition strtol (s : string) : Z := Z.min (decimal_from 0 s) LONG_MAX.

(** The conversion of a [long] to [int]: the low 32 bits, read as a two's
    complement number. *)
Definition int_of_long (v : Z) : Z := (v + 2 ^ 31) mod 2 ^ 32 - 2 ^ 31.

(** [atol] and [atoi] of libc: [strtol], and [(int) strtol].  Neither
    fails: above [INT_MAX] the answer of [atoi] is what the conversion
    leaves, -1 for 4294967295. *)
Definition atol (s : string) : Z := strtol s.

Definition atoi (s : string) : Z := int_of_long (strtol s).

(** The conversion of a [long] or an [int] to [unsigned long], as on the
    assignment to a priority: a negative number wraps around. *)
Definition ulong_of (v : Z) : Z := v mod ULONG_MODULUS.

(** ** Data model (the declarations of epoch.h that config.c uses) *)

(** [rStatus]; [FAILURE] is the zero of the enumeration: [config.c] tests
    [!InitConfig()] and [!GetLineDelim(...)]. *)
Inductive rStatus := FAILURE | SUCCESS | WARNING.

#[global] Instance rStatus_eq_dec : EqDecision rStatus.
Proof. solve_decision. Defined.

Inductive StopType := STOP_NONE | STOP_COMMAND | STOP_PID | STOP_PIDFILE.

#[global] Instance StopType_eq_dec : EqDecision StopType.
Proof. solve_decision. Defined.

(** The nested [Opts] structure of an object. *)
Record ObjOpts := mkOpts {
  StopMode : StopType;
  CanStop : bool;
  HaltCmdOnly : bool;
  RawDescription : bool;
  IsService : bool;
  AutoRestart : bool;
  EmulNoWait : bool;
  ForceShell : bool
}.

(** A node of the object table.  [Enabled] is a [Bool] that also holds 2
    (not yet set); [ObjectRunlevels] is the runlevel list of the object, [[]]
    for the NULL pointer. *)
Record ObjTable := mkObj {
  ObjectID : string;
  ObjectDescription : string;
  ObjectStartCommand : string;
  ObjectStopCommand : string;
  ObjectReloadCommand : string;
  ObjectPIDFile : string;
  ObjectStartPriority : Z;
  ObjectStopPriority : Z;
  ObjectPID : Z;
  Enabled : Z;
  Started : bool;
  TermSignal : Z;
  ObjectRunlevels : list string;
  Opts : ObjOpts
}.

Definition set_StopMode v (p : ObjOpts) :=
  mkOpts v (CanStop p) (HaltCmdOnly p) (RawDescription p) (IsService p)
         (AutoRestart p) (EmulNoWait p) (ForceShell p).
Definition set_CanStop v (p : ObjOpts) :=
  mkOpts (StopMode p) v (HaltCmdOnly p) (RawDescription p) (IsService p)
         (AutoRestart p) (EmulNoWait p) (ForceShell p).
Definition set_HaltCmdOnly v (p : ObjOpts) :=
  mkOpts (StopMode p) (CanStop p) v (RawDescription p) (IsService p)
         (AutoRestart p) (EmulNoWait p) (ForceShell p).
Definition set_RawDescription v (p : ObjOpts) :=
  mkOpts (StopMode p) (CanStop p) (HaltCmdOnly p) v (IsService p)
         (AutoRestart p) (EmulNoWait p) (ForceShell p).
Definition set_IsService v (p : ObjOpts) :=
  mkOpts (StopMode p) (CanStop p) (HaltCmdOnly p) (RawDescription p) v
         (AutoRestart p) (EmulNoWait p) (ForceShell p).
Definition set_AutoRestart v (p : ObjOpts) :=
  mkOpts (StopMode p) (CanStop p) (HaltCmdOnly p) (RawDescription p)
         (IsService p) v (EmulNoWait p) (ForceShell p).
Definition set_EmulNoWait v (p : ObjOpts) :=
  mkOpts (StopMode p) (CanStop p) (HaltCmdOnly p) (RawDescription p)
         (IsService p) (AutoRestart p) v (ForceShell p).
Definition set_ForceShell v (p : ObjOpts) :=
  mkOpts (StopMode p) (CanStop p) (HaltCmdOnly p) (RawDescription p)
         (IsService p) (AutoRestart p) (EmulNoWait p) v.

Definition set_ObjectDescription v (o : ObjTable) :=
  mkObj (ObjectID o) v (ObjectStartCommand o) (ObjectStopCommand o)
        (ObjectReloadCommand o) (ObjectPIDFile o) (ObjectStartPriority o)
        (ObjectStopPriority o) (ObjectPID o) (Enabled o) (Started o)
        (TermSignal o) (ObjectRunlevels o) (Opts o).
Definition set_ObjectStartCommand v (o : ObjTable) :=
  mkObj (ObjectID o) (ObjectDescription o) v (ObjectStopCommand o)
        (ObjectReloadCommand o) (ObjectPIDFile o) (ObjectStartPriority o)
        (ObjectStopPriority o) (ObjectPID o) (Enabled o) (Started o)
        (TermSignal o) (ObjectRunlevels o) (Opts o).
Definition set_ObjectStopCommand v (o : ObjTable) :=
  mkObj (ObjectID o) (ObjectDescription o) (ObjectStartCommand o) v
        (ObjectReloadCommand o) (ObjectPIDFile o) (ObjectStartPriority o)
        (ObjectStopPriority o) (ObjectPID o) (Enabled o) (Started o)
        (TermSignal o) (ObjectRunlevels o) (Opts o).
Definition set_ObjectReloadCommand v (o : ObjTable) :=
  mkObj (ObjectID o) (ObjectDescription o) (ObjectStartCommand o)
        (ObjectStopCommand o) v (ObjectPIDFile o) (ObjectStartPriority o)
        (ObjectStopPriority o) (ObjectPID o) (Enabled o) (Started o)
        (TermSignal o) (ObjectRunlevels o) (Opts o).
Definition set_ObjectPIDFile v (o : ObjTable) :=
  mkObj (ObjectID o) (ObjectDescription o) (ObjectStartCommand o)
        (ObjectStopCommand o) (ObjectReloadCommand o) v (ObjectStartPriority o)
        (ObjectStopPriority o) (ObjectPID o) (Enabled o) (Started o)
        (TermSignal o) (ObjectRunlevels o) (Opts o).
Definition set_ObjectStartPriority v (o : ObjTable) :=
  mkObj (ObjectID o) (ObjectDescription o) (ObjectStartCommand o)
        (ObjectStopCommand o) (ObjectReloadCommand o) (ObjectPIDFile o) v
        (ObjectStopPriority o) (ObjectPID o) (Enabled o) (Started o)
        (TermSignal o) (ObjectRunlevels o) (Opts o).
Definition set_ObjectStopPriority v (o : ObjTable) :=
  mkObj (ObjectID o) (ObjectDescription o) (ObjectStartCommand o)
        (ObjectStopCommand o) (ObjectReloadCommand o) (ObjectPIDFile o)
        (ObjectStartPriority o) v (ObjectPID o) (Enabled o) (Started o)
        (TermSignal o) (ObjectRunlevels o) (Opts o).
Definition set_ObjectPID v (o : ObjTable) :=
  mkObj (ObjectID o) (ObjectDescription o) (ObjectStartCommand o)
        (ObjectStopCommand o) (ObjectReloadCommand o) (ObjectPIDFile o)
        (ObjectStartPriority o) (ObjectStopPriority o) v (Enabled o)
        (Started o) (TermSignal o) (ObjectRunlevels o) (Opts o).
Definition set_Enabled v (o : ObjTable) :=
  mkObj (ObjectID o) (ObjectDescription o) (ObjectStartCommand o)
        (ObjectStopCommand o) (ObjectReloadCommand o) (ObjectPIDFile o)
        (ObjectStartPriority o) (ObjectStopPriority o) (ObjectPID o) v
        (Started o) (TermSignal o) (ObjectRunlevels o) (Opts o).
Definition set_Started v (o : ObjTable) :=
  mkObj (ObjectID o) (ObjectDescription o) (ObjectStartCommand o)
        (ObjectStopCommand o) (ObjectReloadCommand o) (ObjectPIDFile o)
        (ObjectStartPriority o) (ObjectStopPriority o) (ObjectPID o)
        (Enabled o) v (TermSignal o) (ObjectRunlevels o) (Opts o).
Definition set_TermSignal v (o : ObjTable) :=
  mkObj (ObjectID o) (ObjectDescription o) (ObjectStartCommand o)
        (ObjectStopCommand o) (ObjectReloadCommand o) (ObjectPIDFile o)
        (ObjectStartPriority o) (ObjectStopPriority o) (ObjectPID o)
        (Enabled o) (Started o) v (ObjectRunlevels o) (Opts o).
Definition set_ObjectRunlevels v (o : ObjTable) :=
  mkObj (ObjectID o) (ObjectDescription o) (ObjectStartCommand o)
        (ObjectStopCommand o) (ObjectReloadCommand o) (ObjectPIDFile o)
        (ObjectStartPriority o) (ObjectStopPriority o) (ObjectPID o)
        (Enabled o) (Started o) (TermSignal o) v (Opts o).
Definition set_Opts v (o : ObjTable) :=
  mkObj (ObjectID o) (ObjectDescription o) (ObjectStartCommand o)
        (ObjectStopCommand o) (ObjectReloadCommand o) (ObjectPIDFile o)
        (ObjectStartPriority o) (ObjectStopPriority o) (ObjectPID o)
        (Enabled o) (Started o) (TermSignal o) (ObjectRunlevels o) v.
Definition upd_Opts (f : ObjOpts -> ObjOpts) (o : ObjTable) :=
  set_Opts (f (Opts o)) o.

(** The boot banner global. *)
Record BootBannerT := mkBanner {
  BannerText : string;
  BannerColor : string;
  ShowBanner : bool
}.

(** What the platform and the rest of the program fix for [config.c]:
    buffer sizes and defaults of epoch.h, the signal numbers of signal.h,
    the colour escape sequences, the conversion of an [int] to the type of
    the [TermSignal] field, the banner colour routine, the files other
    than epoch.conf that [fopen] can read, and the number of bytes that the
    block [malloc] returns for a request can hold ([malloc_usable_size] of
    glibc: the request is rounded up, and the bytes in excess can be
    written). *)
Class Platform := {
  MAX_LINE_SIZE : nat;
  MAX_DESCRIPT_SIZE : nat;
  USE_SHELL_BY_DEFAULT : bool;
  CONSOLE_COLOR_YELLOW : string;
  CONSOLE_ENDCOLOR : string;
  SIGTERM : Z; SIGKILL : Z; SIGHUP : Z; SIGINT : Z;
  SIGABRT : Z; SIGQUIT : Z; SIGUSR1 : Z; SIGUSR2 : Z;
  TermSignal_of_int : Z -> Z;
  SetBannerColor : string -> BootBannerT -> BootBannerT;
  fopen_r : string -> option string;
  malloc_usable_size : nat -> nat
}.

(** Diagnostics.  [ConfigProblem] types, and the fixed messages of
    [SpitWarning] and [SpitError] with their arguments. *)
Inductive ProblemType :=
  | CONFIG_EMISSINGVAL | CONFIG_EBADVAL | CONFIG_ETRUNCATED
  | CONFIG_EAFTER | CONFIG_EBEFORE | CONFIG_ELARGENUM.

Inductive Event :=
  | EvConfigProblem (Type_ : ProblemType) (Attribute : string)
                    (AttribVal : option string) (LineNum : nat)
  | EvStrayTerminator (LineNum : nat)
  | EvNoTerminator
  | EvUnidentified (LineNum : nat)
  | EvNoParameter (line : string)
  | EvNoWaitDeprecated (id : string) (LineNum : nat)
  | EvForceShellIgnored (id : string) (LineNum : nat)
  | EvHostnameFileFailed (path : string)
  | EvHostnameBlanks
  | EvManyRunlevelLines (id : string) (LineNum : nat)
  | EvStatFailed
  | EvEmptyConfig
  | EvNoObjects
  | EvNoDefaultRunlevel
  | EvRunlevelMissing (was_run_before : bool) (rl : string)
  | EvPromptRunlevel
  | EvEmergencyShell
  | EvRunlevelAccepted
  | EvRunlevelRejected
  | EvMissingDescription (id : string)
  | EvNoCommands (id : string)
  | EvNoStartCommand (id : string)
  | EvNoRunlevels (id : string)
  | EvNoEnabled (id : string)
  | EvHaltOnlyPid (id : string)
  | EvDuplicateID (id : string)
  | EvOfferDump
  | EvDump (conf : string)
  | EvNotDumping
  | EvNoncritical
  | EvReloadFailed
  | EvReloaded.

(** The process-wide variables that [config.c] reads and writes, the two
    function-level statics, and the part of the world it touches: the
    configuration file, standard input, and the console ([Console] holds the
    diagnostics, most recent first). *)
Record State := mkState {
  ObjectTable : list ObjTable;
  PriorityAliasTree : list (string * Z);
  RunlevelInheritance : list (string * string);
  Hostname : string;
  CurRunlevel : string;
  DisableCAD : bool;
  BlankLogOnBoot : bool;
  ShellEnabled : bool;
  EnableLogging : bool;
  AlignStatusReports : bool;
  BootBanner : BootBannerT;
  AutoMountOpts : list Z;
  WasRunBefore : bool;
  LastObject : option nat;
  ConfFile : option string;
  Stdin : string;
  Console : list Event
}.

Definition set_ObjectTable v (s : State) :=
  mkState v (PriorityAliasTree s) (RunlevelInheritance s) (Hostname s)
    (CurRunlevel s) (DisableCAD s) (BlankLogOnBoot s) (ShellEnabled s)
    (EnableLogging s) (AlignStatusReports s) (BootBanner s) (AutoMountOpts s)
    (WasRunBefore s) (LastObject s) (ConfFile s) (Stdin s) (Console s).
Definition set_PriorityAliasTree v (s : State) :=
  mkState (ObjectTable s) v (RunlevelInheritance s) (Hostname s)
    (CurRunlevel s) (DisableCAD s) (BlankLogOnBoot s) (ShellEnabled s)
    (EnableLogging s) (AlignStatusReports s) (BootBanner s) (AutoMountOpts s)
    (WasRunBefore s) (LastObject s) (ConfFile s) (Stdin s) (Console s).
Definition set_RunlevelInheritance v (s : State) :=
  mkState (ObjectTable s) (PriorityAliasTree s) v (Hostname s)
    (CurRunlevel s) (DisableCAD s) (BlankLogOnBoot s) (ShellEnabled s)
    (EnableLogging s) (AlignStatusReports s) (BootBanner s) (AutoMountOpts s)
    (WasRunBefore s) (LastObject s) (ConfFile s) (Stdin s) (Console s).
Definition set_Hostname v (s : State) :=
  mkState (ObjectTable s) (PriorityAliasTree s) (RunlevelInheritance s) v
    (CurRunlevel s) (DisableCAD s) (BlankLogOnBoot s) (ShellEnabled s)
    (EnableLogging s) (AlignStatusReports s) (BootBanner s) (AutoMountOpts s)
    (WasRunBefore s) (LastObject s) (ConfFile s) (Stdin s) (Console s).
Definition set_CurRunlevel v (s : State) :=
  mkState (ObjectTable s) (PriorityAliasTree s) (RunlevelInheritance s)
    (Hostname s) v (DisableCAD s) (BlankLogOnBoot s) (ShellEnabled s)
    (EnableLogging s) (AlignStatusReports s) (BootBanner s) (AutoMountOpts s)
    (WasRunBefore s) (LastObject s) (ConfFile s) (Stdin s) (Console s).
Definition set_DisableCAD v (s : State) :=
  mkState (ObjectTable s) (PriorityAliasTree s) (RunlevelInheritance s)
    (Hostname s) (CurRunlevel s) v (BlankLogOnBoot s) (ShellEnabled s)
    (EnableLogging s) (AlignStatusReports s) (BootBanner s) (AutoMountOpts s)
    (WasRunBefore s) (LastObject s) (ConfFile s) (Stdin s) (Console s).
Definition set_BlankLogOnBoot v (s : State) :=
  mkState (ObjectTable s) (PriorityAliasTree s) (RunlevelInheritance s)
    (Hostname s) (CurRunlevel s) (DisableCAD s) v (ShellEnabled s)
    (EnableLogging s) (AlignStatusReports s) (BootBanner s) (AutoMountOpts s)
    (WasRunBefore s) (LastObject s) (ConfFile s) (Stdin s) (Console s).
Definition set_ShellEnabled v (s : State) :=
  mkState (ObjectTable s) (PriorityAliasTree s) (RunlevelInheritance s)
    (Hostname s) (CurRunlevel s) (DisableCAD s) (BlankLogOnBoot s) v
    (EnableLogging s) (AlignStatusReports s) (BootBanner s) (AutoMountOpts s)
    (WasRunBefore s) (LastObject s) (ConfFile s) (Stdin s) (Console s).
Definition set_EnableLogging v (s : State) :=
  mkState (ObjectTable s) (PriorityAliasTree s) (RunlevelInheritance s)
    (Hostname s) (CurRunlevel s) (DisableCAD s) (BlankLogOnBoot s)
    (ShellEnabled s) v (AlignStatusReports s) (BootBanner s) (AutoMountOpts s)
    (WasRunBefore s) (LastObject s) (ConfFile s) (Stdin s) (Console s).
Definition set_AlignStatusReports v (s : State) :=
  mkState (ObjectTable s) (PriorityAliasTree s) (RunlevelInheritance s)
    (Hostname s) (CurRunlevel s) (DisableCAD s) (BlankLogOnBoot s)
    (ShellEnabled s) (EnableLogging s) v (BootBanner s) (AutoMountOpts s)
    (WasRunBefore s) (LastObject s) (ConfFile s) (Stdin s) (Console s).
Definition set_BootBanner v (s : State) :=
  mkState (ObjectTable s) (PriorityAliasTree s) (RunlevelInheritance s)
    (Hostname s) (CurRunlevel s) (DisableCAD s) (BlankLogOnBoot s)
    (ShellEnabled s) (EnableLogging s) (AlignStatusReports s) v
    (AutoMountOpts s) (WasRunBefore s) (LastObject s) (ConfFile s) (Stdin s)
    (Console s).
Definition set_AutoMountOpts v (s : State) :=
  mkState (ObjectTable s) (PriorityAliasTree s) (RunlevelInheritance s)
    (Hostname s) (CurRunlevel s) (DisableCAD s) (BlankLogOnBoot s)
    (ShellEnabled s) (EnableLogging s) (AlignStatusReports s) (BootBanner s)
    v (WasRunBefore s) (LastObject s) (ConfFile s) (Stdin s) (Console s).
Definition set_WasRunBefore v (s : State) :=
  mkState (ObjectTable s) (PriorityAliasTree s) (RunlevelInheritance s)
    (Hostname s) (CurRunlevel s) (DisableCAD s) (BlankLogOnBoot s)
    (ShellEnabled s) (EnableLogging s) (AlignStatusReports s) (BootBanner s)
    (AutoMountOpts s) v (LastObject s) (ConfFile s) (Stdin s) (Console s).
Definition set_LastObject v (s : State) :=
  mkState (ObjectTable s) (PriorityAliasTree s) (RunlevelInheritance s)
    (Hostname s) (CurRunlevel s) (DisableCAD s) (BlankLogOnBoot s)
    (ShellEnabled s) (EnableLogging s) (AlignStatusReports s) (BootBanner s)
    (AutoMountOpts s) (WasRunBefore s) v (ConfFile s) (Stdin s) (Console s).
Definition set_ConfFile v (s : State) :=
  mkState (ObjectTable s) (PriorityAliasTree s) (RunlevelInheritance s)
    (Hostname s) (CurRunlevel s) (DisableCAD s) (BlankLogOnBoot s)
    (ShellEnabled s) (EnableLogging s) (AlignStatusReports s) (BootBanner s)
    (AutoMountOpts s) (WasRunBefore s) (LastObject s) v (Stdin s) (Console s).
Definition set_Stdin v (s : State) :=
  mkState (ObjectTable s) (PriorityAliasTree s) (RunlevelInheritance s)
    (Hostname s) (CurRunlevel s) (DisableCAD s) (BlankLogOnBoot s)
    (ShellEnabled s) (EnableLogging s) (AlignStatusReports s) (BootBanner s)
    (AutoMountOpts s) (WasRunBefore s) (LastObject s) (ConfFile s) v
    (Console s).
Definition set_Console v (s : State) :=
  mkState (ObjectTable s) (PriorityAliasTree s) (RunlevelInheritance s)
    (Hostname s) (CurRunlevel s) (DisableCAD s) (BlankLogOnBoot s)
    (ShellEnabled s) (EnableLogging s) (AlignStatusReports s) (BootBanner s)
    (AutoMountOpts s) (WasRunBefore s) (LastObject s) (ConfFile s) (Stdin s)
    v.

(** ** The monad of [config.c]: global state, undefined behaviour *)

Definition M (A : Type) : Type := State -> option (A * State).

#[global] Instance M_ret : MRet M := fun A a st => Some (a, st).
#[global] Instance M_bind : MBind M := fun A B f m st =>
  match m st with
  | Some (a, st') => f a st'
  | None => None
  end.

(** Undefined behaviour. *)
Definition undefined {A} : M A := fun _ => None.
Definition gets {A} (f : State -> A) : M A := fun st => Some (f st, st).
Definition modify (f : State -> State) : M unit := fun st => Some (tt, f st).
Definition emit (e : Event) : M unit :=
  modify (fun st => set_Console (e :: Console st) st).

(** [ConfigProblem]: one warning on the console and in the log. *)
Definition ConfigProblem (Type_ : ProblemType) (Attribute : string)
    (AttribVal : option string) (LineNum : nat) : M unit :=
  emit (EvConfigProblem Type_ Attribute AttribVal LineNum).

(** [CurObj->field = ...]: the node at index [i] of the table is rewritten. *)
Definition upd_obj (i : nat) (f : ObjTable -> ObjTable) : M unit :=
  modify (fun st => set_ObjectTable (alter f i (ObjectTable st)) st).

Section Tables.
Context `{Platform}.

(** ** Runlevels and runlevel inheritance *)

(** [RLInheritance_Add]: a new pair at the end of the list; no duplicate
    test. *)
Definition RLInheritance_Add (Inheriter Inherited : string)
    (tree : list (string * string)) : list (string * string) :=
  tree ++ [(Inheriter, Inherited)].

(** [RLInheritance_Check]: is the pair stored, literally? *)
Fixpoint RLInheritance_Check (tree : list (string * string))
    (Inheriter Inherited : string) : bool :=
  match tree with
  | [] => false
  | (a, b) :: tree' =>
      if strcmp_eq Inheriter a && strcmp_eq Inherited b then true
      else RLInheritance_Check tree' Inheriter Inherited
  end.

(** First loop of [ObjRL_CheckRunlevel]: does [InRL] inherit some runlevel
    of the list ([RetVal = 2; break])? *)
Fixpoint inherits_any (tree : list (string * string)) (InRL : string)
    (rls : list string) : bool :=
  match rls with
  | [] => false
  | r :: rls' =>
      if RLInheritance_Check tree InRL r then true
      else inherits_any tree InRL rls'
  end.

(** Second loop of [ObjRL_CheckRunlevel]: is [InRL] in the list itself? *)
Fixpoint has_runlevel (InRL : string) (rls : list string) : bool :=
  match rls with
  | [] => false
  | r :: rls' => if strcmp_eq r InRL then true else has_runlevel InRL rls'
  end.

(** [ObjRL_CheckRunlevel]: 0 (false), 1 (true: listed) or 2 (inherited
    only). *)
Definition ObjRL_CheckRunlevel (tree : list (string * string))
    (InRL : string) (InObj : ObjTable) (CountInherited : bool) : Z :=
  match ObjectRunlevels InObj with
  | [] => 0
  | rls =>
      let RetVal :=
        if CountInherited && inherits_any tree InRL rls then 2 else 0 in
      if has_runlevel InRL rls then 1 else RetVal
  end.

(** [ObjRL_AddRunlevel] *)
Definition ObjRL_AddRunlevel (InRL : string) (InObj : ObjTable) : ObjTable :=
  set_ObjectRunlevels
    (ObjectRunlevels InObj ++ [snprintf_s MAX_DESCRIPT_SIZE InRL]) InObj.

(** [ObjRL_DelRunlevel]: the first node that holds [InRL] is unlinked. *)
Fixpoint del_first (InRL : string) (rls : list string) : option (list string) :=
  match rls with
  | [] => None
  | r :: rls' =>
      if strcmp_eq InRL r then Some rls'
      else cons r <$> del_first InRL rls'
  end.

Definition ObjRL_DelRunlevel (InRL : string) (InObj : ObjTable)
    : bool * ObjTable :=
  match del_first InRL (ObjectRunlevels InObj) with
  | Some rls => (true, set_ObjectRunlevels rls InObj)
  | None => (false, InObj)
  end.

(** [ObjRL_ValidRunlevel]: some object that is not halt-only matches. *)
Fixpoint ObjRL_ValidRunlevel (tree : list (string * string))
    (table : list ObjTable) (InRL : string) : bool :=
  match table with
  | [] => false
  | Worker :: table' =>
      if negb (HaltCmdOnly (Opts Worker))
         && negb (ObjRL_CheckRunlevel tree InRL Worker true =? 0)
      then true
      else ObjRL_ValidRunlevel tree table' InRL
  end.

(** ** Priority aliases *)

Fixpoint alias_known (tree : list (string * Z)) (Alias : string) : bool :=
  match tree with
  | [] => false
  | (a, _) :: tree' => if strcmp_eq a Alias then true else alias_known tree' Alias
  end.

(** [PriorityAlias_Add]: a known alias keeps its first target. *)
Definition PriorityAlias_Add (Alias : string) (Target : Z)
    (tree : list (string * Z)) : list (string * Z) :=
  if alias_known tree Alias then tree else tree ++ [(Alias, Target)].

(** [PriorityAlias_Lookup]: 0 when nothing is found. *)
Fixpoint PriorityAlias_Lookup (tree : list (string * Z)) (Alias : string) : Z :=
  match tree with
  | [] => 0
  | (a, Target) :: tree' =>
      if strcmp_eq a Alias then Target else PriorityAlias_Lookup tree' Alias
  end.

(** ** The object table *)

(** The node that [AddObjectToTable] initialises. *)
Definition new_object (id : string) : ObjTable :=
  {| ObjectID := snprintf_s MAX_DESCRIPT_SIZE id;
     ObjectDescription := "";
     ObjectStartCommand := "";
     ObjectStopCommand := "";
     ObjectReloadCommand := "";
     ObjectPIDFile := "";
     ObjectStartPriority := 0;
     ObjectStopPriority := 0;
     ObjectPID := 0;
     Enabled := 2;
     Started := false;
     TermSignal := SIGTERM;
     ObjectRunlevels := [];
     Opts := {| StopMode := STOP_NONE; CanStop := true; HaltCmdOnly := false;
                RawDescription := false; IsService := false;
                AutoRestart := false; EmulNoWait := false;
                ForceShell := false |} |}.

(** [AddObjectToTable]: the new node goes to the end; its index is returned
    for the pointer. *)
Definition AddObjectToTable (id : string) : M nat := fun st =>
  Some (length (ObjectTable st),
        set_ObjectTable (ObjectTable st ++ [new_object id]) st).

(** [LookupObjectInTable]: the first node with that ID. *)
Fixpoint lookup_from (i : nat) (table : list ObjTable) (id : string)
    : option nat :=
  match table with
  | [] => None
  | Worker :: table' =>
      if strcmp_eq (ObjectID Worker) id then Some i
      else lookup_from (S i) table' id
  end.

Definition LookupObjectInTable (table : list ObjTable) (id : string)
    : option nat :=
  lookup_from 0 table id.

(** [GetHighestPriority] *)
Definition GetHighestPriority (table : list ObjTable)
    (WantStartPriority : bool) : Z :=
  fold_left
    (fun CurHighest Worker =>
       let TempNum := if WantStartPriority then ObjectStartPriority Worker
                      else ObjectStopPriority Worker in
       if CurHighest <? TempNum then TempNum else CurHighest)
    table 0.

(** The test of the loop of [GetObjectByPriority]. *)
Definition priority_match (tree : list (string * string))
    (ObjectRunlevel : option string) (WantStartPriority : bool)
    (ObjectPriority : Z) (Worker : ObjTable) : bool :=
  (match ObjectRunlevel with
   | None => true
   | Some rl =>
       (WantStartPriority || negb (HaltCmdOnly (Opts Worker)))
       && negb (ObjRL_CheckRunlevel tree rl Worker true =? 0)
   end)
  && ((if WantStartPriority then ObjectStartPriority Worker
       else ObjectStopPriority Worker) =? ObjectPriority).

Fixpoint by_priority_from (i : nat) (tree : list (string * string))
    (table : list ObjTable) (ObjectRunlevel : option string)
    (WantStartPriority : bool) (ObjectPriority : Z) : option nat :=
  match table with
  | [] => None
  | Worker :: table' =>
      if priority_match tree ObjectRunlevel WantStartPriority ObjectPriority
           Worker
      then Some i
      else by_priority_from (S i) tree table' ObjectRunlevel
             WantStartPriority ObjectPriority
  end.

(** [GetObjectByPriority]: the index of the node returned, [None] for NULL.
    [ObjectRunlevel = None] is the NULL runlevel of the caller. *)
Definition GetObjectByPriority (st : State) (ObjectRunlevel : option string)
    (WantStartPriority : bool) (ObjectPriority : Z) : option nat :=
  by_priority_from 0 (RunlevelInheritance st) (ObjectTable st) ObjectRunlevel
    WantStartPriority ObjectPriority.

(** [ShutdownConfig]: the table and the inheritance list are released. *)
Definition ShutdownConfig : M unit :=
  modify (fun st => set_RunlevelInheritance [] (set_ObjectTable [] st)).

(** [PriorityAlias_Shutdown] *)
Definition PriorityAlias_Shutdown : M unit :=
  modify (set_PriorityAliasTree []).

(** ** Value extraction *)

(** [GetLineDelim]: the value of the line, after a run of blanks or a single
    ['=']; [None] is the FAILURE return.  The diagnostic copies the line into
    a 1024-byte buffer without a bound. *)
Definition GetLineDelim (InStream : string) : M (option string) :=
  let at_sep := from stop_key InStream in
  if at_eol at_sep then
    if (1024 <=? String.length (line_of InStream))%nat then undefined
    else _ ← emit (EvNoParameter (line_of InStream)); mret None
  else
    let value :=
      if at_equals at_sep then sdrop 1 at_sep else skip_blanks at_sep in
    mret (Some (stake (MAX_LINE_SIZE - 1) (line_of value))).

End Tables.

(** ** [InitConfig]: the attribute ladder *)

(** The keywords, in the order of the [if]/[else if] ladder. *)
Inductive Attr :=
  | A_DisableCAD | A_BlankLogOnBoot | A_ShellEnabled | A_EnableLogging
  | A_RunlevelInherits | A_DefinePriority | A_AlignStatusReports
  | A_MountVirtual | A_BootBannerText | A_BootBannerColor
  | A_DefaultRunlevel | A_Hostname | A_ObjectID | A_ObjectEnabled
  | A_ObjectOptions | A_ObjectDescription | A_ObjectStartCommand
  | A_ObjectReloadCommand | A_ObjectStopCommand | A_ObjectStartPriority
  | A_ObjectStopPriority | A_ObjectRunlevels.

#[global] Instance Attr_eq_dec : EqDecision Attr.
Proof. solve_decision. Defined.

Definition keyword (a : Attr) : string :=
  match a with
  | A_DisableCAD => "DisableCAD"
  | A_BlankLogOnBoot => "BlankLogOnBoot"
  | A_ShellEnabled => "ShellEnabled"
  | A_EnableLogging => "EnableLogging"
  | A_RunlevelInherits => "RunlevelInherits"
  | A_DefinePriority => "DefinePriority"
  | A_AlignStatusReports => "AlignStatusReports"
  | A_MountVirtual => "MountVirtual"
  | A_BootBannerText => "BootBannerText"
  | A_BootBannerColor => "BootBannerColor"
  | A_DefaultRunlevel => "DefaultRunlevel"
  | A_Hostname => "Hostname"
  | A_ObjectID => "ObjectID"
  | A_ObjectEnabled => "ObjectEnabled"
  | A_ObjectOptions => "ObjectOptions"
  | A_ObjectDescription => "ObjectDescription"
  | A_ObjectStartCommand => "ObjectStartCommand"
  | A_ObjectReloadCommand => "ObjectReloadCommand"
  | A_ObjectStopCommand => "ObjectStopCommand"
  | A_ObjectStartPriority => "ObjectStartPriority"
  | A_ObjectStopPriority => "ObjectStopPriority"
  | A_ObjectRunlevels => "ObjectRunlevels"
  end.

Definition ladder : list Attr :=
  [ A_DisableCAD; A_BlankLogOnBoot; A_ShellEnabled; A_EnableLogging;
    A_RunlevelInherits; A_DefinePriority; A_AlignStatusReports;
    A_MountVirtual; A_BootBannerText; A_BootBannerColor; A_DefaultRunlevel;
    A_Hostname; A_ObjectID; A_ObjectEnabled; A_ObjectOptions;
    A_ObjectDescription; A_ObjectStartCommand; A_ObjectReloadCommand;
    A_ObjectStopCommand; A_ObjectStartPriority; A_ObjectStopPriority;
    A_ObjectRunlevels ].

(** The rung that takes the line: the first keyword [k] of the ladder with
    [!strncmp(Worker, k, strlen(k))]. *)
Definition dispatch (Worker : string) : option Attr :=
  List.find (fun a => strncmp_eq Worker (keyword a)) ladder.

(** The locals of [InitConfig] that live across lines. *)
Record Locals := mkLocals {
  CurObj : option nat;
  LineNum : nat;
  LongComment : bool
}.

Section Parser.
Context `{Platform}.

(** [do { body } while ((TWorker = WhitespaceArg(TWorker)));] where [body]
    answers with the position it leaves [TWorker] at, or [None] for
    [break].  Every turn moves [TWorker] forward, so a fuel of the length of
    the line plus one is never used up ([args_loop_fuel]). *)
Fixpoint args_loop (fuel : nat) (body : string -> M (option string))
    (TWorker : string) : M unit :=
  match fuel with
  | O => mret tt
  | S fuel' =>
      r ← body TWorker;
      match r with
      | None => mret tt
      | Some TWorker' =>
          match WhitespaceArg TWorker' with
          | Some next => args_loop fuel' body next
          | None => mret tt
          end
      end
  end.

(** The argument copied into [CurArg[MAX_DESCRIPT_SIZE]]. *)
Definition cur_arg (TWorker : string) : string :=
  stake (MAX_DESCRIPT_SIZE - 1) (until stop_word TWorker).

(** The identifier copied out of the value by [RunlevelInherits] and
    [DefinePriority], and where the copy leaves [TWorker]. *)
Definition ident_len (DelimCurr : string) : nat :=
  Nat.min (String.length (until stop_blank DelimCurr)) (MAX_DESCRIPT_SIZE - 1).

Definition obj_id (i : nat) (st : State) : string :=
  match ObjectTable st !! i with
  | Some o => ObjectID o
  | None => ""
  end.

Definition when (b : bool) (m : M unit) : M unit := if b then m else mret tt.

(** [if ((strlen(DelimCurr) + 1) >= size) ConfigProblem(CONFIG_ETRUNCATED, ...)] *)
Definition check_truncated (size : nat) (attr : string)
    (AttribVal : option string) (DelimCurr : string) (line : nat) : M unit :=
  when (size <=? String.length DelimCurr + 1)%nat
       (ConfigProblem CONFIG_ETRUNCATED attr AttribVal line).

(** The five boolean switches: [true], [false], or a default with a
    warning. *)
Definition toggle (attr : string) (set : bool -> State -> State)
    (fallback : bool) (Worker : string) (lc : Locals) : M unit :=
  v ← GetLineDelim Worker;
  match v with
  | None => ConfigProblem CONFIG_EMISSINGVAL attr None (LineNum lc)
  | Some DelimCurr =>
      if strcmp_eq DelimCurr "true" then modify (set true)
      else if strcmp_eq DelimCurr "false" then modify (set false)
      else (modify (set fallback);;
            ConfigProblem CONFIG_EBADVAL attr (Some DelimCurr) (LineNum lc))
  end.

Definition do_RunlevelInherits (Worker : string) (lc : Locals) : M unit :=
  let attr := "RunlevelInherits" in
  v ← GetLineDelim Worker;
  match v with
  | None => ConfigProblem CONFIG_EAFTER attr None (LineNum lc)
  | Some DelimCurr =>
      let Inheriter := stake (ident_len DelimCurr) DelimCurr in
      let TWorker := sdrop (ident_len DelimCurr) DelimCurr in
      match TWorker with
      | EmptyString =>
          ConfigProblem CONFIG_EBADVAL attr (Some DelimCurr) (LineNum lc)
      | _ =>
          match WhitespaceArg TWorker with
          | None => undefined (* strstr(NULL, " ") *)
          | Some TWorker =>
              if has_blank TWorker
              then ConfigProblem CONFIG_EBADVAL attr (Some DelimCurr)
                     (LineNum lc)
              else
                let Inherited := snprintf_s MAX_DESCRIPT_SIZE TWorker in
                modify (fun st =>
                  set_RunlevelInheritance
                    (RLInheritance_Add Inheriter Inherited
                       (RunlevelInheritance st)) st)
          end
      end
  end.

Definition do_DefinePriority (Worker : string) (lc : Locals) : M unit :=
  let attr := "DefinePriority" in
  match CurObj lc with
  | Some _ => ConfigProblem CONFIG_EAFTER attr None (LineNum lc)
  | None =>
      v ← GetLineDelim Worker;
      match v with
      | None => ConfigProblem CONFIG_EMISSINGVAL attr None (LineNum lc)
      | Some DelimCurr =>
          let Alias := stake (ident_len DelimCurr) DelimCurr in
          let TWorker := sdrop (ident_len DelimCurr) DelimCurr in
          match TWorker with
          | EmptyString =>
              ConfigProblem CONFIG_EBADVAL attr (Some DelimCurr) (LineNum lc)
          | _ =>
              match WhitespaceArg TWorker with
              | None => undefined (* AllNumeric(NULL) *)
              | Some TWorker =>
                  if negb (AllNumeric TWorker)
                  then ConfigProblem CONFIG_EBADVAL attr (Some DelimCurr)
                         (LineNum lc)
                  else
                    let Target := ulong_of (atol TWorker) in
                    modify (fun st =>
                      set_PriorityAliasTree
                        (PriorityAlias_Add Alias Target
                           (PriorityAliasTree st)) st)
              end
          end
      end
  end.

Definition VirtualID : list (string * string) :=
  [ ("procfs", "procfs+"); ("sysfs", "sysfs+"); ("devfs", "devfs+");
    ("devpts", "devpts+"); ("devshm", "devshm+") ].

(** The inner [for (Inc = 0; Inc < 5; ++Inc)] of [MountVirtual]. *)
Fixpoint mount_match (Inc : nat) (ids : list (string * string))
    (CurArg : string) : option (nat * Z) :=
  match ids with
  | [] => None
  | (plain, plus) :: ids' =>
      if String.prefix plain CurArg
      then Some (Inc, if strcmp_eq plus CurArg then 2 else 1)
      else mount_match (S Inc) ids' CurArg
  end.

Definition do_MountVirtual (Worker : string) (lc : Locals) : M unit :=
  let attr := "MountVirtual" in
  v ← GetLineDelim Worker;
  match v with
  | None => ConfigProblem CONFIG_EMISSINGVAL attr None (LineNum lc)
  | Some DelimCurr =>
      args_loop (S (String.length DelimCurr))
        (fun TWorker =>
           match mount_match 0 VirtualID (cur_arg TWorker) with
           | Some (Inc, v) =>
               modify (fun st =>
                 set_AutoMountOpts (<[Inc := v]> (AutoMountOpts st)) st);;
               mret (Some TWorker)
           | None =>
               ConfigProblem CONFIG_EBADVAL attr (Some DelimCurr) (LineNum lc);;
               mret (Some TWorker)
           end)
        DelimCurr;;
      check_truncated MAX_LINE_SIZE attr (Some DelimCurr) DelimCurr (LineNum lc)
  end.

Definition do_BootBannerText (Worker : string) (lc : Locals) : M unit :=
  let attr := "BootBannerText" in
  v ← GetLineDelim Worker;
  match v with
  | None => ConfigProblem CONFIG_EMISSINGVAL attr None (LineNum lc)
  | Some DelimCurr =>
      if strcmp_eq DelimCurr "NONE"
      then modify (set_BootBanner (mkBanner "" "" false))
      else
        modify (fun st =>
          set_BootBanner
            (mkBanner (snprintf_s MAX_LINE_SIZE DelimCurr)
                      (BannerColor (BootBanner st)) true) st);;
        check_truncated MAX_DESCRIPT_SIZE attr (Some DelimCurr) DelimCurr
          (LineNum lc)
  end.

Definition do_BootBannerColor (Worker : string) (lc : Locals) : M unit :=
  let attr := "BootBannerColor" in
  v ← GetLineDelim Worker;
  match v with
  | None => ConfigProblem CONFIG_EMISSINGVAL attr None (LineNum lc)
  | Some DelimCurr =>
      if strcmp_eq DelimCurr "NONE"
      then modify (fun st =>
             set_BootBanner
               (mkBanner (BannerText (BootBanner st)) ""
                         (ShowBanner (BootBanner st))) st)
      else modify (fun st =>
             set_BootBanner (SetBannerColor DelimCurr (BootBanner st)) st)
  end.

Definition do_DefaultRunlevel (Worker : string) (lc : Locals) : M unit :=
  let attr := "DefaultRunlevel" in
  cur ← gets CurRunlevel;
  match cur with
  | String _ _ => mret tt (* already set: not set again *)
  | EmptyString =>
      match CurObj lc with
      | Some _ => ConfigProblem CONFIG_EAFTER attr None (LineNum lc)
      | None =>
          v ← GetLineDelim Worker;
          match v with
          | None => ConfigProblem CONFIG_EMISSINGVAL attr None (LineNum lc)
          | Some DelimCurr =>
              modify (set_CurRunlevel (snprintf_s MAX_DESCRIPT_SIZE DelimCurr))
          end
      end
  end.

(** Skip spaces, tabs and newlines (the hostname file). *)
Fixpoint skip_space (s : string) : string :=
  match s with
  | String c s' => if is_blank c || Ascii.eqb c NL then skip_space s' else s
  | EmptyString => EmptyString
  end.

Definition do_Hostname (Worker : string) (lc : Locals) : M unit :=
  let attr := "Hostname" in
  match CurObj lc with
  | Some _ => ConfigProblem CONFIG_EAFTER attr None (LineNum lc)
  | None =>
      v ← GetLineDelim Worker;
      match v with
      | None => ConfigProblem CONFIG_EMISSINGVAL attr None (LineNum lc)
      | Some DelimCurr =>
          let finish : M unit :=
            h ← gets Hostname;
            if has_blank h
            then emit EvHostnameBlanks;; modify (set_Hostname "")
            else check_truncated MAX_LINE_SIZE attr (Some DelimCurr) DelimCurr
                   (LineNum lc) in
          if strncmp_eq DelimCurr "FILE" then
            let TW := skip_blanks (sdrop 4 DelimCurr) in
            match fopen_r TW with
            | None => emit (EvHostnameFileFailed TW)
            | Some content =>
                let THostname := c_str (stake (MAX_LINE_SIZE - 1) content) in
                modify (set_Hostname (line_of (skip_space THostname)));;
                finish
            end
          else
            modify (set_Hostname (snprintf_s MAX_LINE_SIZE DelimCurr));;
            finish
      end
  end.

Definition do_ObjectID (Worker : string) (lc : Locals) : M Locals :=
  let attr := "ObjectID" in
  v ← GetLineDelim Worker;
  match v with
  | None => ConfigProblem CONFIG_EMISSINGVAL attr None (LineNum lc);; mret lc
  | Some DelimCurr =>
      i ← AddObjectToTable DelimCurr;
      check_truncated MAX_DESCRIPT_SIZE attr (Some DelimCurr) DelimCurr
        (LineNum lc);;
      mret (mkLocals (Some i) (LineNum lc) (LongComment lc))
  end.

(** The shape shared by the attributes of an object: they need a current
    object, then a value. *)
Definition object_attr (attr : string) (Worker : string) (lc : Locals)
    (k : nat -> string -> M unit) : M unit :=
  match CurObj lc with
  | None => ConfigProblem CONFIG_EBEFORE attr None (LineNum lc)
  | Some i =>
      v ← GetLineDelim Worker;
      match v with
      | None => ConfigProblem CONFIG_EMISSINGVAL attr None (LineNum lc)
      | Some DelimCurr => k i DelimCurr
      end
  end.

Definition do_ObjectEnabled (Worker : string) (lc : Locals) : M unit :=
  let attr := "ObjectEnabled" in
  object_attr attr Worker lc (fun i DelimCurr =>
    if strcmp_eq DelimCurr "true" then upd_obj i (set_Enabled 1)
    else if strcmp_eq DelimCurr "false" then upd_obj i (set_Enabled 0)
    else ConfigProblem CONFIG_EBADVAL attr (Some DelimCurr) (LineNum lc)).

(** The [TERMSIGNAL=...] argument of [ObjectOptions]; [TWorker] is what
    follows the ['=']. *)
Definition term_signal (i : nat) (attr CurArg TWorker : string) (line : nat)
    : M unit :=
  if AllNumeric TWorker then
    when (255 <? atoi TWorker)
         (ConfigProblem CONFIG_ELARGENUM CurArg None line);;
    upd_obj i (set_TermSignal (TermSignal_of_int (atoi TWorker)))
  else if strcmp_eq "SIGTERM" TWorker then upd_obj i (set_TermSignal SIGTERM)
  else if strcmp_eq "SIGKILL" TWorker then upd_obj i (set_TermSignal SIGKILL)
  else if strcmp_eq "SIGHUP" TWorker then upd_obj i (set_TermSignal SIGKILL)
  else if strcmp_eq "SIGINT" TWorker then upd_obj i (set_TermSignal SIGINT)
  else if strcmp_eq "SIGABRT" TWorker then upd_obj i (set_TermSignal SIGABRT)
  else if strcmp_eq "SIGQUIT" TWorker then upd_obj i (set_TermSignal SIGQUIT)
  else if strcmp_eq "SIGUSR1" TWorker then upd_obj i (set_TermSignal SIGUSR1)
  else if strcmp_eq "SIGUSR2" TWorker then upd_obj i (set_TermSignal SIGUSR2)
  else ConfigProblem CONFIG_EBADVAL attr (Some TWorker) line.

(** One argument of an [ObjectOptions] line; [false] is [break]. *)
Definition option_arg (i : nat) (line : nat) (CurArg : string) : M bool :=
  let attr := "ObjectOptions" in
  if strcmp_eq CurArg "NOWAIT" then
    upd_obj i (upd_Opts (set_EmulNoWait true));;
    id ← gets (obj_id i);
    emit (EvNoWaitDeprecated id line);;
    mret true
  else if strcmp_eq CurArg "HALTONLY" then
    upd_obj i (fun o =>
      upd_Opts (fun p => set_HaltCmdOnly true (set_CanStop false p))
               (set_Started true o));;
    mret true
  else if strcmp_eq CurArg "PERSISTENT" then
    upd_obj i (upd_Opts (set_CanStop false));; mret true
  else if strcmp_eq CurArg "RAWDESCRIPTION" then
    upd_obj i (upd_Opts (set_RawDescription true));; mret true
  else if strcmp_eq CurArg "SERVICE" then
    upd_obj i (upd_Opts (set_IsService true));; mret true
  else if strcmp_eq CurArg "AUTORESTART" then
    upd_obj i (upd_Opts (set_AutoRestart true));; mret true
  else if strcmp_eq CurArg "FORCESHELL" then
    shell ← gets ShellEnabled;
    (if negb shell
     then id ← gets (obj_id i); emit (EvForceShellIgnored id line)
     else upd_obj i (upd_Opts (set_ForceShell true)));;
    mret true
  else if strncmp_eq CurArg "TERMSIGNAL" then
    match sdrop 10 CurArg with
    | String "="%char (String c rest) =>
        term_signal i attr CurArg (String c rest) line;; mret true
    | _ => ConfigProblem CONFIG_EBADVAL attr (Some CurArg) line;; mret true
    end
  else
    ConfigProblem CONFIG_EBADVAL attr (Some CurArg) line;; mret false.

Definition do_ObjectOptions (Worker : string) (lc : Locals) : M unit :=
  let attr := "ObjectOptions" in
  object_attr attr Worker lc (fun i DelimCurr =>
    check_truncated MAX_LINE_SIZE attr (Some DelimCurr) DelimCurr (LineNum lc);;
    args_loop (S (String.length DelimCurr))
      (fun TWorker =>
         go ← option_arg i (LineNum lc) (cur_arg TWorker);
         mret (if go : bool then Some TWorker else None))
      DelimCurr).

Definition do_ObjectDescription (Worker : string) (lc : Locals) : M unit :=
  let attr := "ObjectDescription" in
  object_attr attr Worker lc (fun i DelimCurr =>
    upd_obj i (set_ObjectDescription (snprintf_s MAX_DESCRIPT_SIZE DelimCurr));;
    check_truncated MAX_DESCRIPT_SIZE attr (Some DelimCurr) DelimCurr
      (LineNum lc)).

Definition do_ObjectStartCommand (Worker : string) (lc : Locals) : M unit :=
  let attr := "ObjectStartCommand" in
  object_attr attr Worker lc (fun i DelimCurr =>
    upd_obj i (set_ObjectStartCommand (snprintf_s MAX_LINE_SIZE DelimCurr));;
    check_truncated MAX_LINE_SIZE attr (Some DelimCurr) DelimCurr (LineNum lc)).

Definition do_ObjectReloadCommand (Worker : string) (lc : Locals) : M unit :=
  let attr := "ObjectReloadCommand" in
  object_attr attr Worker lc (fun i DelimCurr =>
    upd_obj i (set_ObjectReloadCommand (snprintf_s MAX_LINE_SIZE DelimCurr));;
    check_truncated MAX_LINE_SIZE attr None DelimCurr (LineNum lc)).

Definition do_ObjectStopCommand (Worker : string) (lc : Locals) : M unit :=
  let attr := "ObjectStopCommand" in
  object_attr attr Worker lc (fun i DelimCurr =>
    (if strncmp_eq DelimCurr "PIDFILE" then
       let path := skip_blanks (sdrop 7 DelimCurr) in
       upd_obj i (fun o =>
         upd_Opts (set_StopMode STOP_PIDFILE)
                  (set_ObjectPIDFile (snprintf_s MAX_LINE_SIZE path) o))
     else if strncmp_eq DelimCurr "PID" then
       upd_obj i (upd_Opts (set_StopMode STOP_PID))
     else if strncmp_eq DelimCurr "NONE" then
       upd_obj i (upd_Opts (set_StopMode STOP_NONE))
     else
       upd_obj i (fun o =>
         set_ObjectStopCommand (snprintf_s MAX_LINE_SIZE DelimCurr)
           (upd_Opts (set_StopMode STOP_COMMAND) o)));;
    check_truncated MAX_LINE_SIZE attr (Some DelimCurr) DelimCurr (LineNum lc)).

(** [ObjectStartPriority] and [ObjectStopPriority]: a number, or else an
    alias; an alias that looks up as 0 is a bad value. *)
Definition do_priority (attr : string) (set : Z -> ObjTable -> ObjTable)
    (Worker : string) (lc : Locals) : M unit :=
  object_attr attr Worker lc (fun i DelimCurr =>
    if negb (AllNumeric DelimCurr) then
      tree ← gets PriorityAliasTree;
      let TmpTarget := PriorityAlias_Lookup tree DelimCurr in
      if TmpTarget =? 0
      then ConfigProblem CONFIG_EBADVAL attr (Some DelimCurr) (LineNum lc)
      else upd_obj i (set TmpTarget)
    else
      upd_obj i (set (ulong_of (atoi DelimCurr)));;
      when (8 <=? String.length DelimCurr)%nat
           (ConfigProblem CONFIG_ELARGENUM attr None (LineNum lc))).

Definition do_ObjectRunlevels (Worker : string) (lc : Locals) : M unit :=
  let attr := "ObjectRunlevels" in
  match CurObj lc with
  | None => ConfigProblem CONFIG_EBEFORE attr None (LineNum lc)
  | Some i =>
      last ← gets LastObject;
      id ← gets (obj_id i);
      when (bool_decide (last = Some i))
           (emit (EvManyRunlevelLines id (LineNum lc)));;
      modify (set_LastObject (Some i));;
      v ← GetLineDelim Worker;
      match v with
      | None => ConfigProblem CONFIG_EMISSINGVAL attr None (LineNum lc)
      | Some DelimCurr =>
          args_loop (S (String.length DelimCurr))
            (fun TWorker =>
               let TRL := until stop_word TWorker in
               if (MAX_DESCRIPT_SIZE <=? String.length TRL)%nat
               then undefined (* TRL[MAX_DESCRIPT_SIZE] is overrun *)
               else upd_obj i (ObjRL_AddRunlevel TRL);;
                    mret (Some (from stop_word TWorker)))
            DelimCurr;;
          check_truncated MAX_LINE_SIZE attr (Some DelimCurr) DelimCurr
            (LineNum lc)
      end
  end.

(** The body of the rung of the ladder that took the line.  Only [ObjectID]
    changes a local ([CurObj]). *)
Definition handle (a : Attr) (Worker : string) (lc : Locals) : M Locals :=
  let keep (m : M unit) : M Locals := m;; mret lc in
  match a with
  | A_DisableCAD => keep (toggle (keyword a) set_DisableCAD true Worker lc)
  | A_BlankLogOnBoot =>
      keep (toggle (keyword a) set_BlankLogOnBoot false Worker lc)
  | A_ShellEnabled =>
      keep (toggle (keyword a) set_ShellEnabled USE_SHELL_BY_DEFAULT Worker lc)
  | A_EnableLogging =>
      keep (toggle (keyword a) set_EnableLogging false Worker lc)
  | A_RunlevelInherits => keep (do_RunlevelInherits Worker lc)
  | A_DefinePriority => keep (do_DefinePriority Worker lc)
  | A_AlignStatusReports =>
      keep (toggle (keyword a) set_AlignStatusReports false Worker lc)
  | A_MountVirtual => keep (do_MountVirtual Worker lc)
  | A_BootBannerText => keep (do_BootBannerText Worker lc)
  | A_BootBannerColor => keep (do_BootBannerColor Worker lc)
  | A_DefaultRunlevel => keep (do_DefaultRunlevel Worker lc)
  | A_Hostname => keep (do_Hostname Worker lc)
  | A_ObjectID => do_ObjectID Worker lc
  | A_ObjectEnabled => keep (do_ObjectEnabled Worker lc)
  | A_ObjectOptions => keep (do_ObjectOptions Worker lc)
  | A_ObjectDescription => keep (do_ObjectDescription Worker lc)
  | A_ObjectStartCommand => keep (do_ObjectStartCommand Worker lc)
  | A_ObjectReloadCommand => keep (do_ObjectReloadCommand Worker lc)
  | A_ObjectStopCommand => keep (do_ObjectStopCommand Worker lc)
  | A_ObjectStartPriority =>
      keep (do_priority (keyword a) set_ObjectStartPriority Worker lc)
  | A_ObjectStopPriority =>
      keep (do_priority (keyword a) set_ObjectStopPriority Worker lc)
  | A_ObjectRunlevels => keep (do_ObjectRunlevels Worker lc)
  end.

(** The part of the loop body after the comment tests: blank lines,
    [#] comments, then the ladder. *)
Definition live_line (Worker : string) (lc : Locals) : M Locals :=
  match Worker with
  | String c _ =>
      if Ascii.eqb c NL then mret lc
      else if Ascii.eqb c "#"%char then mret lc
      else match dispatch Worker with
           | Some a => handle a Worker lc
           | None => emit (EvUnidentified (LineNum lc));; mret lc
           end
  | EmptyString => emit (EvUnidentified (LineNum lc));; mret lc
  end.

(** One turn of the [do ... while] of [InitConfig], from the first byte of
    a line. *)
Definition line_body (Worker : string) (lc : Locals) : M Locals :=
  let Worker := skip_blanks Worker in
  if strncmp_eq Worker "<!<" then
    if negb (LongComment lc)
    then emit (EvStrayTerminator (LineNum lc));; mret lc
    else live_line (skip_blanks (sdrop 3 Worker))
           (mkLocals (CurObj lc) (LineNum lc) false)
  else if LongComment lc then mret lc
  else if strncmp_eq Worker ">!>"
  then mret (mkLocals (CurObj lc) (LineNum lc) true)
  else live_line Worker lc.

Definition next_line (lc : Locals) : Locals :=
  mkLocals (CurObj lc) (S (LineNum lc)) (LongComment lc).

(** [while (++LineNum, (Worker = NextLine(Worker)))] followed by the next
    turns: the stream is walked to the newline, and the line after it, if
    there is one, is processed ([rest_of_lines_NextLine]). *)
Fixpoint rest_of_lines (Worker : string) (lc : Locals) : M Locals :=
  match Worker with
  | EmptyString => mret (next_line lc)
  | String c Worker' =>
      if Ascii.eqb c NL then
        match Worker' with
        | EmptyString => mret (next_line lc)
        | _ => lc' ← line_body Worker' (next_line lc); rest_of_lines Worker' lc'
        end
      else rest_of_lines Worker' lc
  end.

(** The whole parsing loop. *)
Definition parse_lines (ConfigStream : string) : M Locals :=
  lc ← line_body ConfigStream (mkLocals None 1 false);
  rest_of_lines ConfigStream lc.

End Parser.

(** ** [InitConfig]: the passes after the parsing loop *)

Section Renumber.
(** The code runs the same steps on [ObjectStartPriority] and on
    [ObjectStopPriority]; [get] and [set] select the field. *)
Variable get : ObjTable -> Z.
Variable set : Z -> ObjTable -> ObjTable.

(** The [TWorker] loop: every node other than [CurObj] (index [j]) and
    [ObjWorker] (index [i]) whose priority is at least [c], the new priority
    of [CurObj], is incremented. *)
Definition shift_others (i j : nat) (c : Z) (table : list ObjTable)
    : list ObjTable :=
  imap (fun k TWorker =>
          if (c <=? get TWorker) && negb (k =? j)%nat && negb (k =? i)%nat
          then set (ulong_incr (get TWorker)) TWorker
          else TWorker)
       table.

(** One [if] of the body of the double loop, for [ObjWorker] at index [i]
    and [CurObj] at index [j]. *)
Definition renumber_pair (i j : nat) (table : list ObjTable) : list ObjTable :=
  match table !! i, table !! j with
  | Some ObjWorker_, Some CurObj_ =>
      if negb (get ObjWorker_ =? 0) && negb (i =? j)%nat
         && (get CurObj_ =? get ObjWorker_)
      then
        let c := ulong_incr (get CurObj_) in
        shift_others i j c (<[j := set c CurObj_]> table)
      else table
  | _, _ => table
  end.

End Renumber.

(** The body of the double loop: start priorities, then stop priorities. *)
Definition renumber_body (i j : nat) (table : list ObjTable) : list ObjTable :=
  renumber_pair ObjectStopPriority set_ObjectStopPriority i j
    (renumber_pair ObjectStartPriority set_ObjectStartPriority i j table).

(** [for (CurObj = ObjectTable; CurObj->Next != NULL; CurObj = CurObj->Next)],
    with [n] nodes still to visit from index [j]. *)
Fixpoint renumber_inner (n i j : nat) (table : list ObjTable) : list ObjTable :=
  match n with
  | O => table
  | S n' => renumber_inner n' i (S j) (renumber_body i j table)
  end.

(** [for (ObjWorker = ObjectTable; ObjWorker->Next != NULL; ...)] *)
Fixpoint renumber_outer (n i : nat) (table : list ObjTable) : list ObjTable :=
  match n with
  | O => table
  | S n' => renumber_outer n' (S i) (renumber_inner (length table) i 0 table)
  end.

Definition renumber_priorities (table : list ObjTable) : list ObjTable :=
  renumber_outer (length table) 0 table.

Section Passes.
Context `{Platform}.

(** The byte that the backwards scan over trailing blanks stops at; [None]
    when the scan leaves the buffer at its front. *)
Fixpoint last_nonblank (s : string) : option ascii :=
  match s with
  | EmptyString => None
  | String c s' =>
      match last_nonblank s' with
      | Some d => Some d
      | None => if is_blank c then None else Some c
      end
  end.

(** NOWAIT is emulated by an ampersand at the end of the start command. *)
Definition emulate_nowait (ObjWorker : ObjTable) : option ObjTable :=
  if EmulNoWait (Opts ObjWorker) then
    let cmd := ObjectStartCommand ObjWorker in
    match cmd with
    | EmptyString => Some ObjWorker
    | _ =>
        match last_nonblank cmd with
        | None => None
        | Some c =>
            if Ascii.eqb c "&"%char then Some ObjWorker
            else Some (set_ObjectStartCommand
                         (cmd +:+ stake (MAX_LINE_SIZE - String.length cmd - 1) "&")
                         ObjWorker)
        end
    end
  else Some ObjWorker.

(** [fgets(buf, size, stdin)] with [n = size - 1]: the bytes read and the
    input left. *)
Fixpoint fgets (n : nat) (input : string) : string * string :=
  match n, input with
  | S n', String c input' =>
      if Ascii.eqb c NL then (String c EmptyString, input')
      else let (buf, rest) := fgets n' input' in (String c buf, rest)
  | _, _ => (EmptyString, input)
  end.

(** The prompt for a runlevel at boot.  Each turn reads a line; at the end
    of the input the loop has no defined outcome. *)
Fixpoint prompt_runlevel (fuel : nat) : M unit :=
  match fuel with
  | O => undefined
  | S fuel' =>
      emit EvPromptRunlevel;;
      input ← gets Stdin;
      match input with
      | EmptyString => undefined
      | _ =>
          let (NewRL, rest) := fgets (MAX_DESCRIPT_SIZE - 1) input in
          modify (set_Stdin rest);;
          when (String.prefix (String NL EmptyString) NewRL)
               (emit EvEmergencyShell);;
          let NewRL := but_last NewRL in
          st ← gets (fun st => st);
          if ObjRL_ValidRunlevel (RunlevelInheritance st) (ObjectTable st) NewRL
          then emit EvRunlevelAccepted;;
               modify (set_CurRunlevel (snprintf_s MAX_DESCRIPT_SIZE NewRL))
          else emit EvRunlevelRejected;; prompt_runlevel fuel'
      end
  end.

(** One [if] block of the per-object loop of [ScanConfigIntegrity]: when the
    node at index [k] meets [cond], a diagnostic is printed, the node is
    repaired by [repair], and [RetState] becomes [r']. *)
Definition scan_step (k : nat) (cond : ObjTable -> bool)
    (ev : string -> Event) (repair : ObjTable -> ObjTable) (r' : rStatus)
    (RetState : rStatus) : M rStatus :=
  table ← gets ObjectTable;
  match table !! k with
  | Some Worker =>
      if cond Worker
      then emit (ev (ObjectID Worker));; upd_obj k repair;; mret r'
      else mret RetState
  | None => mret RetState
  end.

(** The search for a second node with the ID of the node at index [k]. *)
Fixpoint scan_duplicates (k t : nat) (id : string) (offenders : list ObjTable)
    (RetState : rStatus) : M rStatus :=
  match offenders with
  | [] => mret RetState
  | TOffender :: offenders' =>
      if strcmp_eq id (ObjectID TOffender) && negb (k =? t)%nat
      then emit (EvDuplicateID id);;
           scan_duplicates k (S t) id offenders' FAILURE
      else scan_duplicates k (S t) id offenders' RetState
  end.

Definition missing_description : string :=
  snprintf_s MAX_DESCRIPT_SIZE
    (CONSOLE_COLOR_YELLOW +:+ "[missing description]" +:+ CONSOLE_ENDCOLOR).

Definition is_empty (s : string) : bool :=
  match s with EmptyString => true | _ => false end.

(** The body of the per-object loop. *)
Definition scan_object (k : nat) (RetState : rStatus) : M rStatus :=
  r ← scan_step k (fun W => is_empty (ObjectDescription W))
        EvMissingDescription (set_ObjectDescription missing_description)
        WARNING RetState;
  r ← scan_step k
        (fun W => is_empty (ObjectStartCommand W)
                  && is_empty (ObjectStopCommand W)
                  && bool_decide (StopMode (Opts W) = STOP_COMMAND))
        EvNoCommands (fun W => W) FAILURE r;
  r ← scan_step k
        (fun W => negb (HaltCmdOnly (Opts W))
                  && is_empty (ObjectStartCommand W))
        EvNoStartCommand (set_Enabled 0) WARNING r;
  r ← scan_step k
        (fun W => bool_decide (ObjectRunlevels W = [])
                  && negb (HaltCmdOnly (Opts W)))
        EvNoRunlevels (fun W => W) FAILURE r;
  r ← scan_step k (fun W => Enabled W =? 2)
        EvNoEnabled (fun W => W) FAILURE r;
  r ← scan_step k
        (fun W => bool_decide (StopMode (Opts W) = STOP_PID)
                  && HaltCmdOnly (Opts W))
        EvHaltOnlyPid (set_Enabled 0) WARNING r;
  table ← gets ObjectTable;
  match table !! k with
  | Some Worker => scan_duplicates k 0 (ObjectID Worker) table r
  | None => mret r
  end.

(** The per-object loop, over the indices [k], [k+1], ... *)
Fixpoint scan_objects (n k : nat) (RetState : rStatus) : M rStatus :=
  match n with
  | O => mret RetState
  | S n' => r ← scan_object k RetState; scan_objects n' (S k) r
  end.

(** [ScanConfigIntegrity] *)
Definition ScanConfigIntegrity : M rStatus :=
  st ← gets (fun st => st);
  match ObjectTable st with
  | [] => emit EvNoObjects;; mret FAILURE
  | table =>
      let scan : M rStatus :=
        r ← scan_objects (length table) 0 SUCCESS;
        modify (set_WasRunBefore true);;
        mret r in
      if is_empty (CurRunlevel st)
         || negb (ObjRL_ValidRunlevel (RunlevelInheritance st) table
                    (CurRunlevel st))
      then
        (if is_empty (CurRunlevel st) then emit EvNoDefaultRunlevel
         else emit (EvRunlevelMissing (WasRunBefore st) (CurRunlevel st)));;
        if negb (WasRunBefore st)
        then prompt_runlevel (S (String.length (Stdin st)));; scan
        else mret FAILURE
      else scan
  end.

(** [getchar()]: the next byte of standard input, if there is one. *)
Definition getchar : M (option ascii) := fun st =>
  match Stdin st with
  | EmptyString => Some (None, st)
  | String c rest => Some (Some c, set_Stdin rest st)
  end.

(** [InitConfig] *)
Definition InitConfig : M rStatus :=
  conf ← gets ConfFile;
  match conf with
  | None => emit EvStatFailed;; mret FAILURE
  | Some bytes =>
      let ConfigStream := c_str bytes in
      if is_empty ConfigStream || String.eqb ConfigStream (String NL EmptyString)
      then emit EvEmptyConfig;; mret FAILURE
      else
        lc ← parse_lines ConfigStream;
        table ← gets ObjectTable;
        match table with
        | [] => undefined (* ObjWorker->Next with ObjWorker == NULL *)
        | _ =>
            match mapM emulate_nowait (renumber_priorities table) with
            | None => undefined
            | Some table' =>
                modify (set_ObjectTable table');;
                when (LongComment lc) (emit EvNoTerminator);;
                PriorityAlias_Shutdown;;
                r ← ScanConfigIntegrity;
                match r with
                | SUCCESS => mret SUCCESS
                | FAILURE =>
                    emit EvOfferDump;;
                    c ← getchar;
                    (if bool_decide (c = Some "d"%char)
                     then emit (EvDump ConfigStream)
                     else emit EvNotDumping);;
                    ShutdownConfig;;
                    mret FAILURE
                | WARNING => emit EvNoncritical;; mret WARNING
                end
            end
        end
  end.

End Passes.

(** ** [ReloadConfig] *)

(** A copy loop over a linked list.  The copy is built in place: [dst] holds
    the nodes written so far and [w] is the index of the node the write
    pointer designates.  A turn stores the source node there and hangs a
    fresh free node behind it, which cuts off whatever followed.  [advance]
    tells whether the loop then moves the write pointer to that fresh
    node. *)
Fixpoint list_copy {A} (advance : bool) (src dst : list A) (w : nat) : list A :=
  match src with
  | [] => dst
  | x :: src' =>
      list_copy advance src' (take w dst ++ [x]) (if advance then S w else w)
  end.

(** The copy of a runlevel list: [RLTemp2 = RLTemp2->Next] ends each turn. *)
Definition backup_runlevels (rls : list string) : list string :=
  list_copy true rls [] 0.

(** The copy of the object table: [SWorker = SWorker->Next] is part of the
    [for] header; each node is copied as a unit and its runlevel list is
    copied behind it. *)
Definition backup_table (table : list ObjTable) : list ObjTable :=
  list_copy true
    (map (fun Worker =>
            set_ObjectRunlevels (backup_runlevels (ObjectRunlevels Worker))
              Worker)
         table)
    [] 0.

(** The copy of the inheritance list: its loop never moves [RLIWorker[1]]
    off the root node. *)
Definition backup_inheritance (tree : list (string * string))
    : list (string * string) :=
  list_copy false tree [] 0.

(** [Worker->Started = SWorker->Started; Worker->ObjectPID = SWorker->ObjectPID;] *)
Definition carry (SWorker Worker : ObjTable) : ObjTable :=
  set_ObjectPID (ObjectPID SWorker) (set_Started (Started SWorker) Worker).

(** One turn of the closing loop of a successful reload: [Started] and
    [ObjectPID] of a backup node go to the node that [LookupObjectInTable]
    finds for its ID. *)
Definition restore_one (SWorker : ObjTable) (table : list ObjTable)
    : list ObjTable :=
  match LookupObjectInTable table (ObjectID SWorker) with
  | Some k => alter (carry SWorker) k table
  | None => table
  end.

(** The closing loop. *)
Fixpoint restore_status (backup table : list ObjTable) : list ObjTable :=
  match backup with
  | [] => table
  | SWorker :: backup' => restore_status backup' (restore_one SWorker table)
  end.

Section Reload.
Context `{Platform}.

Definition ReloadConfig : M rStatus :=
  st ← gets (fun st => st);
  match ObjectTable st with
  | [] => undefined (* Worker->Next with Worker == NULL *)
  | table =>
      let RunlevelBackup := snprintf_s MAX_DESCRIPT_SIZE (CurRunlevel st) in
      let TRoot := backup_table table in
      let RLIRoot := backup_inheritance (RunlevelInheritance st) in
      ShutdownConfig;;
      let GlobalTriple :=
        (EnableLogging st, DisableCAD st, AlignStatusReports st) in
      r ← InitConfig;
      ConfigOK ←
        (if bool_decide (r = FAILURE) then
           emit EvReloadFailed;;
           modify (set_ObjectTable TRoot);;
           modify (set_RunlevelInheritance RLIRoot);;
           modify (set_CurRunlevel
                     (snprintf_s MAX_DESCRIPT_SIZE RunlevelBackup));;
           mret false
         else mret true);
      modify (fun st' =>
        set_AlignStatusReports (GlobalTriple.2)
          (set_DisableCAD (GlobalTriple.1.2)
             (set_EnableLogging (GlobalTriple.1.1) st')));;
      if negb ConfigOK then mret FAILURE
      else
        modify (fun st' =>
          set_ObjectTable (restore_status TRoot (ObjectTable st')) st');;
        emit EvReloaded;;
        mret SUCCESS
  end.

End Reload.

(** ** [EditConfigValue] *)

Inductive ScanResult :=
  | ScanUndefined                 (* a line overruns [LineWorkerR] *)
  | ScanMalformed                 (* an ObjectID line without value *)
  | ScanDone (Worker : option nat).  (* the loop goes on or ends with [Worker] *)

(** [s[i]], the terminator included. *)
Definition byte_at (s : string) (i : nat) : ascii :=
  match String.get i s with
  | Some c => c
  | None => NUL
  end.

(** [for (; MasterStream[Inc2] == '\n'; --Inc2) MasterStream[Inc2] = '\0';] *)
Fixpoint erase_newlines (fuel : nat) (MasterStream : string) (Inc2 : nat)
    : string :=
  match fuel with
  | O => MasterStream
  | S fuel' =>
      if Ascii.eqb (byte_at MasterStream Inc2) NL
      then erase_newlines fuel' (stake Inc2 MasterStream) (Inc2 - 1)
      else MasterStream
  end.

(** The two loops meant to erase the newlines at the end of the file: the
    first leaves [Inc2] at the terminator, where the second starts. *)
Definition erase_trailing_newlines (MasterStream : string) : string :=
  erase_newlines (S (String.length MasterStream)) MasterStream
    (String.length MasterStream).

(** The width of the separator as the code counts it: 1 for ['='], else the
    length of the run of blanks. *)
Definition sep_width (at_sep : string) : nat :=
  if at_equals at_sep then 1 else String.length (blank_run at_sep).

Section Edit.
Context `{Platform}.

(** One turn of the search for the ObjectID line; [off] is the offset of
    [LineArm] in the stream, [Worker] what earlier turns found. *)
Definition scan_line (LineArm : string) (off : nat) (id : string)
    (Worker : option nat) : ScanResult :=
  let LineWorkerR := line_of LineArm in
  if (MAX_LINE_SIZE <=? String.length LineWorkerR)%nat then ScanUndefined
  else
    let LineWorker := skip_blanks LineWorkerR in
    if negb (strncmp_eq LineWorker "ObjectID") then ScanDone Worker
    else
      let Inc2 := String.length (until stop_key LineWorker) in
      let at_sep := from stop_key LineWorker in
      let NumWhiteSpaces := sep_width at_sep in
      let value := sdrop NumWhiteSpaces at_sep in
      if at_eol value then ScanMalformed
      else if negb (strcmp_eq value id) then ScanDone Worker
      else ScanDone (Some (off + Inc2 + NumWhiteSpaces + String.length id)%nat).

(** [while (++LineNum, (LineArm = NextLine(LineArm)))] and the turns that
    follow; [off] is the offset of [s] in the stream. *)
Fixpoint scan_rest (s : string) (off : nat) (id : string)
    (Worker : option nat) : ScanResult :=
  match s with
  | EmptyString => ScanDone Worker
  | String c s' =>
      if Ascii.eqb c NL then
        match s' with
        | EmptyString => ScanDone Worker
        | _ =>
            match scan_line s' (S off) id Worker with
            | ScanDone Worker' => scan_rest s' (S off) id Worker'
            | r => r
            end
        end
      else scan_rest s' (S off) id Worker
  end.

Definition find_object (MasterStream id : string) : ScanResult :=
  match scan_line MasterStream 0 id None with
  | ScanDone Worker => scan_rest MasterStream 0 id Worker
  | r => r
  end.

(** Where the attribute is looked for: from [Worker] up to the next
    "ObjectID" ([*Stopper = '\0']), or to the end of the stream. *)
Definition section_of (MasterStream : string) (Worker : nat) : string :=
  let region := sdrop Worker MasterStream in
  match strstr region "ObjectID" with
  | Some Stopper => stake Stopper region
  | None => region
  end.

(** What the edit makes of the stream: [None] is the FAILURE return, the
    outer [option] undefined behaviour. *)
Definition rewrite_stream (MasterStream id Attribute Value : string)
    : option (option string) :=
  match find_object MasterStream id with
  | ScanUndefined => None
  | ScanMalformed => Some None
  | ScanDone None => Some None
  | ScanDone (Some Worker) =>
      match strstr (section_of MasterStream Worker) Attribute with
      | None => Some None
      | Some found =>
          let pos := (Worker + found)%nat in
          (* LineArm is NULL once its loop has ended: the pointer test of
             the source holds for every [Worker]. *)
          if Ascii.eqb (byte_at MasterStream (pos - 1)) "#"%char then Some None
          else if (String.length MasterStream <=? pos)%nat
          then None (* [*Worker++ = 0] at the terminator, then a read past it *)
          else
            let HalfOne := stake pos MasterStream in
            let at_sep := from stop_key (sdrop (S pos) MasterStream) in
            if at_eol at_sep then Some None
            else
              let NumWhiteSpaces := sep_width at_sep in
              let WhiteSpace := until stop_sep at_sep in
              (* [WhiteSpace = malloc(NumWhiteSpaces + 1)] takes every ['=']
                 and blank that follows and the terminator *)
              if (malloc_usable_size (NumWhiteSpaces + 1)
                  <? String.length WhiteSpace + 1)%nat
              then None
              else
                let HalfTwo := skip_line (from stop_sep at_sep) in
                let NewValue :=
                  snprintf_s
                    (String.length Attribute + NumWhiteSpaces
                     + String.length Value + 1)
                    (Attribute +:+ WhiteSpace +:+ Value) in
                Some (Some (HalfOne +:+ NewValue +:+ HalfTwo))
      end
  end.

(** [EditConfigValue] *)
Definition EditConfigValue (id Attribute Value : string) : M rStatus :=
  conf ← gets ConfFile;
  match conf with
  | None => emit EvStatFailed;; mret FAILURE
  | Some bytes =>
      let MasterStream := c_str bytes in
      if is_empty MasterStream then mret FAILURE
      else
        match rewrite_stream (erase_trailing_newlines MasterStream)
                id Attribute Value with
        | None => undefined
        | Some None => mret FAILURE
        | Some (Some MasterStream') =>
            modify (set_ConfFile (Some MasterStream'));;
            mret SUCCESS
        end
  end.

End Edit.

(** ** A concrete platform and concrete inputs *)

(** Linux on x86-64 with the sizes epoch.h ships with. *)
Definition linux : Platform :=
  {| MAX_LINE_SIZE := 2048;
     MAX_DESCRIPT_SIZE := 384;
     USE_SHELL_BY_DEFAULT := true;
     CONSOLE_COLOR_YELLOW := "[33m";
     CONSOLE_ENDCOLOR := "[0m";
     SIGTERM := 15; SIGKILL := 9; SIGHUP := 1; SIGINT := 2;
     SIGABRT := 6; SIGQUIT := 3; SIGUSR1 := 10; SIGUSR2 := 12;
     TermSignal_of_int := fun v => v mod 256;
     SetBannerColor :=
       fun name b => mkBanner (BannerText b) name (ShowBanner b);
     fopen_r := fun _ => None;
     malloc_usable_size :=
       fun n => Nat.max 24 ((n + 8 + 15) / 16 * 16 - 8) |}.

(** A file made of the given lines, each closed by a newline. *)
Fixpoint text (ls : list string) : string :=
  match ls with
  | [] => EmptyString
  | l :: ls' => l +:+ String NL (text ls')
  end.

(** The state of the process before the first [InitConfig], with the bytes
    of epoch.conf and of standard input. *)
Definition boot (conf input : string) : State :=
  {| ObjectTable := []; PriorityAliasTree := []; RunlevelInheritance := [];
     Hostname := ""; CurRunlevel := "";
     DisableCAD := true; BlankLogOnBoot := false; ShellEnabled := true;
     EnableLogging := true; AlignStatusReports := false;
     BootBanner := mkBanner "" "" false;
     AutoMountOpts := [0; 0; 0; 0; 0];
     WasRunBefore := false; LastObject := None;
     ConfFile := Some conf; Stdin := input; Console := [] |}.

(** The state and the status a computation ends with. *)
Definition final_state {A} (r : option (A * State)) : option State :=
  snd <$> r.
Definition final_status {A} (r : option (A * State)) : option A :=
  fst <$> r.

(** The priority of an object for a phase ([true]: start). *)
Definition phase_priority (WantStartPriority : bool) (o : ObjTable) : Z :=
  if WantStartPriority then ObjectStartPriority o else ObjectStopPriority o.

(** A table with one halt-only object that has a start priority. *)
Definition halt_object : ObjTable :=
  {| ObjectID := "sync"; ObjectDescription := "Syncing disks";
     ObjectStartCommand := ""; ObjectStopCommand := "/bin/sync";
     ObjectReloadCommand := ""; ObjectPIDFile := "";
     ObjectStartPriority := 1; ObjectStopPriority := 1; ObjectPID := 0;
     Enabled := 1; Started := true; TermSignal := 15;
     ObjectRunlevels := ["default"];
     Opts := {| StopMode := STOP_COMMAND; CanStop := false;
                HaltCmdOnly := true; RawDescription := false;
                IsService := false; AutoRestart := false;
                EmulNoWait := false; ForceShell := false |} |}.

Definition halt_state : State :=
  set_CurRunlevel "default" (set_ObjectTable [halt_object] (boot "" "")).

(** *** The sentences of the specification that the code does not bear out,
    as propositions over the embedding *)

(** "[GetObjectByPriority] returns the object whose (start|stop) priority
    equals [priority] and that matches the runlevel (honouring inheritance;
    [halt_only] objects are only considered in the stop phase)." *)
Definition spec_GetObjectByPriority (st : State) (rl : string)
    (WantStartPriority : bool) (priority : Z) : Prop :=
  forall i, GetObjectByPriority st (Some rl) WantStartPriority priority = Some i ->
  exists o, ObjectTable st !! i = Some o
    /\ phase_priority WantStartPriority o = priority
    /\ ObjRL_CheckRunlevel (RunlevelInheritance st) rl o true <> 0
    /\ (HaltCmdOnly (Opts o) = true -> WantStartPriority = false).

(** What the code does instead: with a runlevel given, a halt-only object
    is passed over in the stop phase, not in the start phase. *)
Definition priority_candidate (st : State) (rl : string)
    (WantStartPriority : bool) (priority : Z) (o : ObjTable) : Prop :=
  phase_priority WantStartPriority o = priority
  /\ ObjRL_CheckRunlevel (RunlevelInheritance st) rl o true <> 0
  /\ (HaltCmdOnly (Opts o) = true -> WantStartPriority = true).

(** "Keywords must not be matched as prefixes of longer identifiers": a
    line is taken by a rung only if its first word is the keyword. *)
Definition spec_full_token_match (Worker : string) : Prop :=
  forall a, dispatch Worker = Some a -> until stop_key Worker = keyword a.

(** Where the ladder reads a line from, when the turn of the loop for the
    line gets to the ladder.  The tests before the ladder end the turn at a
    newline and at a ['#']. *)
Definition live_input (Worker : string) : option string :=
  match Worker with
  | String c _ =>
      if Ascii.eqb c NL then None
      else if Ascii.eqb c "#"%char then None
      else Some Worker
  | EmptyString => Some Worker
  end.

(** The comment tests at the head of the loop body end the turn at a stray
    terminator, inside a block comment and at an opener; a terminator that
    closes a block comment is stepped over, with the blanks behind it. *)
Definition ladder_input (Worker : string) (lc : Locals) : option string :=
  let Worker := skip_blanks Worker in
  if strncmp_eq Worker "<!<" then
    if negb (LongComment lc) then None
    else live_input (skip_blanks (sdrop 3 Worker))
  else if LongComment lc then None
  else if strncmp_eq Worker ">!>" then None
  else live_input Worker.

(** The keyword that the turn of the loop for a line recognises: the rung
    of the ladder that takes the line, when the turn gets to the ladder. *)
Definition recognised (Worker : string) (lc : Locals) : option Attr :=
  match ladder_input Worker lc with
  | Some W => dispatch W
  | None => None
  end.

(** A state in the middle of a parse: one object is open, and the alias
    "Services" is bound to 0. *)
Definition alias_state : State :=
  set_PriorityAliasTree [("Services", 0)]
    (set_ObjectTable [@new_object linux "svc"] (boot "" "")).

Definition in_object (i line : nat) : Locals := mkLocals (Some i) line false.

(** The words of a line, one space between them. *)
Fixpoint words (ts : list string) : string :=
  match ts with
  | [] => EmptyString
  | [t] => t
  | t :: ts' => t +:+ " " +:+ words ts'
  end.

(** The arguments of [ObjectOptions] that set a flag. *)
Definition flag_options : list string :=
  [ "NOWAIT"; "HALTONLY"; "PERSISTENT"; "RAWDESCRIPTION"; "SERVICE";
    "AUTORESTART"; "FORCESHELL" ].

(** The signal that the node at index [i] is terminated with. *)
Definition term_signal_at (i : nat) (st : State) : option Z :=
  TermSignal <$> ObjectTable st !! i.

Section OptionWords.
Context `{Platform}.

(** The arguments of an [ObjectOptions] line taken one after the other, up
    to the first that makes the loop [break]. *)
Fixpoint run_options (i line : nat) (ts : list string) : M unit :=
  match ts with
  | [] => mret tt
  | t :: ts' =>
      go ← option_arg i line t;
      if go : bool then run_options i line ts' else mret tt
  end.

End OptionWords.

(** A configuration with two inheritance pairs, and a later version of the
    file whose only object lacks ObjectEnabled. *)
Definition two_pairs_conf : string :=
  text [ "DefaultRunlevel default";
         "RunlevelInherits rescue default";
         "RunlevelInherits net default";
         "ObjectID svc";
         "ObjectDescription Service";
         "ObjectStartCommand /bin/svc";
         "ObjectStopCommand PID";
         "ObjectStartPriority 1";
         "ObjectStopPriority 1";
         "ObjectRunlevels default";
         "ObjectEnabled true" ].

Definition broken_conf : string :=
  text [ "RunlevelInherits rescue default";
         "RunlevelInherits net default";
         "ObjectID svc";
         "ObjectDescription Service";
         "ObjectStartCommand /bin/svc";
         "ObjectStopCommand PID";
         "ObjectStartPriority 1";
         "ObjectStopPriority 1";
         "ObjectRunlevels default" ].

(** The state [ShutdownConfig] leaves. *)
Definition after_shutdown (st : State) : State :=
  set_RunlevelInheritance [] (set_ObjectTable [] st).

(** The three globals that a reload puts back. *)
Definition restore_globals (st st1 : State) : State :=
  set_AlignStatusReports (AlignStatusReports st)
    (set_DisableCAD (DisableCAD st)
       (set_EnableLogging (EnableLogging st) st1)).

Section ReloadOutcomes.
Context `{Platform}.

(** The state [ReloadConfig] ends with, from the state [st] it was called
    in and the state [st1] its [InitConfig] ended with: after a reparse that
    did not fail, and after one that did. *)
Definition reload_commit (st st1 : State) : State :=
  let s := restore_globals st st1 in
  let s' :=
    set_ObjectTable
      (restore_status (backup_table (ObjectTable st)) (ObjectTable s)) s in
  set_Console (EvReloaded :: Console s') s'.

Definition reload_rollback (st st1 : State) : State :=
  restore_globals st
    (set_CurRunlevel
       (snprintf_s MAX_DESCRIPT_SIZE
          (snprintf_s MAX_DESCRIPT_SIZE (CurRunlevel st)))
       (set_RunlevelInheritance (backup_inheritance (RunlevelInheritance st))
          (set_ObjectTable (backup_table (ObjectTable st))
             (set_Console (EvReloadFailed :: Console st1) st1)))).

End ReloadOutcomes.

(** A running system: [two_pairs_conf] was loaded at boot and its object
    has since been started with PID 412.  The file now on disk switches two
    of the runtime-controlled globals and describes the object anew. *)
Definition revised_conf : string :=
  text [ "EnableLogging false";
         "DisableCAD false";
         "AlignStatusReports true";
         "ObjectID log";
         "ObjectDescription Logger";
         "ObjectStartCommand /bin/log";
         "ObjectStopCommand PID";
         "ObjectStartPriority 1";
         "ObjectStopPriority 2";
         "ObjectRunlevels default";
         "ObjectEnabled true";
         "ObjectID svc";
         "ObjectDescription Service, revised";
         "ObjectStartCommand /bin/svc -n";
         "ObjectStopCommand PID";
         "ObjectStartPriority 2";
         "ObjectStopPriority 1";
         "ObjectRunlevels default";
         "ObjectEnabled true" ].

Definition state_of (r : option (rStatus * State)) : State :=
  match r with
  | Some (_, st) => st
  | None => boot "" ""
  end.

Definition running_state : State :=
  let st := state_of (@InitConfig linux (boot two_pairs_conf "")) in
  set_ConfFile (Some revised_conf)
    (set_ObjectTable
       (alter (fun o => set_ObjectPID 412 (set_Started true o)) 0%nat
          (ObjectTable st)) st).

Definition reparsed_state : State :=
  state_of (@InitConfig linux (after_shutdown running_state)).

(** A well-formed epoch.conf in which an older start command was left
    behind as a comment. *)
Definition commented_conf : string :=
  text [ "DefaultRunlevel default";
         "ObjectID svc";
         "ObjectDescription Service";
         "# ObjectStartCommand /bin/old";
         "ObjectStartCommand /bin/true";
         "ObjectStopCommand NONE";
         "ObjectStartPriority 1";
         "ObjectStopPriority 0";
         "ObjectRunlevels default";
         "ObjectEnabled true" ].

(** What [EditConfigValue] leaves on disk for it. *)
Definition commented_conf_edited : string :=
  text [ "DefaultRunlevel default";
         "ObjectID svc";
         "ObjectDescription Service";
         "# ObjectStartCommand /bin/true";
         "ObjectStartCommand /bin/true";
         "ObjectStopCommand NONE";
         "ObjectStartPriority 1";
         "ObjectStopPriority 0";
         "ObjectRunlevels default";
         "ObjectEnabled true" ].

(** A file whose ObjectDescription line has a separator and no value. *)
Definition empty_value_conf : string :=
  text [ "ObjectID svc"; "ObjectDescription "; "ObjectEnabled true" ].

Definition empty_value_conf_edited : string :=
  text [ "ObjectID svc"; "ObjectDescription Service"; "ObjectEnabled true" ].

(** A file whose ObjectStartCommand line has an ['='] and a blank between
    the keyword and the value, and what the edit of that value to "/bin/b"
    leaves of it. *)
Definition mixed_separator_conf : string :=
  text [ "ObjectID svc"; "ObjectStartCommand= /bin/a"; "ObjectEnabled true" ].

Definition mixed_separator_conf_edited : string :=
  text [ "ObjectID svc"; "ObjectStartCommand= /bin/"; "ObjectEnabled true" ].

Section EditSpec.
Context `{Platform}.





End EditSpec.

(** *** The renumbering, on the list of the priorities alone *)

(** The [TWorker] loop on priorities. *)
Definition shiftZ (i j : nat) (c : Z) (l : list Z) : list Z :=
  imap (fun k v =>
          if (c <=? v) && negb (k =? j)%nat && negb (k =? i)%nat
          then ulong_incr v else v) l.

(** One [if] of the body of the double loop, on priorities. *)
Definition stepZ (i j : nat) (l : list Z) : list Z :=
  match l !! i, l !! j with
  | Some a, Some b =>
      if negb (a =? 0) && negb (i =? j)%nat && (b =? a)
      then shiftZ i j (ulong_incr b) (<[j := ulong_incr b]> l)
      else l
  | _, _ => l
  end.

Fixpoint innerZ (n i j : nat) (l : list Z) : list Z :=
  match n with
  | O => l
  | S n' => innerZ n' i (S j) (stepZ i j l)
  end.

Fixpoint outerZ (n i : nat) (l : list Z) : list Z :=
  match n with
  | O => l
  | S n' => outerZ n' (S i) (innerZ (length l) i 0 l)
  end.

Definition renumberZ (l : list Z) : list Z := outerZ (length l) 0 l.

(** The priority at an index of the list. *)
Definition val (l : list Z) (k : nat) : Z := default 0 (l !! k).

(** No other index has the priority of index [j]. *)
Definition unique_at (l : list Z) (j : nat) : Prop :=
  forall b, (b < length l)%nat -> b <> j -> val l b <> val l j.

(** What a renumbering step keeps between the list before and the list
    after: the length, which priorities are 0, and which pairs differ. *)
Definition keeps (l l' : list Z) : Prop :=
  length l' = length l
  /\ (forall k, (k < length l)%nat -> val l k = 0 <-> val l' k = 0)
  /\ (forall a b, (a < length l)%nat -> (b < length l)%nat ->
        val l a <> val l b -> val l' a <> val l' b).

(** Priorities stay clear of the wrap-around: they are bounded by [B] plus
    the number of indices renumbered so far, each of which has become
    unique for good. *)
Definition no_wrap (B : Z) (l : list Z) : Prop :=
  exists S : list nat,
    NoDup S
    /\ (forall j, j ∈ S -> (j < length l)%nat /\ unique_at l j)
    /\ (forall k, (k < length l)%nat ->
          0 <= val l k <= B + Z.of_nat (length S)).

(** No two objects of the table have the same non-zero priority. *)
Definition unique_nonzero (get : ObjTable -> Z) (table : list ObjTable) : Prop :=
  forall i j a b,
    i <> j -> table !! i = Some a -> table !! j = Some b ->
    get a <> 0 -> get a <> get b.

(** *** Invariants of the parse *)

(** An action keeps a property of the state: if it returns, the property
    holds afterwards when it held before. *)
Definition preserves (P : State -> Prop) {A} (m : M A) : Prop :=
  forall st a st', m st = Some (a, st') -> P st -> P st'.

(** The priorities of an object are values of a [long] that is not
    negative. *)
Definition bounded_obj (o : ObjTable) : Prop :=
  0 <= ObjectStartPriority o <= LONG_MAX
  /\ 0 <= ObjectStopPriority o <= LONG_MAX.

(** The IDs and the priorities of the table are the given lists. *)
Definition fields_are (ids : list string) (starts stops : list Z)
    (st : State) : Prop :=
  ObjectID <$> ObjectTable st = ids
  /\ ObjectStartPriority <$> ObjectTable st = starts
  /\ ObjectStopPriority <$> ObjectTable st = stops.

(** The table that the parsing loop of [InitConfig] builds, before the
    renumbering. *)
Definition parsed_table `{Platform} (st : State) : list ObjTable :=
  match ConfFile st with
  | Some bytes =>
      match parse_lines (c_str bytes) st with
      | Some (_, st1) => ObjectTable st1
      | None => []
      end
  | None => []
  end.

(** A configuration in which three objects are given the start priority 2
    and two of them the stop priority 3; the fourth has no priority for either
    phase. *)
Definition same_priority_conf : string :=
  text [ "DefaultRunlevel default";
         "ObjectID udev";
         "ObjectDescription Device manager";
         "ObjectStartCommand /sbin/udevd";
         "ObjectStopCommand PID";
         "ObjectStartPriority 2";
         "ObjectStopPriority 3";
         "ObjectRunlevels default";
         "ObjectEnabled true";
         "ObjectID dbus";
         "ObjectDescription Message bus";
         "ObjectStartCommand /bin/dbus-daemon";
         "ObjectStopCommand PID";
         "ObjectStartPriority 2";
         "ObjectStopPriority 3";
         "ObjectRunlevels default";
         "ObjectEnabled true";
         "ObjectID net";
         "ObjectDescription Network";
         "ObjectStartCommand /sbin/ifup";
         "ObjectStopCommand /sbin/ifdown";
         "ObjectStartPriority 2";
         "ObjectStopPriority 4";
         "ObjectRunlevels default";
         "ObjectEnabled true";
         "ObjectID motd";
         "ObjectDescription Message of the day";
         "ObjectStartCommand /bin/motd";
         "ObjectStopCommand NONE";
         "ObjectStartPriority 0";
         "ObjectStopPriority 0";
         "ObjectRunlevels default";
         "ObjectEnabled true" ].

Definition renumbered_state : State :=
  state_of (@InitConfig linux (boot same_priority_conf "")).

(** A configuration in which two objects are given the start priority
    4294967295, which is above [INT_MAX], and the third is given none. *)
Definition wrapped_priority_conf : string :=
  text [ "DefaultRunlevel default";
         "ObjectID net";
         "ObjectDescription Network";
         "ObjectStartCommand /sbin/ifup";
         "ObjectStopCommand /sbin/ifdown";
         "ObjectStartPriority 4294967295";
         "ObjectStopPriority 1";
         "ObjectRunlevels default";
         "ObjectEnabled true";
         "ObjectID log";
         "ObjectDescription System log";
         "ObjectStartCommand /sbin/syslogd";
         "ObjectStopCommand PID";
         "ObjectStartPriority 4294967295";
         "ObjectStopPriority 2";
         "ObjectRunlevels default";
         "ObjectEnabled true";
         "ObjectID motd";
         "ObjectDescription Message of the day";
         "ObjectStartCommand /bin/motd";
         "ObjectStopCommand NONE";
         "ObjectStartPriority 0";
         "ObjectStopPriority 0";
         "ObjectRunlevels default";
         "ObjectEnabled true" ].

Definition wrapped_state : State :=
  state_of (@InitConfig linux (boot wrapped_priority_conf "")).

(** ** What [ScanConfigIntegrity] asks of an object *)

(** None of the six tests of the per-object loop fires. *)
Definition passes_scan (o : ObjTable) : Prop :=
  ObjectDescription o <> EmptyString
  /\ (ObjectStartCommand o <> EmptyString \/ ObjectStopCommand o <> EmptyString
      \/ StopMode (Opts o) <> STOP_COMMAND)
  /\ (HaltCmdOnly (Opts o) = true \/ ObjectStartCommand o <> EmptyString)
  /\ (ObjectRunlevels o <> [] \/ HaltCmdOnly (Opts o) = true)
  /\ Enabled o <> 2
  /\ (StopMode (Opts o) = STOP_PID -> HaltCmdOnly (Opts o) = false).

(** ** Invariants of the objects of the table *)

(** Every string of the object is shorter than the size that the writes of
    [config.c] to its field are bounded by. *)
Definition fits_buffers `{Platform} (o : ObjTable) : Prop :=
  (String.length (ObjectID o) < MAX_DESCRIPT_SIZE)%nat
  /\ (String.length (ObjectDescription o) < MAX_DESCRIPT_SIZE)%nat
  /\ (String.length (ObjectStartCommand o) < MAX_LINE_SIZE)%nat
  /\ (String.length (ObjectStopCommand o) < MAX_LINE_SIZE)%nat
  /\ (String.length (ObjectReloadCommand o) < MAX_LINE_SIZE)%nat
  /\ (String.length (ObjectPIDFile o) < MAX_LINE_SIZE)%nat
  /\ Forall (fun r => (String.length r < MAX_DESCRIPT_SIZE)%nat)
       (ObjectRunlevels o).

(** The halt-only objects are the ones marked as started, and none of them
    can be stopped. *)
Definition halt_marked (o : ObjTable) : Prop :=
  Started o = HaltCmdOnly (Opts o)
  /\ (HaltCmdOnly (Opts o) = true -> CanStop (Opts o) = false).

(** The functions that [ScanConfigIntegrity] repairs an object with. *)
Definition repairs `{Platform} (f : ObjTable -> ObjTable) : Prop :=
  f = set_ObjectDescription missing_description
  \/ f = set_Enabled 0
  \/ f = (fun W => W).

(** The boot with [broken_conf], the runlevel "default" being typed at the
    prompt. *)
Definition failed_boot : option (rStatus * State) :=
  @InitConfig linux (boot broken_conf (String.append "default" (String NL ""))).

(** An object with the NOWAIT option whose start command ends in a blank. *)
Definition nowait_object : ObjTable :=
  set_Opts (set_EmulNoWait true (Opts halt_object))
    (set_ObjectStartCommand "/bin/sync " halt_object).

(** A running system, loaded from [two_pairs_conf], whose file has since
    been replaced by [broken_conf]. *)
Definition stale_state : State :=
  set_ConfFile (Some broken_conf)
    (state_of (@InitConfig linux (boot two_pairs_conf ""))).

(** The attributes that belong to an object. *)
Definition object_attributes : list Attr :=
  [ A_ObjectEnabled; A_ObjectOptions; A_ObjectDescription;
    A_ObjectStartCommand; A_ObjectReloadCommand; A_ObjectStopCommand;
    A_ObjectStartPriority; A_ObjectStopPriority; A_ObjectRunlevels ].

(** What an [ObjectStopCommand] line with the value [v] makes of an
    object. *)
Definition stop_command_of `{Platform} (v : string) (o : ObjTable) : ObjTable :=
  if String.prefix "PIDFILE" v then
    upd_Opts (set_StopMode STOP_PIDFILE)
      (set_ObjectPIDFile (snprintf_s MAX_LINE_SIZE (skip_blanks (sdrop 7 v))) o)
  else if String.prefix "PID" v then upd_Opts (set_StopMode STOP_PID) o
  else if String.prefix "NONE" v then upd_Opts (set_StopMode STOP_NONE) o
  else set_ObjectStopCommand v (upd_Opts (set_StopMode STOP_COMMAND) o).

(** The parsing loop of [InitConfig] from the first byte of a line, with the
    locals as they are there; [parse_lines] is the loop from the first line
    of the file. *)
Definition parse_from `{Platform} (Worker : string) (lc : Locals) : M Locals :=
  lc' ← line_body Worker lc; rest_of_lines Worker lc'.

(** A state in the middle of a parse: one object is open, and the alias
    "Services" is bound to 3. *)
Definition services_state : State :=
  set_PriorityAliasTree [("Services", 3)]
    (set_ObjectTable [@new_object linux "svc"] (boot "" "")).

(** What the per-object loop of [ScanConfigIntegrity] makes of an object:
    the repair of each test that fires, in the order of the tests. *)
Definition repair_of `{Platform} (W : ObjTable) : ObjTable :=
  let W1 := if is_empty (ObjectDescription W)
            then set_ObjectDescription missing_description W else W in
  let W2 := if negb (HaltCmdOnly (Opts W1)) && is_empty (ObjectStartCommand W1)
            then set_Enabled 0 W1 else W1 in
  if bool_decide (StopMode (Opts W2) = STOP_PID) && HaltCmdOnly (Opts W2)
  then set_Enabled 0 W2 else W2.

(** Two states that differ in the object table and the console at most. *)
Definition same_but_table_console (st st' : State) : Prop :=
  st' = set_Console (Console st') (set_ObjectTable (ObjectTable st') st).

(** A state whose one object has everything but a description. *)
Definition undescribed_state : State :=
  set_CurRunlevel "default"
    (set_ObjectTable
       [ set_Enabled 1
           (set_ObjectRunlevels ["default"]
              (set_ObjectStartCommand "/bin/true" (@new_object linux "svc"))) ]
       (boot "" "")).

(** * Properties *)

(** ** C strings *)

Lemma prefix_app (k rest : string) : String.prefix k (k +:+ rest) = true.
Proof.
  induction k as [|c k IH]; simpl.
  - now destruct rest.
  - destruct (ascii_dec c c); [assumption | congruence].
Qed.

Lemma prefix_inv (k s : string) :
  String.prefix k s = true -> exists rest, s = k +:+ rest.
Proof.
  revert s; induction k as [|c k IH]; intros s Hp.
  - now exists s.
  - destruct s as [|d s]; simpl in Hp; [discriminate|].
    destruct (ascii_dec c d) as [->|]; [|discriminate].
    destruct (IH _ Hp) as [rest ->]. now exists rest.
Qed.

Lemma strcmp_eq_true (a b : string) : strcmp_eq a b = true <-> a = b.
Proof. apply String.eqb_eq. Qed.

Lemma strcmp_eq_false (a b : string) : strcmp_eq a b = false <-> a <> b.
Proof. apply String.eqb_neq. Qed.

(** ** Runlevel membership and inheritance *)

Lemma RLInheritance_Check_spec tree a b :
  RLInheritance_Check tree a b = true <-> (a, b) ∈ tree.
Proof.
  induction tree as [|[x y] tree IH]; simpl.
  - split; [discriminate | intros Hin; inversion Hin].
  - rewrite elem_of_cons. unfold strcmp_eq.
    destruct (String.eqb_spec a x) as [->|Ha];
      [destruct (String.eqb_spec b y) as [->|Hb]|]; simpl.
    + split; auto.
    + rewrite IH. split; [auto | intros [Heq|Hin]; [congruence | assumption]].
    + rewrite IH. split; [auto | intros [Heq|Hin]; [congruence | assumption]].
Qed.

Lemma inherits_any_spec tree R rls :
  inherits_any tree R rls = true <-> exists r, r ∈ rls /\ (R, r) ∈ tree.
Proof.
  induction rls as [|x rls IH]; simpl.
  - split; [discriminate | intros (r & Hin & _); inversion Hin].
  - destruct (RLInheritance_Check tree R x) eqn:E.
    + apply RLInheritance_Check_spec in E.
      split; [intros _; exists x; split; [left | assumption] | reflexivity].
    + rewrite IH. split.
      * intros (r & Hin & Ht). exists r. split; [now right | assumption].
      * intros (r & Hin & Ht). apply elem_of_cons in Hin as [->|Hin].
        -- apply RLInheritance_Check_spec in Ht. congruence.
        -- now exists r.
Qed.

Lemma has_runlevel_spec R rls : has_runlevel R rls = true <-> R ∈ rls.
Proof.
  induction rls as [|x rls IH]; simpl.
  - split; [discriminate | intros Hin; inversion Hin].
  - rewrite elem_of_cons. destruct (strcmp_eq x R) eqn:E.
    + apply strcmp_eq_true in E. subst. tauto.
    + apply strcmp_eq_false in E. rewrite IH.
      split; [tauto | intros [->|]; [congruence | assumption]].
Qed.

(** C5.  Counting inheritance, [ObjRL_CheckRunlevel] reports a match (a
    non-zero answer) exactly when the runlevel is in the runlevel list of
    the object or some runlevel of that list is paired with it, as
    (inheriter, inherited), in the stored relation.  The relation is read as
    stored and not closed: with the chain (R, S), (S, r) and an object that
    lists only r, R does not match. *)
Theorem ObjRL_CheckRunlevel_counts_one_step :
  (forall tree R O,
     ObjRL_CheckRunlevel tree R O true <> 0 <->
     (R ∈ ObjectRunlevels O
      \/ exists r, r ∈ ObjectRunlevels O /\ (R, r) ∈ tree))
  /\ (forall R S r O,
        ObjectRunlevels O = [r] -> R <> r -> R <> S -> S <> r ->
        ObjRL_CheckRunlevel [(R, S); (S, r)] R O true = 0
        /\ ObjRL_CheckRunlevel [(R, S); (S, r)] S O true <> 0).
Proof.
  assert (Hiff : forall tree R O,
     ObjRL_CheckRunlevel tree R O true <> 0 <->
     (R ∈ ObjectRunlevels O
      \/ exists r, r ∈ ObjectRunlevels O /\ (R, r) ∈ tree)).
  { intros tree R O. unfold ObjRL_CheckRunlevel.
    destruct (ObjectRunlevels O) as [|x rls] eqn:Erl.
    - split; [congruence|].
      intros [Hin | (r & Hin & _)]; inversion Hin.
    - rewrite <- has_runlevel_spec, <- inherits_any_spec.
      generalize (has_runlevel R (x :: rls)) (inherits_any tree R (x :: rls)).
      intros [] []; simpl; split; auto; try discriminate;
        intros [?|?]; congruence. }
  split; [exact Hiff|].
  intros R S r O Hrl HRr HRS HSr. split.
  - destruct (Z.eq_dec (ObjRL_CheckRunlevel [(R, S); (S, r)] R O true) 0)
      as [|Hne]; [assumption|].
    apply Hiff in Hne. rewrite Hrl in Hne. exfalso.
    destruct Hne as [Hin | (r' & Hin & Ht)].
    + apply list_elem_of_singleton in Hin. congruence.
    + apply list_elem_of_singleton in Hin. subst r'.
      apply elem_of_cons in Ht as [Ht|Ht]; [congruence|].
      apply list_elem_of_singleton in Ht. congruence.
  - apply Hiff. right. exists r. rewrite Hrl. split; [left|].
    right. left.
Qed.

(** A witness of the chain: "rescue" inherits "default", "default" inherits
    "base", and an object of "base" alone is not matched by "rescue". *)
Lemma ObjRL_CheckRunlevel_counts_one_step_witness :
  ObjRL_CheckRunlevel [("rescue", "default"); ("default", "base")] "rescue"
    (set_ObjectRunlevels ["base"] halt_object) true = 0
  /\ ObjRL_CheckRunlevel [("rescue", "default"); ("default", "base")] "default"
       (set_ObjectRunlevels ["base"] halt_object) true <> 0.
Proof.
  apply (proj2 ObjRL_CheckRunlevel_counts_one_step
           "rescue" "default" "base" (set_ObjectRunlevels ["base"] halt_object));
    [reflexivity | discriminate | discriminate | discriminate].
Defined.

(** ** [GetObjectByPriority] *)

Lemma priority_match_candidate st rl w p o :
  priority_match (RunlevelInheritance st) (Some rl) w p o = true
  <-> priority_candidate st rl w p o.
Proof.
  unfold priority_match, priority_candidate, phase_priority.
  rewrite !andb_true_iff, orb_true_iff, !negb_true_iff, Z.eqb_eq, Z.eqb_neq.
  destruct w, (HaltCmdOnly (Opts o)); intuition congruence.
Qed.

Lemma by_priority_from_first b tree table rl w p i :
  by_priority_from b tree table rl w p = Some i <->
  exists k o, i = (b + k)%nat /\ table !! k = Some o
    /\ priority_match tree rl w p o = true
    /\ forall j o', (j < k)%nat -> table !! j = Some o' ->
         priority_match tree rl w p o' = false.
Proof.
  revert b; induction table as [|x table IH]; intros b; simpl.
  - split; [discriminate | intros (k & o & _ & Hk & _); discriminate].
  - destruct (priority_match tree rl w p x) eqn:Ex.
    + split.
      * intros [= <-]. exists 0%nat, x. repeat split; auto with lia.
      * intros (k & o & -> & Hk & Ho & Hfirst).
        destruct k as [|k]; [f_equal; lia|].
        specialize (Hfirst 0%nat x ltac:(lia) eq_refl). congruence.
    + rewrite IH. split.
      * intros (k & o & -> & Hk & Ho & Hfirst).
        exists (S k), o. repeat split; auto with lia.
        intros [|j] o' Hj Hl; simpl in Hl; [congruence|].
        apply (Hfirst j); [lia | assumption].
      * intros (k & o & -> & Hk & Ho & Hfirst).
        destruct k as [|k]; simpl in Hk; [congruence|].
        exists k, o. repeat split; auto with lia.
        intros j o' Hj Hl. apply (Hfirst (S j)); [lia | assumption].
Qed.

(** C3, as the code has it.  With a runlevel given, [GetObjectByPriority]
    returns the first object of the table whose priority for the phase is the
    one asked for and that the runlevel matches, counting inheritance, a
    halt-only object being eligible in the start phase only: it is never
    returned for the stop phase. *)
Theorem GetObjectByPriority_first_candidate st rl w p i :
  GetObjectByPriority st (Some rl) w p = Some i <->
  (exists o, ObjectTable st !! i = Some o /\ priority_candidate st rl w p o)
  /\ (forall j o', (j < i)%nat -> ObjectTable st !! j = Some o' ->
        ~ priority_candidate st rl w p o').
Proof.
  unfold GetObjectByPriority. rewrite by_priority_from_first. split.
  - intros (k & o & -> & Hk & Ho & Hfirst). simpl. split.
    + exists o. split; [assumption|]. now apply priority_match_candidate.
    + intros j o' Hj Hl Hc. apply priority_match_candidate in Hc.
      rewrite (Hfirst j o' Hj Hl) in Hc. discriminate.
  - intros [(o & Hi & Hc) Hfirst]. exists i, o. repeat split; auto.
    + now apply priority_match_candidate.
    + intros j o' Hj Hl. apply not_true_is_false. intros Hm.
      apply (Hfirst j o' Hj Hl). now apply priority_match_candidate.
Qed.

(** C3, as the specification words it, fails: in the start phase the
    halt-only object of [halt_state] is returned for its runlevel. *)
Lemma GetObjectByPriority_halt_only_in_start_phase :
  ~ spec_GetObjectByPriority halt_state "default" true 1.
Proof.
  intros Hspec. destruct (Hspec 0%nat eq_refl) as (o & Ho & _ & _ & Hhalt).
  injection Ho as <-. specialize (Hhalt eq_refl). discriminate.
Qed.

(** ** The attribute ladder *)

Lemma keyword_inj a b : keyword a = keyword b -> a = b.
Proof. destruct a, b; simpl; intros Heq; try reflexivity; discriminate. Qed.

(** No keyword is the beginning of another: whatever follows a keyword, the
    rung of that keyword is the first that fits. *)
Lemma dispatch_keyword a rest : dispatch (keyword a +:+ rest) = Some a.
Proof. destruct a, rest; reflexivity. Qed.

(** A rung takes the text the ladder reads exactly when the text begins
    with the bytes of its keyword; what follows the keyword is not looked
    at. *)
Lemma dispatch_is_prefix_match Worker a :
  dispatch Worker = Some a <-> String.prefix (keyword a) Worker = true.
Proof.
  split.
  - intros Hd. unfold dispatch in Hd.
    apply List.find_some in Hd as [_ Hp]. exact Hp.
  - intros Hp. apply prefix_inv in Hp as [rest ->]. apply dispatch_keyword.
Qed.

(** C4, as the specification words it, fails: the first word "ObjectIDs" is
    longer than the keyword and the line is taken as ObjectID all the
    same. *)
Lemma dispatch_longer_identifier :
  ~ spec_full_token_match "ObjectIDs svc".
Proof.
  intros Hspec. specialize (Hspec A_ObjectID eq_refl). discriminate.
Qed.

Lemma skip_blanks_app b s : all_blank b = true -> skip_blanks (b +:+ s) = skip_blanks s.
Proof.
  induction b as [|c b IH]; simpl; [reflexivity|].
  intros [-> Hb]%andb_true_iff. auto.
Qed.

Lemma dispatch_nil : dispatch EmptyString = None.
Proof. reflexivity. Qed.

Section KeywordFacts.
Context `{Platform}.

Lemma live_line_input W' W lc a :
  live_input W' = Some W -> dispatch W = Some a ->
  live_line W' lc = handle a W lc.
Proof.
  intros Hin Hd. destruct W' as [|c r]; cbn [live_input live_line] in *.
  - injection Hin as <-. rewrite dispatch_nil in Hd. discriminate.
  - destruct (Ascii.eqb c NL); [discriminate|].
    destruct (Ascii.eqb c "#"); [discriminate|].
    injection Hin as <-. now rewrite Hd.
Qed.

Lemma live_line_unrecognised W' lc :
  match live_input W' with Some W => dispatch W | None => None end = None ->
  live_line W' lc = mret lc
  \/ live_line W' lc = (emit (EvUnidentified (LineNum lc));; mret lc).
Proof.
  intros Hd. destruct W' as [|c r]; cbn [live_input live_line] in *.
  - now right.
  - destruct (Ascii.eqb c NL); [now left|].
    destruct (Ascii.eqb c "#"); [now left|]. rewrite Hd. now right.
Qed.

Lemma keyword_live a rest :
  live_input (keyword a +:+ rest) = Some (keyword a +:+ rest)
  /\ strncmp_eq (keyword a +:+ rest) "<!<" = false
  /\ strncmp_eq (keyword a +:+ rest) ">!>" = false
  /\ skip_blanks (keyword a +:+ rest) = keyword a +:+ rest.
Proof. destruct a; repeat split; reflexivity. Qed.

(** C4, as the code has it.  The turn of the loop for a line recognises a
    keyword only when it gets to the ladder and the text that the ladder
    reads begins with the bytes of the keyword; that text is the line from
    its first byte that is not a blank or, on a line that closes a block
    comment, what follows the terminator and the blanks behind it.  The turn
    is then the rung of that keyword.  A turn that recognises no keyword
    sets no attribute: it prints one warning at most, and of the locals it
    changes the block-comment flag at most.  The test is for the
    first bytes, not for the first word: outside a block comment a line that
    begins, after its blanks, with a keyword is taken by the rung of that
    keyword whatever follows it, also when the first word is longer than the
    keyword. *)
Theorem line_body_keyword_prefix Worker lc :
  (forall a, recognised Worker lc = Some a ->
     exists W, ladder_input Worker lc = Some W
       /\ String.prefix (keyword a) W = true
       /\ line_body Worker lc
          = handle a W (mkLocals (CurObj lc) (LineNum lc) false))
  /\ (recognised Worker lc = None ->
      exists lc', CurObj lc' = CurObj lc /\ LineNum lc' = LineNum lc
        /\ (line_body Worker lc = mret lc'
            \/ exists e, line_body Worker lc = (emit e;; mret lc')))
  /\ (forall a b rest,
        LongComment lc = false -> all_blank b = true ->
        recognised (b +:+ keyword a +:+ rest) lc = Some a
        /\ line_body (b +:+ keyword a +:+ rest) lc
           = handle a (keyword a +:+ rest) lc).
Proof.
  split; [|split].
  - intros a Hr. unfold recognised in Hr.
    destruct (ladder_input Worker lc) as [W|] eqn:HW; [|discriminate].
    exists W. split; [reflexivity|].
    split; [now apply dispatch_is_prefix_match|].
    unfold ladder_input in HW. unfold line_body.
    destruct (strncmp_eq (skip_blanks Worker) "<!<").
    + destruct (LongComment lc); [|discriminate]. cbn [negb] in *.
      now apply live_line_input.
    + destruct lc as [cur line [|]]; [discriminate|]. cbn [LongComment] in *.
      destruct (strncmp_eq (skip_blanks Worker) ">!>"); [discriminate|].
      now apply live_line_input.
  - intros Hr. unfold recognised, ladder_input in Hr. unfold line_body.
    destruct (strncmp_eq (skip_blanks Worker) "<!<").
    + destruct (LongComment lc); cbn [negb] in *.
      * exists (mkLocals (CurObj lc) (LineNum lc) false).
        split; [reflexivity|]. split; [reflexivity|].
        destruct (live_line_unrecognised _
                    (mkLocals (CurObj lc) (LineNum lc) false) Hr) as [->| ->];
          [now left | right; now eexists].
      * exists lc. split; [reflexivity|]. split; [reflexivity|].
        right. now eexists.
    + destruct (LongComment lc).
      * exists lc. split; [reflexivity|]. split; [reflexivity|]. now left.
      * destruct (strncmp_eq (skip_blanks Worker) ">!>").
        -- exists (mkLocals (CurObj lc) (LineNum lc) true).
           split; [reflexivity|]. split; [reflexivity|]. now left.
        -- exists lc. split; [reflexivity|]. split; [reflexivity|].
           destruct (live_line_unrecognised _ lc Hr) as [->| ->];
             [now left | right; now eexists].
  - intros a b rest Hlc Hb.
    destruct (keyword_live a rest) as (Hlive & Hterm & Hopen & Hskip).
    assert (Hsk : skip_blanks (b +:+ keyword a +:+ rest) = keyword a +:+ rest)
      by now rewrite skip_blanks_app.
    assert (Hin : ladder_input (b +:+ keyword a +:+ rest) lc
                  = Some (keyword a +:+ rest)).
    { unfold ladder_input. now rewrite Hsk, Hterm, Hlc, Hopen. }
    split.
    + unfold recognised. rewrite Hin. apply dispatch_keyword.
    + unfold line_body. rewrite Hsk, Hterm, Hlc, Hopen.
      apply live_line_input; [exact Hlive | apply dispatch_keyword].
Qed.

End KeywordFacts.

(** A line that closes a block comment is read behind the terminator: the
    keyword is recognised there, not at the first byte of the line that is
    not a blank; the same line outside a block comment is a stray
    terminator, and inside one a line that begins with the keyword is
    passed over. *)
Example terminator_line_recognised :
  recognised "  <!<  ObjectID svc" (mkLocals None 3 true) = Some A_ObjectID
  /\ recognised "  <!<  ObjectID svc" (mkLocals None 3 false) = None
  /\ recognised "ObjectID svc" (mkLocals None 3 true) = None.
Proof. repeat split; reflexivity. Qed.

(** A witness: the line "ObjectIDs svc" outside a block comment is taken
    by the rung of ObjectID. *)
Lemma line_body_keyword_prefix_witness :
  recognised "ObjectIDs svc" (mkLocals None 1 false) = Some A_ObjectID
  /\ @line_body linux "ObjectIDs svc" (mkLocals None 1 false)
     = @handle linux A_ObjectID "ObjectIDs svc" (mkLocals None 1 false).
Proof.
  exact (proj2 (proj2 (@line_body_keyword_prefix linux EmptyString
                         (mkLocals None 1 false)))
           A_ObjectID EmptyString "s svc" eq_refl eq_refl).
Defined.

(** ** Scanning lemmas *)

(** A string without stop byte. *)
Definition free_of (stop : ascii -> bool) (s : string) : Prop :=
  from stop s = EmptyString.

Lemma append_nil_r (s : string) : s +:+ "" = s.
Proof. induction s as [|c s IH]; simpl; [reflexivity | now rewrite IH]. Qed.

Lemma append_assoc (a b c : string) : (a +:+ b) +:+ c = a +:+ b +:+ c.
Proof. induction a as [|x a IH]; simpl; [reflexivity | now rewrite IH]. Qed.

Lemma length_append (a b : string) :
  String.length (a +:+ b) = (String.length a + String.length b)%nat.
Proof. induction a as [|x a IH]; simpl; [reflexivity | now rewrite IH]. Qed.

Lemma free_of_cons stop c s :
  free_of stop (String c s) <-> stop c = false /\ free_of stop s.
Proof.
  unfold free_of; simpl. destruct (stop c); split;
    try discriminate; intuition congruence.
Qed.

Lemma from_app stop k s : free_of stop k -> from stop (k +:+ s) = from stop s.
Proof.
  induction k as [|c k IH]; [reflexivity|].
  intros [Hc Hk]%free_of_cons. simpl. rewrite Hc. auto.
Qed.

Lemma until_app stop k s :
  free_of stop k -> until stop (k +:+ s) = k +:+ until stop s.
Proof.
  induction k as [|c k IH]; [reflexivity|].
  intros [Hc Hk]%free_of_cons. simpl. rewrite Hc. now rewrite IH.
Qed.

Lemma until_free stop k : free_of stop k -> until stop k = k.
Proof.
  intros Hk. rewrite <- (append_nil_r k) at 1.
  rewrite until_app by assumption. apply append_nil_r.
Qed.

Lemma stake_all n s : (String.length s <= n)%nat -> stake n s = s.
Proof.
  revert n; induction s as [|c s IH]; intros [|n] Hn; simpl in *;
    try reflexivity; try lia.
  rewrite IH; [reflexivity | lia].
Qed.

Lemma stake_app n a b : n = String.length a -> stake n (a +:+ b) = a.
Proof.
  intros ->. induction a as [|c a IH]; simpl; [now destruct b | now rewrite IH].
Qed.

Lemma sdrop_app n a b : n = String.length a -> sdrop n (a +:+ b) = b.
Proof. intros ->. induction a as [|c a IH]; simpl; [now destruct b | exact IH]. Qed.

Lemma free_of_weaken (stop stop' : ascii -> bool) s :
  (forall c, stop' c = true -> stop c = true) ->
  free_of stop s -> free_of stop' s.
Proof.
  intros Hsub. induction s as [|c s IH]; [reflexivity|].
  intros [Hc Hs]%free_of_cons. apply free_of_cons. split; [|auto].
  destruct (stop' c) eqn:E; [|reflexivity]. apply Hsub in E. congruence.
Qed.

(** A word: not empty, neither blank nor newline inside. *)
Definition is_word (t : string) : Prop :=
  t <> EmptyString /\ free_of stop_word t.

Lemma is_word_no_nl t : is_word t -> free_of stop_nl t.
Proof.
  intros [_ Hw]. revert Hw. apply free_of_weaken.
  intros c Hc. unfold stop_word, stop_nl in *. rewrite Hc. apply orb_true_r.
Qed.

Lemma is_word_no_blank t : is_word t -> free_of stop_blank t.
Proof.
  intros [_ Hw]. revert Hw. apply free_of_weaken.
  intros c Hc. unfold stop_word, stop_blank in *. now rewrite Hc.
Qed.

Lemma skip_blanks_word t s : is_word t -> skip_blanks (t +:+ s) = t +:+ s.
Proof.
  intros [Hne Hw]. destruct t as [|c t]; [congruence|].
  apply free_of_cons in Hw as [Hc _]. simpl.
  unfold stop_word in Hc. apply orb_false_elim in Hc as [-> _]. reflexivity.
Qed.

Lemma at_eol_word t s : is_word t -> at_eol (t +:+ s) = false.
Proof.
  intros [Hne Hw]. destruct t as [|c t]; [congruence|].
  apply free_of_cons in Hw as [Hc _]. simpl.
  unfold stop_word in Hc. now apply orb_false_elim in Hc as [_ ->].
Qed.

(** The keywords are words without ['=']. *)
Lemma keyword_free a : free_of stop_key (keyword a).
Proof. destruct a; reflexivity. Qed.

(** ** The monad *)

Lemma bind_eq {A B} (m : M A) (f : A -> M B) st a st' :
  m st = Some (a, st') -> (m ≫= f) st = f a st'.
Proof. intros Hm. unfold mbind, M_bind. now rewrite Hm. Qed.

Lemma bind_inv {A B} (m : M A) (f : A -> M B) st r :
  (m ≫= f) st = Some r ->
  exists a st', m st = Some (a, st') /\ f a st' = Some r.
Proof.
  unfold mbind, M_bind. destruct (m st) as [[a st']|]; [|discriminate].
  intros Hf. now exists a, st'.
Qed.

(** ** The loops over lines and arguments *)

Lemma from_length stop s : (String.length (from stop s) <= String.length s)%nat.
Proof.
  induction s as [|c s IH]; simpl; [lia|]. destruct (stop c); simpl; lia.
Qed.

Lemma skip_blanks_length s :
  (String.length (skip_blanks s) <= String.length s)%nat.
Proof.
  induction s as [|c s IH]; simpl; [lia|]. destruct (is_blank c); simpl; lia.
Qed.

(** [WhitespaceArg] moves forward when it finds an argument. *)
Lemma WhitespaceArg_shorter s next :
  WhitespaceArg s = Some next -> (String.length next < String.length s)%nat.
Proof.
  destruct s as [|c s]; [discriminate|]. unfold WhitespaceArg. cbn [from].
  destruct (stop_word c) eqn:Hc.
  - cbn [at_eol]. destruct (Ascii.eqb c NL) eqn:Hnl; [discriminate|].
    unfold stop_word in Hc. rewrite Hnl, orb_false_r in Hc.
    cbn [skip_blanks]. rewrite Hc.
    destruct (at_eol _); [discriminate|]. intros [= <-].
    pose proof (skip_blanks_length s). simpl. lia.
  - destruct (at_eol _); [discriminate|].
    destruct (at_eol _); [discriminate|]. intros [= <-].
    pose proof (skip_blanks_length (from stop_word s)).
    pose proof (from_length stop_word s). simpl. lia.
Qed.

(** The fuel of [args_loop]: when the body does not move [TWorker] backwards,
    any fuel above the length of the line gives the same run, so the fuel the
    parser passes is never used up. *)
Lemma args_loop_fuel body :
  (forall s st s' st', body s st = Some (Some s', st') ->
     (String.length s' <= String.length s)%nat) ->
  forall fuel fuel' s st,
    (String.length s < fuel)%nat -> (String.length s < fuel')%nat ->
    args_loop fuel body s st = args_loop fuel' body s st.
Proof.
  intros Hbody. induction fuel as [|fuel IH]; intros fuel' s st Hf Hf';
    [lia|]. destruct fuel' as [|fuel']; [lia|]. cbn [args_loop].
  unfold mbind, M_bind.
  destruct (body s st) as [[[s'|] st']|] eqn:Hb; try reflexivity.
  destruct (WhitespaceArg s') as [next|] eqn:Hw; [|reflexivity].
  apply WhitespaceArg_shorter in Hw. apply Hbody in Hb.
  apply IH; lia.
Qed.

(** [rest_of_lines] is the [while] of [InitConfig]: [NextLine] gives the
    line the next turn works on, and NULL ends the loop. *)
Lemma rest_of_lines_NextLine `{Platform} Worker lc :
  rest_of_lines Worker lc
  = match NextLine Worker with
    | Some next => lc' ← line_body next (next_line lc); rest_of_lines next lc'
    | None => mret (next_line lc)
    end.
Proof.
  induction Worker as [|c Worker IH]; [reflexivity|].
  cbn [rest_of_lines NextLine].
  destruct (Ascii.eqb c NL); [now destruct Worker | exact IH].
Qed.

Section ParserFacts.
Context `{Platform}.

(** [GetLineDelim] on a line made of a key, one space and a value that
    begins with a word byte: the value comes back whole. *)
Lemma GetLineDelim_value key value rest st :
  free_of stop_key key ->
  skip_blanks value = value ->
  free_of stop_nl value ->
  (String.length value < MAX_LINE_SIZE)%nat ->
  GetLineDelim (key +:+ " " +:+ value +:+ String NL rest) st
  = Some (Some value, st).
Proof.
  intros Hkey Hval Hnl Hlen. unfold GetLineDelim.
  rewrite from_app by assumption.
  set (tail := value +:+ String NL rest).
  change (" " +:+ tail) with (String " "%char tail).
  change (from stop_key (String " "%char tail)) with (String " "%char tail).
  change (at_eol (String " "%char tail)) with false.
  change (at_equals (String " "%char tail)) with false.
  change (skip_blanks (String " "%char tail)) with (skip_blanks tail).
  cbv iota.
  assert (Hskip : skip_blanks tail = tail).
  { subst tail. destruct value as [|c value]; [reflexivity|].
    simpl in *. destruct (is_blank c); [|reflexivity].
    exfalso. clear -Hval.
    assert (Hle : forall s,
               (String.length (skip_blanks s) <= String.length s)%nat).
    { induction s as [|d s IH]; simpl; [lia|].
      destruct (is_blank d); simpl; lia. }
    specialize (Hle value). rewrite Hval in Hle. simpl in Hle. lia. }
  rewrite Hskip. subst tail. unfold line_of.
  rewrite until_app by assumption.
  change (until stop_nl (String NL rest)) with EmptyString.
  rewrite append_nil_r, stake_all by lia. reflexivity.
Qed.

(** A line that begins with a keyword outside a block comment goes to the
    rung of that keyword. *)
Lemma line_body_keyword a rest lc :
  LongComment lc = false ->
  line_body (keyword a +:+ rest) lc = handle a (keyword a +:+ rest) lc.
Proof.
  intros Hlc. unfold line_body.
  assert (Hskip : skip_blanks (keyword a +:+ rest) = keyword a +:+ rest)
    by (destruct a; reflexivity).
  rewrite Hskip, Hlc.
  assert (Hc1 : strncmp_eq (keyword a +:+ rest) "<!<" = false)
    by (destruct a; reflexivity).
  assert (Hc2 : strncmp_eq (keyword a +:+ rest) ">!>" = false)
    by (destruct a; reflexivity).
  rewrite Hc1, Hc2. unfold live_line. rewrite dispatch_keyword.
  destruct a; reflexivity.
Qed.

End ParserFacts.

(** ** Priority aliases *)

Lemma PriorityAlias_Lookup_unknown tree A :
  alias_known tree A = false -> PriorityAlias_Lookup tree A = 0.
Proof.
  induction tree as [|[a t] tree IH]; simpl; [reflexivity|].
  destruct (strcmp_eq a A); [discriminate | exact IH].
Qed.

Lemma PriorityAlias_Lookup_added tree A Target :
  alias_known tree A = false ->
  PriorityAlias_Lookup (PriorityAlias_Add A Target tree) A = Target.
Proof.
  intros Hk. unfold PriorityAlias_Add. rewrite Hk.
  induction tree as [|[a t] tree IH]; simpl in *.
  - unfold strcmp_eq. now rewrite String.eqb_refl.
  - destruct (strcmp_eq a A); [discriminate | auto].
Qed.

Section AliasFacts.
Context `{Platform}.

Lemma word_value A : is_word A -> skip_blanks A = A.
Proof.
  intros HA. rewrite <- (append_nil_r A). now apply skip_blanks_word.
Qed.

(** A priority line whose value is a word that is no number and looks up
    as 0: a bad-value warning, and nothing else changes. *)
Lemma do_priority_zero_lookup attr set A rest lc i st :
  free_of stop_key attr ->
  is_word A -> AllNumeric A = false ->
  (String.length A < MAX_LINE_SIZE)%nat ->
  CurObj lc = Some i ->
  PriorityAlias_Lookup (PriorityAliasTree st) A = 0 ->
  do_priority attr set (attr +:+ " " +:+ A +:+ String NL rest) lc st
  = Some (tt, set_Console
                (EvConfigProblem CONFIG_EBADVAL attr (Some A) (LineNum lc)
                 :: Console st) st).
Proof.
  intros Hattr HA Hnum Hlen Hcur Hlook.
  unfold do_priority, object_attr. rewrite Hcur.
  erewrite bind_eq
    by (apply GetLineDelim_value;
        [assumption | now apply word_value | now apply is_word_no_nl
        | assumption]).
  cbv beta iota. rewrite Hnum.
  unfold mbind, M_bind, gets, ConfigProblem, emit, modify. cbn.
  rewrite Hlook. reflexivity.
Qed.

(** The line [DefinePriority A 0] before any object. *)
Lemma do_DefinePriority_zero A rest lc st :
  is_word A ->
  (String.length A + 2 < MAX_LINE_SIZE)%nat ->
  (String.length A < MAX_DESCRIPT_SIZE)%nat ->
  CurObj lc = None ->
  do_DefinePriority
    ("DefinePriority" +:+ " " +:+ (A +:+ " 0") +:+ String NL rest) lc st
  = Some (tt, set_PriorityAliasTree
                (PriorityAlias_Add A 0 (PriorityAliasTree st)) st).
Proof.
  intros HA Hlen Hlen' Hcur. unfold do_DefinePriority. rewrite Hcur.
  assert (Hval : GetLineDelim
            ("DefinePriority" +:+ " " +:+ (A +:+ " 0") +:+ String NL rest) st
          = Some (Some (A +:+ " 0"), st)).
  { apply GetLineDelim_value.
    - reflexivity.
    - now apply skip_blanks_word.
    - unfold free_of. rewrite from_app by now apply is_word_no_nl. reflexivity.
    - rewrite length_append. simpl. lia. }
  rewrite (bind_eq _ _ _ _ _ Hval). cbv beta iota zeta.
  assert (Hid : ident_len (A +:+ " 0") = String.length A).
  { unfold ident_len. rewrite until_app by now apply is_word_no_blank.
    change (until stop_blank " 0") with "". rewrite append_nil_r. lia. }
  rewrite Hid, stake_app, sdrop_app by reflexivity.
  reflexivity.
Qed.

(** C10.  [DefinePriority A 0] before the first ObjectID binds A to 0, and
    [PriorityAlias_Lookup] answers 0 for A then as it does while A is not
    bound.  An [ObjectStartPriority] or [ObjectStopPriority] line whose value
    is A is handled through that answer alone: in either case a bad-value
    warning is issued and the state is otherwise left as it was, so the
    priority of the object stays what it was (0 by default). *)
Theorem zero_alias_is_undefined_alias (A : string) :
  is_word A -> AllNumeric A = false ->
  (String.length A + 2 < MAX_LINE_SIZE)%nat ->
  (String.length A < MAX_DESCRIPT_SIZE)%nat ->
  (forall st lc rest,
     CurObj lc = None -> LongComment lc = false ->
     alias_known (PriorityAliasTree st) A = false ->
     PriorityAlias_Lookup (PriorityAliasTree st) A = 0
     /\ line_body
          ("DefinePriority" +:+ " " +:+ (A +:+ " 0") +:+ String NL rest) lc st
        = Some (lc, set_PriorityAliasTree (PriorityAliasTree st ++ [(A, 0)]) st)
     /\ PriorityAlias_Lookup (PriorityAliasTree st ++ [(A, 0)]) A = 0)
  /\ (forall a st lc i rest,
        a = A_ObjectStartPriority \/ a = A_ObjectStopPriority ->
        CurObj lc = Some i -> LongComment lc = false ->
        PriorityAlias_Lookup (PriorityAliasTree st) A = 0 ->
        line_body (keyword a +:+ " " +:+ A +:+ String NL rest) lc st
        = Some (lc, set_Console
                      (EvConfigProblem CONFIG_EBADVAL (keyword a) (Some A)
                         (LineNum lc) :: Console st) st)).
Proof.
  intros HA Hnum Hlen Hlen'. split.
  - intros st lc rest Hcur Hlc Hk. split; [|split].
    + now apply PriorityAlias_Lookup_unknown.
    + change "DefinePriority" with (keyword A_DefinePriority).
      rewrite line_body_keyword by assumption.
      cbn [handle keyword].
      erewrite bind_eq by (now apply do_DefinePriority_zero).
      unfold PriorityAlias_Add. rewrite Hk. reflexivity.
    + pose proof (PriorityAlias_Lookup_added _ _ 0 Hk) as Hl.
      unfold PriorityAlias_Add in Hl. now rewrite Hk in Hl.
  - intros a st lc i rest Ha Hcur Hlc Hlook.
    rewrite line_body_keyword by assumption.
    destruct Ha as [-> | ->]; cbn [handle];
      (erewrite bind_eq
         by (apply do_priority_zero_lookup with (i := i); auto;
             [reflexivity | lia]));
      reflexivity.
Qed.

End AliasFacts.

(** A witness: the alias "Services", bound to 0 in [alias_state], used on
    line 7 as the start priority of the open object. *)
Lemma zero_alias_is_undefined_alias_witness :
  @line_body linux
    ("ObjectStartPriority Services" +:+ String NL "ObjectEnabled true")
    (in_object 0 7) alias_state
  = Some (in_object 0 7,
          set_Console
            [EvConfigProblem CONFIG_EBADVAL "ObjectStartPriority"
               (Some "Services") 7] alias_state).
Proof.
  apply (proj2 (@zero_alias_is_undefined_alias linux "Services"
                  ltac:(split; [discriminate | reflexivity])
                  eq_refl
                  ltac:(apply Nat.ltb_lt; reflexivity)
                  ltac:(apply Nat.ltb_lt; reflexivity))
               A_ObjectStartPriority alias_state (in_object 0 7) 0%nat
               "ObjectEnabled true");
    [left; reflexivity | reflexivity | reflexivity | reflexivity].
Defined.

Section OptionFacts.
Context `{Platform}.

Lemma words_cons t ts :
  ts <> [] -> words (t :: ts) = t +:+ " " +:+ words ts.
Proof. destruct ts; [congruence | reflexivity]. Qed.

Lemma words_head t ts : exists tail, words (t :: ts) = t +:+ tail.
Proof.
  destruct ts as [|t' ts].
  - exists "". simpl. now rewrite append_nil_r.
  - now exists (" " +:+ words (t' :: ts)).
Qed.

Lemma words_no_nl ts : Forall is_word ts -> free_of stop_nl (words ts).
Proof.
  induction 1 as [|t ts Ht Hts IH]; [reflexivity|].
  destruct ts as [|t' ts]; [now apply is_word_no_nl|].
  rewrite words_cons by discriminate. unfold free_of.
  rewrite from_app by now apply is_word_no_nl.
  change (from stop_nl (" " +:+ words (t' :: ts)))
    with (from stop_nl (words (t' :: ts))).
  exact IH.
Qed.

Lemma words_length ts :
  Forall is_word ts -> (length ts <= String.length (words ts))%nat.
Proof.
  induction 1 as [|t ts Ht Hts IH]; [simpl; lia|].
  destruct Ht as [Hne _].
  assert (1 <= String.length t)%nat by (destruct t; [congruence | simpl; lia]).
  destruct ts as [|t' ts]; [simpl; lia|].
  rewrite words_cons by discriminate. rewrite !length_append.
  set (W := words (t' :: ts)) in *.
  change (String.length " ") with 1%nat.
  change (length (t :: t' :: ts)) with (S (length (t' :: ts))). lia.
Qed.

Lemma cur_arg_words t ts :
  Forall is_word (t :: ts) ->
  (String.length t < MAX_DESCRIPT_SIZE)%nat ->
  cur_arg (words (t :: ts)) = t.
Proof.
  intros Hw Hlen. inversion Hw as [|? ? Ht Hts]; subst.
  unfold cur_arg. destruct ts as [|t' ts].
  - simpl words. rewrite until_free by apply Ht. apply stake_all. lia.
  - rewrite words_cons by discriminate.
    rewrite until_app by apply Ht.
    change (until stop_word (" " +:+ words (t' :: ts))) with "".
    rewrite append_nil_r. apply stake_all. lia.
Qed.

Lemma WhitespaceArg_words t ts :
  Forall is_word (t :: ts) ->
  WhitespaceArg (words (t :: ts))
  = match ts with [] => None | _ => Some (words ts) end.
Proof.
  intros Hw. inversion Hw as [|? ? Ht Hts]; subst.
  unfold WhitespaceArg. destruct ts as [|t' ts].
  - simpl words. destruct Ht as [_ Hf]. unfold free_of in Hf.
    now rewrite Hf.
  - rewrite words_cons by discriminate.
    rewrite from_app by apply Ht.
    set (W := words (t' :: ts)).
    change (from stop_word (" " +:+ W)) with (String " "%char W).
    change (at_eol (String " "%char W)) with false.
    change (skip_blanks (String " "%char W)) with (skip_blanks W).
    cbv iota. subst W. destruct (words_head t' ts) as [tail ->].
    inversion Hts; subst.
    rewrite skip_blanks_word, at_eol_word by assumption. reflexivity.
Qed.


(** The loop of [ObjectOptions] over a line of words takes the words one by
    one; the fuel is not used up. *)
Lemma args_loop_words i line ts fuel st :
  ts <> [] -> Forall is_word ts ->
  Forall (fun t => (String.length t < MAX_DESCRIPT_SIZE)%nat) ts ->
  (length ts <= fuel)%nat ->
  args_loop fuel
    (fun TWorker =>
       go ← option_arg i line (cur_arg TWorker);
       mret (if go : bool then Some TWorker else None))
    (words ts) st
  = run_options i line ts st.
Proof.
  revert fuel st. induction ts as [|t ts IH]; intros fuel st Hne Hw Hlen Hfuel;
    [congruence|].
  destruct fuel as [|fuel]; [simpl in Hfuel; lia|].
  inversion Hlen as [|? ? Ht Hts]; subst.
  cbn [args_loop run_options]. rewrite cur_arg_words by assumption.
  unfold mbind, M_bind, mret, M_ret.
  destruct (option_arg i line t st) as [[[|] st']|]; [|reflexivity|reflexivity].
  rewrite WhitespaceArg_words by assumption.
  destruct ts as [|t' ts]; [reflexivity|].
  apply IH; [discriminate | now inversion Hw | assumption | simpl in *; lia].
Qed.

Lemma term_signal_at_upd i f st :
  (forall o, TermSignal (f o) = TermSignal o) ->
  term_signal_at i (set_ObjectTable (alter f i (ObjectTable st)) st)
  = term_signal_at i st.
Proof.
  intros Hf. unfold term_signal_at. simpl.
  rewrite list_lookup_alter_eq. destruct (ObjectTable st !! i); simpl; [|reflexivity].
  now rewrite Hf.
Qed.

Lemma term_signal_at_emit i e st :
  term_signal_at i (set_Console (e :: Console st) st) = term_signal_at i st.
Proof. reflexivity. Qed.

(** An argument that does not begin with TERMSIGNAL leaves the signal of the
    object alone, whatever else it does. *)
Lemma option_arg_other i line t st :
  String.prefix "TERMSIGNAL" t = false ->
  exists go st', option_arg i line t st = Some (go, st')
    /\ term_signal_at i st' = term_signal_at i st.
Proof.
  intros Hp. unfold option_arg, strncmp_eq. rewrite Hp.
  unfold mbind, M_bind, mret, M_ret, upd_obj, modify, gets, emit,
    ConfigProblem.
  repeat match goal with
         | |- context [if ?b then _ else _] => destruct b
         end;
    eexists _, _; (split; [reflexivity|]);
    rewrite ?term_signal_at_emit; try reflexivity;
    apply term_signal_at_upd; reflexivity.
Qed.

(** A flag argument is accepted: the loop goes on. *)
Lemma option_arg_flag i line t st :
  t ∈ flag_options ->
  exists st', option_arg i line t st = Some (true, st')
    /\ term_signal_at i st' = term_signal_at i st.
Proof.
  intros Hin. unfold flag_options in Hin.
  repeat (apply elem_of_cons in Hin as [-> | Hin]);
    [..| now apply elem_of_nil in Hin];
    unfold option_arg; cbn [strcmp_eq String.eqb Ascii.eqb Bool.eqb];
    unfold mbind, M_bind, mret, M_ret, upd_obj, modify, gets, emit;
    cbn beta iota;
    try (destruct (negb (ShellEnabled st)));
    eexists; (split; [reflexivity|]);
    rewrite ?term_signal_at_emit; try reflexivity;
    apply term_signal_at_upd; reflexivity.
Qed.

(** The argument TERMSIGNAL=SIGHUP stores [SIGKILL]. *)
Lemma option_arg_SIGHUP i line st o :
  ObjectTable st !! i = Some o ->
  option_arg i line "TERMSIGNAL=SIGHUP" st
  = Some (true,
          set_ObjectTable (alter (set_TermSignal SIGKILL) i (ObjectTable st)) st)
  /\ term_signal_at i
       (set_ObjectTable (alter (set_TermSignal SIGKILL) i (ObjectTable st)) st)
     = Some SIGKILL.
Proof.
  intros Ho. split; [reflexivity|].
  unfold term_signal_at. simpl. rewrite list_lookup_alter_eq, Ho. reflexivity.
Qed.


Lemma run_options_other i line post st :
  Forall (fun t => String.prefix "TERMSIGNAL" t = false) post ->
  exists st', run_options i line post st = Some (tt, st')
    /\ term_signal_at i st' = term_signal_at i st.
Proof.
  intros Hpost. revert st. induction Hpost as [|t post Ht Hpost IH]; intros st.
  - now exists st.
  - destruct (option_arg_other i line t st Ht) as (go & st1 & Hgo & Hsig).
    cbn [run_options]. rewrite (bind_eq _ _ _ _ _ Hgo). destruct go.
    + destruct (IH st1) as (st' & Hrun & Hsig').
      exists st'. split; [assumption | congruence].
    + exists st1. split; [reflexivity | assumption].
Qed.

Lemma run_options_SIGHUP i line pre post st o :
  Forall (fun t => t ∈ flag_options) pre ->
  Forall (fun t => String.prefix "TERMSIGNAL" t = false) post ->
  ObjectTable st !! i = Some o ->
  exists st', run_options i line (pre ++ "TERMSIGNAL=SIGHUP" :: post) st
              = Some (tt, st')
    /\ term_signal_at i st' = Some SIGKILL.
Proof.
  intros Hpre Hpost. revert st o.
  induction Hpre as [|t pre Ht Hpre IH]; intros st o Ho.
  - destruct (option_arg_SIGHUP i line st o Ho) as [Harg Hsig].
    cbn [app run_options]. rewrite (bind_eq _ _ _ _ _ Harg).
    cbv beta iota.
    destruct (run_options_other i line post
                (set_ObjectTable
                   (alter (set_TermSignal SIGKILL) i (ObjectTable st)) st)
                Hpost) as (st' & -> & Hsig').
    exists st'. split; [reflexivity | congruence].
  - destruct (option_arg_flag i line t st Ht) as (st1 & Harg & Hsig).
    assert (Ho1 : exists o1, ObjectTable st1 !! i = Some o1).
    { unfold term_signal_at in Hsig. rewrite Ho in Hsig.
      destruct (ObjectTable st1 !! i) as [o1|]; [now exists o1 | discriminate]. }
    destruct Ho1 as [o1 Ho1].
    cbn [app run_options]. rewrite (bind_eq _ _ _ _ _ Harg).
    exact (IH st1 o1 Ho1).
Qed.

Lemma flag_options_word t :
  t ∈ flag_options -> is_word t /\ (String.length t < 17)%nat.
Proof.
  intros Hin. unfold flag_options in Hin.
  repeat (apply elem_of_cons in Hin as [-> | Hin]);
    [..| now apply elem_of_nil in Hin];
    (split; [split; [discriminate | reflexivity] | simpl; lia]).
Qed.

(** C9.  The argument TERMSIGNAL=SIGHUP of [ObjectOptions] stores [SIGKILL]
    in [TermSignal].  On an [ObjectOptions] line where that argument follows
    flag arguments only and no later argument sets the signal again, the
    parsed object ends the line with [TermSignal = SIGKILL]. *)
Theorem TERMSIGNAL_SIGHUP_stores_SIGKILL :
  (forall i line st,
     option_arg i line "TERMSIGNAL=SIGHUP" st
     = Some (true,
             set_ObjectTable
               (alter (set_TermSignal SIGKILL) i (ObjectTable st)) st))
  /\ (forall pre post rest st lc i o,
        (17 < MAX_DESCRIPT_SIZE)%nat ->
        Forall (fun t => t ∈ flag_options) pre ->
        Forall (fun t => is_word t
                         /\ (String.length t < MAX_DESCRIPT_SIZE)%nat
                         /\ String.prefix "TERMSIGNAL" t = false) post ->
        (String.length (words (pre ++ "TERMSIGNAL=SIGHUP" :: post)) + 1
         < MAX_LINE_SIZE)%nat ->
        CurObj lc = Some i -> LongComment lc = false ->
        ObjectTable st !! i = Some o ->
        exists st' o',
          line_body
            ("ObjectOptions" +:+ " "
             +:+ words (pre ++ "TERMSIGNAL=SIGHUP" :: post)
             +:+ String NL rest) lc st
          = Some (lc, st')
          /\ ObjectTable st' !! i = Some o'
          /\ TermSignal o' = SIGKILL).
Proof.
  split; [reflexivity|].
  intros pre post rest st lc i o Hsize Hpre Hpost Hlen Hcur Hlc Ho.
  set (ts := (pre ++ "TERMSIGNAL=SIGHUP" :: post)%list) in *.
  assert (Hw : Forall is_word ts).
  { apply Forall_app. split.
    - eapply Forall_impl; [exact Hpre|]. intros t Ht.
      now apply flag_options_word.
    - constructor; [split; [discriminate | reflexivity]|].
      eapply Forall_impl; [exact Hpost|]. now intros t (? & _). }
  assert (Hsz : Forall (fun t => (String.length t < MAX_DESCRIPT_SIZE)%nat) ts).
  { apply Forall_app. split.
    - eapply Forall_impl; [exact Hpre|]. intros t Ht.
      apply flag_options_word in Ht as [_ Ht]. lia.
    - constructor; [simpl; lia|].
      eapply Forall_impl; [exact Hpost|]. now intros t (_ & ? & _). }
  assert (Hne : ts <> []) by (subst ts; now destruct pre).
  destruct (run_options_SIGHUP i (LineNum lc) pre post st o Hpre) as
    (st' & Hrun & Hsig); [|exact Ho|].
  { eapply Forall_impl; [exact Hpost|]. now intros t (_ & _ & ?). }
  fold ts in Hrun.
  assert (Hval : GetLineDelim
                   ("ObjectOptions" +:+ " " +:+ words ts +:+ String NL rest) st
                 = Some (Some (words ts), st)).
  { apply GetLineDelim_value; [reflexivity | | now apply words_no_nl | lia].
    destruct ts as [|t ts']; [congruence|].
    destruct (words_head t ts') as [tail Htail].
    rewrite <- (append_nil_r (words (t :: ts'))), Htail, append_assoc.
    apply skip_blanks_word. now inversion Hw. }
  unfold term_signal_at in Hsig.
  destruct (ObjectTable st' !! i) as [o'|] eqn:Ho'; [|discriminate].
  exists st', o'. split; [|split; [exact Ho' | now injection Hsig]].
  change "ObjectOptions" with (keyword A_ObjectOptions).
  rewrite line_body_keyword by assumption.
  cbn [handle keyword]. unfold do_ObjectOptions, object_attr. rewrite Hcur.
  unfold mbind at 1, M_bind at 1.
  rewrite (bind_eq _ _ _ _ _ Hval). cbv beta iota.
  unfold check_truncated, when.
  destruct (Nat.leb_spec MAX_LINE_SIZE (String.length (words ts) + 1)) as [Hge|_];
    [lia|].
  unfold mbind at 1, M_bind at 1, mret at 1, M_ret at 1.
  rewrite args_loop_words; try assumption.
  - rewrite Hrun. reflexivity.
  - pose proof (words_length ts Hw). lia.
Qed.

End OptionFacts.

(** A witness: the line [ObjectOptions SERVICE TERMSIGNAL=SIGHUP AUTORESTART]
    for the open object of [alias_state], on Linux, where SIGKILL is 9 and
    SIGHUP is 1. *)
Lemma TERMSIGNAL_SIGHUP_stores_SIGKILL_witness :
  exists st' o',
    @line_body linux
      ("ObjectOptions SERVICE TERMSIGNAL=SIGHUP AUTORESTART" +:+ String NL "")
      (in_object 0 7) alias_state
    = Some (in_object 0 7, st')
    /\ ObjectTable st' !! 0%nat = Some o'
    /\ TermSignal o' = 9.
Proof.
  apply (proj2 (@TERMSIGNAL_SIGHUP_stores_SIGKILL linux)
               ["SERVICE"] ["AUTORESTART"] "" alias_state (in_object 0 7)
               0%nat (@new_object linux "svc")).
  - apply Nat.ltb_lt. reflexivity.
  - repeat constructor.
  - constructor; [|constructor].
    split; [split; [discriminate | reflexivity]|].
    split; [apply Nat.ltb_lt; reflexivity | reflexivity].
  - apply Nat.ltb_lt. reflexivity.
  - reflexivity.
  - reflexivity.
  - reflexivity.
Defined.

(** ** [ReloadConfig] *)

Lemma list_copy_advance {A} (src dst : list A) :
  list_copy true src dst (length dst) = dst ++ src.
Proof.
  revert dst. induction src as [|x src IH]; intros dst; simpl.
  - now rewrite app_nil_r.
  - rewrite firstn_all. specialize (IH (dst ++ [x])).
    rewrite length_app, Nat.add_1_r in IH. rewrite IH.
    now rewrite <- app_assoc.
Qed.

Lemma list_copy_stay {A} (src dst : list A) :
  list_copy false src dst 0
  = match last src with Some x => [x] | None => dst end.
Proof.
  revert dst. induction src as [|x src IH]; intros dst; simpl; [reflexivity|].
  rewrite IH. destruct src as [|y src]; [reflexivity|].
  change (last (x :: y :: src)) with (last (y :: src)).
  destruct (last (y :: src)) eqn:E; [reflexivity|].
  apply last_None in E. discriminate.
Qed.

Lemma backup_runlevels_id rls : backup_runlevels rls = rls.
Proof. apply (list_copy_advance rls []). Qed.

(** The backup of the object table is the table. *)
Lemma backup_table_id table : backup_table table = table.
Proof.
  unfold backup_table. rewrite (list_copy_advance _ []). simpl.
  induction table as [|o table IH]; simpl; [reflexivity|].
  rewrite IH, backup_runlevels_id. now destruct o.
Qed.

(** The backup of the inheritance list keeps its last pair only. *)
Lemma backup_inheritance_last tree :
  backup_inheritance tree
  = match last tree with Some p => [p] | None => [] end.
Proof. apply list_copy_stay. Qed.

(** C1 at a failing input.  [InitConfig] accepts [two_pairs_conf], whose
    inheritance relation has two pairs.  The file is then replaced by
    [broken_conf]; the reparse of [ReloadConfig] fails, and [ReloadConfig]
    returns FAILURE with the object table and the current runlevel as they
    were, but with the second pair as the whole inheritance relation. *)
Theorem ReloadConfig_rollback_drops_inheritance :
  exists st st',
    @InitConfig linux (boot two_pairs_conf "") = Some (SUCCESS, st)
    /\ @ReloadConfig linux (set_ConfFile (Some broken_conf) st)
       = Some (FAILURE, st')
    /\ ObjectTable st' = ObjectTable st
    /\ CurRunlevel st' = CurRunlevel st
    /\ RunlevelInheritance st = [("rescue", "default"); ("net", "default")]
    /\ RunlevelInheritance st' = [("net", "default")].
Proof.
  eexists. eexists. split; [vm_compute; reflexivity|].
  split; [vm_compute; reflexivity|].
  repeat split; reflexivity.
Qed.

(** *** Carrying [Started] and [ObjectPID] over *)

Lemma lookup_from_Some b table id k :
  lookup_from b table id = Some k ->
  exists j n, k = (b + j)%nat /\ table !! j = Some n /\ ObjectID n = id.
Proof.
  revert b. induction table as [|x table IH]; intros b; simpl; [discriminate|].
  destruct (strcmp_eq (ObjectID x) id) eqn:E.
  - intros [= <-]. exists 0%nat, x. apply strcmp_eq_true in E.
    repeat split; auto with lia.
  - intros Hl. destruct (IH _ Hl) as (j & n & -> & Hj & Hn).
    exists (S j), n. repeat split; auto with lia.
Qed.

Lemma LookupObjectInTable_Some table id k :
  LookupObjectInTable table id = Some k ->
  exists n, table !! k = Some n /\ ObjectID n = id.
Proof.
  intros Hl. apply lookup_from_Some in Hl as (j & n & -> & Hj & Hn).
  now exists n.
Qed.

Lemma lookup_from_NoDup b table k n :
  NoDup (ObjectID <$> table) -> table !! k = Some n ->
  lookup_from b table (ObjectID n) = Some (b + k)%nat.
Proof.
  revert b k. induction table as [|x table IH]; intros b k Hnd Hk;
    [discriminate|].
  rewrite fmap_cons in Hnd. apply NoDup_cons in Hnd as [Hfresh Hnd].
  destruct k as [|k]; simpl in *.
  - injection Hk as ->. unfold strcmp_eq. rewrite String.eqb_refl.
    f_equal. lia.
  - destruct (strcmp_eq (ObjectID x) (ObjectID n)) eqn:E.
    + apply strcmp_eq_true in E. exfalso. apply Hfresh. rewrite E.
      apply list_elem_of_fmap. exists n. split; [reflexivity|].
      now apply list_elem_of_lookup_2 in Hk.
    + rewrite (IH (S b) k Hnd Hk). f_equal. lia.
Qed.

Lemma lookup_from_ids b t1 t2 id :
  ObjectID <$> t1 = ObjectID <$> t2 ->
  lookup_from b t1 id = lookup_from b t2 id.
Proof.
  revert b t2. induction t1 as [|x t1 IH]; intros b [|y t2] Hids;
    try discriminate; [reflexivity|].
  simpl in *. injection Hids as Hxy Hids. rewrite Hxy.
  destruct (strcmp_eq (ObjectID y) id); [reflexivity | now apply IH].
Qed.

Lemma alter_carry_ids SWorker (k : nat) (table : list ObjTable) :
  ObjectID <$> alter (carry SWorker) k table = ObjectID <$> table.
Proof.
  apply list_eq. intros j. rewrite !list_lookup_fmap, list_lookup_alter.
  destruct (decide (k = j)) as [->|]; [|reflexivity].
  now destruct (table !! j).
Qed.

Lemma restore_status_cons SWorker backup table :
  restore_status (SWorker :: backup) table
  = restore_status backup (restore_one SWorker table).
Proof. reflexivity. Qed.

Lemma restore_one_ids SWorker table :
  ObjectID <$> restore_one SWorker table = ObjectID <$> table.
Proof.
  unfold restore_one.
  destruct (LookupObjectInTable table (ObjectID SWorker));
    [apply alter_carry_ids | reflexivity].
Qed.

Lemma restore_status_ids backup table :
  ObjectID <$> restore_status backup table = ObjectID <$> table.
Proof.
  revert table. induction backup as [|SWorker backup IH]; intros table;
    [reflexivity|].
  rewrite restore_status_cons, IH. apply restore_one_ids.
Qed.

(** A node whose ID no backup node has is left alone. *)
Lemma restore_status_other backup table k n :
  table !! k = Some n ->
  (forall SWorker, SWorker ∈ backup -> ObjectID SWorker <> ObjectID n) ->
  restore_status backup table !! k = Some n.
Proof.
  revert table. induction backup as [|SWorker backup IH]; intros table Hk Hids;
    [exact Hk|].
  rewrite restore_status_cons. apply IH.
  - unfold restore_one.
    destruct (LookupObjectInTable table (ObjectID SWorker)) as [k'|] eqn:El;
      [|exact Hk].
    apply LookupObjectInTable_Some in El as (n' & Hk' & Hid).
    rewrite list_lookup_alter_ne; [exact Hk|].
    intros ->. rewrite Hk in Hk'. injection Hk' as <-.
    apply (Hids SWorker); [left | congruence].
  - intros SW Hin. apply Hids. now right.
Qed.

(** The node that [LookupObjectInTable] finds for the ID of a backup node
    ends with the [Started] and [ObjectPID] of that backup node, when the
    IDs of the backup are pairwise distinct. *)
Lemma restore_status_carries backup table old k n :
  NoDup (ObjectID <$> backup) ->
  old ∈ backup ->
  LookupObjectInTable table (ObjectID old) = Some k ->
  table !! k = Some n ->
  restore_status backup table !! k = Some (carry old n).
Proof.
  revert table. induction backup as [|SWorker backup IH];
    intros table Hnd Hin Hl Hk; [now apply elem_of_nil in Hin|].
  rewrite fmap_cons in Hnd. apply NoDup_cons in Hnd as [Hfresh Hnd].
  rewrite restore_status_cons.
  destruct (decide (ObjectID SWorker = ObjectID old)) as [Heq|Hne].
  - assert (SWorker = old) as ->.
    { apply elem_of_cons in Hin as [->|Hin]; [reflexivity|].
      exfalso. apply Hfresh. rewrite Heq.
      apply list_elem_of_fmap. now exists old. }
    apply restore_status_other.
    + unfold restore_one. rewrite Hl, list_lookup_alter_eq, Hk. reflexivity.
    + intros SW HSW Hid. simpl in Hid.
      apply LookupObjectInTable_Some in Hl as (n2 & Hk2 & Hid2).
      rewrite Hk in Hk2. injection Hk2 as <-.
      apply Hfresh. rewrite <- Hid2, <- Hid.
      apply list_elem_of_fmap. now exists SW.
  - apply elem_of_cons in Hin as [->|Hin]; [congruence|].
    apply IH; try assumption.
    + unfold LookupObjectInTable in *.
      rewrite (lookup_from_ids _ _ table) by apply restore_one_ids. exact Hl.
    + unfold restore_one.
      destruct (LookupObjectInTable table (ObjectID SWorker)) as [k'|] eqn:El;
        [|exact Hk].
      apply LookupObjectInTable_Some in El as (n' & Hk' & Hid).
      rewrite list_lookup_alter_ne; [exact Hk|].
      intros ->. rewrite Hk in Hk'. injection Hk' as <-.
      apply LookupObjectInTable_Some in Hl as (n2 & Hk2 & Hid2).
      rewrite Hk in Hk2. injection Hk2 as <-. congruence.
Qed.

Section ReloadFacts.
Context `{Platform}.

(** [ReloadConfig] after a reparse that did not return FAILURE. *)
Lemma ReloadConfig_commit st st1 r :
  ObjectTable st <> [] ->
  InitConfig (after_shutdown st) = Some (r, st1) -> r <> FAILURE ->
  ReloadConfig st = Some (SUCCESS, reload_commit st st1).
Proof.
  intros Hne Hinit Hr. unfold ReloadConfig.
  unfold mbind at 1, M_bind at 1, gets at 1.
  destruct (ObjectTable st) as [|o table] eqn:Et; [congruence|].
  unfold mbind at 1, M_bind at 1, ShutdownConfig, modify at 1.
  fold (after_shutdown st).
  unfold mbind at 1, M_bind at 1. rewrite Hinit.
  rewrite bool_decide_eq_false_2 by assumption.
  unfold reload_commit. rewrite Et. reflexivity.
Qed.

(** [ReloadConfig] after a reparse that returned FAILURE. *)
Lemma ReloadConfig_rollback st st1 :
  ObjectTable st <> [] ->
  InitConfig (after_shutdown st) = Some (FAILURE, st1) ->
  ReloadConfig st = Some (FAILURE, reload_rollback st st1).
Proof.
  intros Hne Hinit. unfold ReloadConfig.
  unfold mbind at 1, M_bind at 1, gets at 1.
  destruct (ObjectTable st) as [|o table] eqn:Et; [congruence|].
  unfold mbind at 1, M_bind at 1, ShutdownConfig, modify at 1.
  fold (after_shutdown st).
  unfold mbind at 1, M_bind at 1. rewrite Hinit.
  rewrite bool_decide_eq_true_2 by reflexivity.
  unfold reload_rollback. rewrite Et. reflexivity.
Qed.

(** What a failed reload restores, and what it does not: the object table
    comes back as it was and so does the current runlevel (a string that
    fits its buffer), while the inheritance relation comes back as its last
    pair. *)
Lemma ReloadConfig_rollback_state st st1 :
  ObjectTable st <> [] ->
  (String.length (CurRunlevel st) < MAX_DESCRIPT_SIZE)%nat ->
  InitConfig (after_shutdown st) = Some (FAILURE, st1) ->
  exists st', ReloadConfig st = Some (FAILURE, st')
    /\ ObjectTable st' = ObjectTable st
    /\ CurRunlevel st' = CurRunlevel st
    /\ RunlevelInheritance st'
       = match last (RunlevelInheritance st) with
         | Some p => [p]
         | None => []
         end
    /\ EnableLogging st' = EnableLogging st
    /\ DisableCAD st' = DisableCAD st
    /\ AlignStatusReports st' = AlignStatusReports st.
Proof.
  intros Hne Hlen Hinit. exists (reload_rollback st st1).
  split; [now apply ReloadConfig_rollback|].
  unfold reload_rollback, restore_globals. simpl.
  rewrite backup_table_id, backup_inheritance_last.
  unfold snprintf_s. rewrite !(stake_all _ (CurRunlevel st)) by lia.
  repeat split; reflexivity.
Qed.

(** C6.  When the reparse of [ReloadConfig] does not fail, [ReloadConfig]
    returns SUCCESS; [EnableLogging], [DisableCAD] and [AlignStatusReports]
    end with the values they had before the reload, whatever the new file
    says; and for every object of the old table (whose IDs are pairwise
    distinct) whose ID names an object of the newly parsed table, that
    object ends with the [Started] and [ObjectPID] of the old object, its
    other fields being those just parsed. *)
Theorem ReloadConfig_carries_runtime_status st st1 r :
  ObjectTable st <> [] ->
  NoDup (ObjectID <$> ObjectTable st) ->
  InitConfig (after_shutdown st) = Some (r, st1) -> r <> FAILURE ->
  exists st',
    ReloadConfig st = Some (SUCCESS, st')
    /\ EnableLogging st' = EnableLogging st
    /\ DisableCAD st' = DisableCAD st
    /\ AlignStatusReports st' = AlignStatusReports st
    /\ (forall old k new,
          old ∈ ObjectTable st ->
          LookupObjectInTable (ObjectTable st1) (ObjectID old) = Some k ->
          ObjectTable st1 !! k = Some new ->
          LookupObjectInTable (ObjectTable st') (ObjectID old) = Some k
          /\ ObjectTable st' !! k
             = Some (set_ObjectPID (ObjectPID old)
                       (set_Started (Started old) new)))
    /\ (forall old new',
          NoDup (ObjectID <$> ObjectTable st1) ->
          old ∈ ObjectTable st -> new' ∈ ObjectTable st' ->
          ObjectID new' = ObjectID old ->
          Started new' = Started old /\ ObjectPID new' = ObjectPID old).
Proof.
  intros Hne Hnd Hinit Hr. exists (reload_commit st st1).
  split; [now apply ReloadConfig_commit with (r := r)|].
  unfold reload_commit, restore_globals. simpl.
  rewrite backup_table_id.
  assert (Hcarry : forall old k new,
            old ∈ ObjectTable st ->
            LookupObjectInTable (ObjectTable st1) (ObjectID old) = Some k ->
            ObjectTable st1 !! k = Some new ->
            LookupObjectInTable
              (restore_status (ObjectTable st) (ObjectTable st1))
              (ObjectID old) = Some k
            /\ restore_status (ObjectTable st) (ObjectTable st1) !! k
               = Some (carry old new)).
  { intros old k new Hin Hl Hk. split.
    - unfold LookupObjectInTable in *.
      rewrite (lookup_from_ids _ _ (ObjectTable st1))
        by apply restore_status_ids. exact Hl.
    - now apply restore_status_carries. }
  split; [reflexivity|]. split; [reflexivity|]. split; [reflexivity|].
  split; [exact Hcarry|].
  intros old new' Hnd1 Hin Hin' Hid.
  apply list_elem_of_lookup in Hin' as [k Hk'].
  assert (Hids := restore_status_ids (ObjectTable st) (ObjectTable st1)).
  assert (Hk : exists new, ObjectTable st1 !! k = Some new
                           /\ ObjectID new = ObjectID new').
  { apply (f_equal (fun l => l !! k)) in Hids.
    rewrite !list_lookup_fmap, Hk' in Hids. simpl in Hids.
    destruct (ObjectTable st1 !! k) as [new|]; [|discriminate].
    exists new. split; [reflexivity | now injection Hids]. }
  destruct Hk as (new & Hk & Hidn).
  assert (Hl : LookupObjectInTable (ObjectTable st1) (ObjectID old) = Some k).
  { rewrite <- Hid, <- Hidn. now apply (lookup_from_NoDup 0). }
  destruct (Hcarry old k new Hin Hl Hk) as [_ Hfin].
  rewrite Hk' in Hfin. injection Hfin as ->. split; reflexivity.
Qed.

End ReloadFacts.

(** A witness: the reload of [running_state]. *)
Lemma ReloadConfig_carries_runtime_status_witness :
  exists st',
    @ReloadConfig linux running_state = Some (SUCCESS, st')
    /\ EnableLogging st' = EnableLogging running_state
    /\ DisableCAD st' = DisableCAD running_state
    /\ AlignStatusReports st' = AlignStatusReports running_state
    /\ (forall old k new,
          old ∈ ObjectTable running_state ->
          LookupObjectInTable (ObjectTable reparsed_state) (ObjectID old)
          = Some k ->
          ObjectTable reparsed_state !! k = Some new ->
          LookupObjectInTable (ObjectTable st') (ObjectID old) = Some k
          /\ ObjectTable st' !! k
             = Some (set_ObjectPID (ObjectPID old)
                       (set_Started (Started old) new)))
    /\ (forall old new',
          NoDup (ObjectID <$> ObjectTable reparsed_state) ->
          old ∈ ObjectTable running_state -> new' ∈ ObjectTable st' ->
          ObjectID new' = ObjectID old ->
          Started new' = Started old /\ ObjectPID new' = ObjectPID old).
Proof.
  apply (@ReloadConfig_carries_runtime_status linux running_state
           reparsed_state SUCCESS).
  - intros Heq. vm_compute in Heq. discriminate.
  - vm_compute. apply NoDup_singleton.
  - vm_compute. reflexivity.
  - discriminate.
Defined.

(** ** [EditConfigValue] *)

(** The loops meant to strip the newlines at the end of the file change
    nothing: the second one starts at the terminator. *)
Lemma erase_trailing_newlines_id s : erase_trailing_newlines s = s.
Proof.
  unfold erase_trailing_newlines. cbn [erase_newlines].
  replace (byte_at s (String.length s)) with NUL; [reflexivity|].
  unfold byte_at.
  assert (Hget : forall t, String.get (String.length t) t = None).
  { induction t as [|c t IH]; [reflexivity | exact IH]. }
  now rewrite Hget.
Qed.

Section EditFacts.
Context `{Platform}.

(** C7 at a failing input.  [commented_conf] is parsed without complaint
    and the start command of svc is /bin/true.  Replacing that attribute by
    its current value returns SUCCESS and rewrites the comment line above
    the attribute: the file is no longer what it was. *)
Theorem EditConfigValue_noop_rewrites_comment :
  exists st o st',
    @InitConfig linux (boot commented_conf "") = Some (SUCCESS, st)
    /\ ObjectTable st !! 0%nat = Some o
    /\ ObjectID o = "svc"
    /\ ObjectStartCommand o = "/bin/true"
    /\ @EditConfigValue linux "svc" "ObjectStartCommand" "/bin/true" st
       = Some (SUCCESS, st')
    /\ ConfFile st = Some commented_conf
    /\ ConfFile st' = Some commented_conf_edited
    /\ commented_conf_edited <> commented_conf.
Proof.
  eexists. eexists. eexists.
  split; [vm_compute; reflexivity|].
  split; [reflexivity|]. split; [reflexivity|]. split; [reflexivity|].
  split; [vm_compute; reflexivity|].
  split; [reflexivity|]. split; [reflexivity|].
  intros Heq. vm_compute in Heq. discriminate.
Qed.



(** [EditConfigValue] from the stream it loads. *)
Lemma EditConfigValue_unfold id Attribute Value st bytes :
  ConfFile st = Some bytes -> c_str bytes <> EmptyString ->
  EditConfigValue id Attribute Value st
  = match rewrite_stream (c_str bytes) id Attribute Value with
    | None => None
    | Some None => Some (FAILURE, st)
    | Some (Some MasterStream') =>
        Some (SUCCESS, set_ConfFile (Some MasterStream') st)
    end.
Proof.
  intros Hconf Hne. unfold EditConfigValue.
  unfold mbind at 1, M_bind at 1, gets at 1. rewrite Hconf.
  rewrite erase_trailing_newlines_id.
  destruct (c_str bytes) as [|c s] eqn:E; [congruence|]. cbn [is_empty].
  destruct (rewrite_stream (String c s) id Attribute Value) as [[s'|]|];
    reflexivity.
Qed.



End EditFacts.



(** ** The renumbering of equal priorities *)

Lemma val_lookup l k : (k < length l)%nat -> l !! k = Some (val l k).
Proof.
  intros Hk. unfold val.
  destruct (lookup_lt_is_Some_2 l k Hk) as [x ->]. reflexivity.
Qed.

Lemma length_shiftZ i j c l : length (shiftZ i j c l) = length l.
Proof. apply length_imap. Qed.

Lemma length_stepZ i j l : length (stepZ i j l) = length l.
Proof.
  unfold stepZ. destruct (l !! i), (l !! j); try reflexivity.
  destruct (andb _ _); [|reflexivity].
  now rewrite length_shiftZ, length_insert.
Qed.

(** The priorities after a step, index by index. *)
Lemma val_stepZ i j l k :
  (i < length l)%nat -> (j < length l)%nat -> (k < length l)%nat ->
  val (stepZ i j l) k
  = if negb (val l i =? 0) && negb (i =? j)%nat && (val l j =? val l i)
    then
      let c := ulong_incr (val l j) in
      if (k =? j)%nat then c
      else if (k =? i)%nat then val l i
      else if c <=? val l k then ulong_incr (val l k) else val l k
    else val l k.
Proof.
  intros Hi Hj Hk. unfold stepZ.
  rewrite (val_lookup l i Hi), (val_lookup l j Hj).
  destruct (negb (val l i =? 0) && negb (i =? j)%nat && (val l j =? val l i))
    eqn:Ec; [|reflexivity].
  cbv zeta. unfold val at 1, shiftZ. rewrite list_lookup_imap.
  destruct (Nat.eqb_spec k j) as [->|Hkj].
  - rewrite list_lookup_insert_eq by assumption. simpl.
    rewrite andb_false_r. reflexivity.
  - rewrite list_lookup_insert_ne by congruence.
    rewrite (val_lookup l k Hk). simpl.
    destruct (Nat.eqb_spec k i) as [->|Hki].
    + rewrite andb_false_r. reflexivity.
    + rewrite !andb_true_r. reflexivity.
Qed.

Lemma stepZ_idle i j l :
  (i < length l)%nat -> (j < length l)%nat ->
  negb (val l i =? 0) && negb (i =? j)%nat && (val l j =? val l i) = false ->
  stepZ i j l = l.
Proof.
  intros Hi Hj Hc. unfold stepZ.
  rewrite (val_lookup l i Hi), (val_lookup l j Hj), Hc. reflexivity.
Qed.

Lemma keeps_refl l : keeps l l.
Proof. repeat split; auto. Qed.

Lemma keeps_trans l1 l2 l3 : keeps l1 l2 -> keeps l2 l3 -> keeps l1 l3.
Proof.
  intros (Hl & Hz & Hd) (Hl' & Hz' & Hd'). split; [congruence|]. split.
  - intros k Hk. rewrite Hz by assumption. apply Hz'. now rewrite Hl.
  - intros a b Ha Hb Hne. apply Hd'; try (rewrite Hl; assumption).
    now apply Hd.
Qed.

Lemma NoDup_below_length (S : list nat) n :
  NoDup S -> (forall j, j ∈ S -> (j < n)%nat) -> (length S <= n)%nat.
Proof.
  intros Hnd Hlt. transitivity (length (seq 0 n)); [|now rewrite length_seq].
  apply submseteq_length, NoDup_submseteq; [assumption|].
  intros j Hj. apply elem_of_seq. specialize (Hlt j Hj). lia.
Qed.

Lemma ulong_incr_small x :
  0 <= x < ULONG_MODULUS - 1 -> ulong_incr x = x + 1.
Proof. intros Hx. unfold ulong_incr. apply Z.mod_small. lia. Qed.

(** A step of the renumbering, away from the wrap-around: what it keeps,
    and that it leaves the two indices it looked at with different
    priorities unless the first has priority 0. *)
Lemma stepZ_no_wrap B l i j :
  B + Z.of_nat (length l) < ULONG_MODULUS ->
  (i < length l)%nat -> (j < length l)%nat ->
  no_wrap B l ->
  no_wrap B (stepZ i j l)
  /\ keeps l (stepZ i j l)
  /\ (val (stepZ i j l) i <> 0 -> i <> j ->
      val (stepZ i j l) i <> val (stepZ i j l) j).
Proof.
  intros HB Hi Hj (S & Hnd & HS & Hb).
  destruct (negb (val l i =? 0) && negb (i =? j)%nat && (val l j =? val l i))
    eqn:Ec.
  2:{ rewrite (stepZ_idle i j l Hi Hj Ec).
      split; [now exists S|]. split; [apply keeps_refl|].
      intros Hnz Hij Heq. revert Ec.
      destruct (Z.eqb_spec (val l i) 0); [contradiction|].
      destruct (Nat.eqb_spec i j); [contradiction|].
      destruct (Z.eqb_spec (val l j) (val l i)); [discriminate | congruence]. }
  apply andb_prop in Ec as [Ec Eeq]. apply andb_prop in Ec as [Enz Eij].
  apply negb_true_iff in Enz, Eij.
  apply Z.eqb_neq in Enz. apply Nat.eqb_neq in Eij. apply Z.eqb_eq in Eeq.
  assert (HjS : j ∉ S).
  { intros Hin. destruct (HS j Hin) as [_ Hu].
    apply (Hu i Hi Eij). congruence. }
  assert (HlenS : (length (j :: S) <= length l)%nat).
  { apply NoDup_below_length; [now constructor|].
    intros k [->|Hk]%elem_of_cons; [assumption | now apply HS]. }
  simpl in HlenS.
  assert (Hsmall : forall k, (k < length l)%nat ->
            0 <= val l k < ULONG_MODULUS - 1).
  { intros k Hk. specialize (Hb k Hk). lia. }
  assert (Hval : forall k, (k < length l)%nat ->
            val (stepZ i j l) k
            = if (k =? j)%nat then val l i + 1
              else if (k =? i)%nat then val l i
              else if val l i + 1 <=? val l k then val l k + 1 else val l k).
  { intros k Hk. rewrite val_stepZ by assumption.
    destruct (Z.eqb_spec (val l i) 0); [contradiction|].
    destruct (Nat.eqb_spec i j); [contradiction|].
    destruct (Z.eqb_spec (val l j) (val l i)); [|contradiction].
    cbn [negb andb]. cbv zeta.
    rewrite Eeq, !ulong_incr_small by auto. reflexivity. }
  assert (Hlen := length_stepZ i j l).
  assert (Hkeep : keeps l (stepZ i j l)).
  { split; [assumption|]. split.
    - intros k Hk. rewrite Hval by assumption.
      pose proof (Hsmall k Hk). pose proof (Hsmall i Hi).
      destruct (Nat.eqb_spec k j) as [->|]; [lia|].
      destruct (Nat.eqb_spec k i) as [->|]; [lia|].
      destruct (Z.leb_spec (val l i + 1) (val l k)); lia.
    - intros a b Ha Hb' Hne. rewrite !Hval by assumption.
      destruct (Nat.eqb_spec a j), (Nat.eqb_spec b j),
        (Nat.eqb_spec a i), (Nat.eqb_spec b i);
        subst; try contradiction;
        repeat match goal with
               | |- context [?x <=? ?y] => destruct (Z.leb_spec x y)
               end; lia. }
  split; [|split; [exact Hkeep|]].
  - exists (j :: S). split; [now constructor|]. split.
    + intros k [->|Hk]%elem_of_cons.
      * split; [lia|]. intros b Hb' Hbj. rewrite Hlen in Hb'.
        rewrite !Hval by assumption. rewrite Nat.eqb_refl.
        destruct (Nat.eqb_spec b j); [contradiction|].
        destruct (Nat.eqb_spec b i) as [->|]; [lia|].
        destruct (Z.leb_spec (val l i + 1) (val l b)); lia.
      * destruct (HS k Hk) as [Hkl Hu]. split; [lia|].
        intros b Hb' Hbk. rewrite Hlen in Hb'.
        destruct Hkeep as (_ & _ & Hd). apply Hd; auto.
    + intros k Hk. rewrite Hlen in Hk. rewrite Hval by assumption.
      specialize (Hb k Hk) as Hbk. specialize (Hb i Hi) as Hbi.
      cbn [length]. 
      destruct (Nat.eqb_spec k j) as [->|]; [lia|].
      destruct (Nat.eqb_spec k i) as [->|]; [lia|].
      destruct (Z.leb_spec (val l i + 1) (val l k)); lia.
  - intros _ _. rewrite !Hval by assumption. rewrite !Nat.eqb_refl.
    destruct (Nat.eqb_spec i j); [contradiction|]. lia.
Qed.

Lemma innerZ_no_wrap B i cnt : forall j l,
  B + Z.of_nat (length l) < ULONG_MODULUS ->
  (i < length l)%nat -> (j + cnt <= length l)%nat ->
  no_wrap B l ->
  no_wrap B (innerZ cnt i j l)
  /\ keeps l (innerZ cnt i j l)
  /\ (forall j', (j <= j' < j + cnt)%nat ->
        val (innerZ cnt i j l) i <> 0 -> i <> j' ->
        val (innerZ cnt i j l) i <> val (innerZ cnt i j l) j').
Proof.
  induction cnt as [|cnt IH]; intros j l HB Hi Hj Hnw; cbn [innerZ].
  - split; [assumption|]. split; [apply keeps_refl|]. intros j' Hj'. lia.
  - destruct (stepZ_no_wrap B l i j HB Hi ltac:(lia) Hnw)
      as (Hnw1 & Hk1 & Hd1).
    assert (Hlen := length_stepZ i j l).
    destruct (IH (S j) (stepZ i j l)) as (Hnw2 & Hk2 & Hd2);
      rewrite ?Hlen; try assumption; try lia.
    split; [assumption|]. split; [eapply keeps_trans; eassumption|].
    intros j' Hj' Hnz Hij.
    destruct (decide (j' = j)) as [->|Hne]; [|apply Hd2; [lia | assumption..]].
    destruct Hk2 as (_ & Hz & Hd). rewrite Hlen in Hz, Hd.
    apply Hd; try assumption; try lia.
    apply Hd1; [|assumption]. intros H0. apply Hnz. now apply Hz.
Qed.

Lemma length_innerZ cnt i : forall j l, length (innerZ cnt i j l) = length l.
Proof.
  induction cnt as [|cnt IH]; intros j l; cbn [innerZ]; [reflexivity|].
  now rewrite IH, length_stepZ.
Qed.

Lemma outerZ_no_wrap B cnt : forall i l,
  B + Z.of_nat (length l) < ULONG_MODULUS ->
  (i + cnt <= length l)%nat ->
  no_wrap B l ->
  no_wrap B (outerZ cnt i l)
  /\ keeps l (outerZ cnt i l)
  /\ (forall i' j', (i <= i' < i + cnt)%nat -> (j' < length l)%nat ->
        val (outerZ cnt i l) i' <> 0 -> i' <> j' ->
        val (outerZ cnt i l) i' <> val (outerZ cnt i l) j').
Proof.
  induction cnt as [|cnt IH]; intros i l HB Hi Hnw; cbn [outerZ].
  - split; [assumption|]. split; [apply keeps_refl|]. intros i' j' Hi'. lia.
  - destruct (innerZ_no_wrap B i (length l) 0 l HB ltac:(lia) ltac:(lia) Hnw)
      as (Hnw1 & Hk1 & Hd1).
    assert (Hlen := length_innerZ (length l) i 0 l).
    destruct (IH (S i) (innerZ (length l) i 0 l)) as (Hnw2 & Hk2 & Hd2);
      rewrite ?Hlen; try assumption; try lia.
    split; [assumption|]. split; [eapply keeps_trans; eassumption|].
    intros i' j' Hi' Hj' Hnz Hij.
    destruct (decide (i' = i)) as [->|Hne];
      [|apply Hd2; rewrite ?Hlen; [lia | assumption..]].
    destruct Hk2 as (_ & Hz & Hd). rewrite Hlen in Hz, Hd.
    apply Hd; try assumption; try lia.
    apply Hd1; [lia| |assumption]. intros H0. apply Hnz. apply Hz; [lia|assumption].
Qed.

(** The renumbering of a list of priorities that cannot reach the
    wrap-around: afterwards no priority other than 0 occurs twice, and the
    priorities that were 0 are the ones that are 0. *)
Lemma renumberZ_unique B l :
  (forall k, (k < length l)%nat -> 0 <= val l k <= B) ->
  B + Z.of_nat (length l) < ULONG_MODULUS ->
  length (renumberZ l) = length l
  /\ (forall k, (k < length l)%nat -> val l k = 0 <-> val (renumberZ l) k = 0)
  /\ (forall i j, (i < length l)%nat -> (j < length l)%nat -> i <> j ->
        val (renumberZ l) i <> 0 -> val (renumberZ l) i <> val (renumberZ l) j).
Proof.
  intros Hb HB. unfold renumberZ.
  destruct (outerZ_no_wrap B (length l) 0 l HB ltac:(lia))
    as (_ & (Hlen & Hz & _) & Hd).
  - exists []. split; [constructor|]. split.
    + intros j Hj. now apply elem_of_nil in Hj.
    + intros k Hk. specialize (Hb k Hk). simpl. lia.
  - split; [assumption|]. split; [assumption|].
    intros i j Hi Hj Hij Hnz. apply Hd; auto with lia.
Qed.

(** *** The renumbering of the table, field by field *)

Section Projection.
Context {A : Type}.
Variable get : ObjTable -> Z.
Variable get' : ObjTable -> A.
Variable set : Z -> ObjTable -> ObjTable.
Hypothesis get_set : forall v o, get (set v o) = v.
Hypothesis get'_set : forall v o, get' (set v o) = get' o.

Lemma shift_others_get i j c table :
  get <$> shift_others get set i j c table = shiftZ i j c (get <$> table).
Proof.
  unfold shift_others, shiftZ. apply list_eq. intros k.
  rewrite list_lookup_fmap, !list_lookup_imap, list_lookup_fmap.
  destruct (table !! k) as [o|]; [|reflexivity]. simpl.
  destruct (andb _ _); [now rewrite get_set | reflexivity].
Qed.

Lemma shift_others_get' i j c table :
  get' <$> shift_others get set i j c table = get' <$> table.
Proof.
  unfold shift_others. apply list_eq. intros k.
  rewrite !list_lookup_fmap, list_lookup_imap.
  destruct (table !! k) as [o|]; [|reflexivity]. simpl.
  destruct (andb _ _); [now rewrite get'_set | reflexivity].
Qed.

Lemma renumber_pair_get i j table :
  get <$> renumber_pair get set i j table = stepZ i j (get <$> table).
Proof.
  unfold renumber_pair, stepZ. rewrite !list_lookup_fmap.
  destruct (table !! i) as [a|]; [|reflexivity].
  destruct (table !! j) as [b|]; [|reflexivity]. simpl.
  destruct (andb _ _); [|reflexivity].
  now rewrite shift_others_get, list_fmap_insert, get_set.
Qed.

Lemma renumber_pair_get' i j table :
  get' <$> renumber_pair get set i j table = get' <$> table.
Proof.
  unfold renumber_pair.
  destruct (table !! i) as [a|]; [|reflexivity].
  destruct (table !! j) as [b|] eqn:Hj; [|reflexivity].
  destruct (andb _ _); [|reflexivity].
  rewrite shift_others_get', list_fmap_insert, get'_set.
  apply list_insert_id. now rewrite list_lookup_fmap, Hj.
Qed.

End Projection.

Lemma renumber_body_start i j table :
  ObjectStartPriority <$> renumber_body i j table
  = stepZ i j (ObjectStartPriority <$> table).
Proof.
  unfold renumber_body.
  rewrite (renumber_pair_get' ObjectStopPriority ObjectStartPriority)
    by reflexivity.
  now apply renumber_pair_get.
Qed.

Lemma renumber_body_stop i j table :
  ObjectStopPriority <$> renumber_body i j table
  = stepZ i j (ObjectStopPriority <$> table).
Proof.
  unfold renumber_body.
  rewrite (renumber_pair_get ObjectStopPriority) by reflexivity.
  f_equal. now apply renumber_pair_get'.
Qed.

Lemma renumber_inner_fields n i : forall j table,
  ObjectStartPriority <$> renumber_inner n i j table
  = innerZ n i j (ObjectStartPriority <$> table)
  /\ ObjectStopPriority <$> renumber_inner n i j table
     = innerZ n i j (ObjectStopPriority <$> table).
Proof.
  induction n as [|n IH]; intros j table; cbn [renumber_inner innerZ];
    [split; reflexivity|].
  destruct (IH (S j) (renumber_body i j table)) as [-> ->].
  now rewrite renumber_body_start, renumber_body_stop.
Qed.

Lemma renumber_outer_fields n : forall i table,
  ObjectStartPriority <$> renumber_outer n i table
  = outerZ n i (ObjectStartPriority <$> table)
  /\ ObjectStopPriority <$> renumber_outer n i table
     = outerZ n i (ObjectStopPriority <$> table).
Proof.
  induction n as [|n IH]; intros i table; cbn [renumber_outer outerZ];
    [split; reflexivity|].
  destruct (IH (S i) (renumber_inner (length table) i 0 table)) as [-> ->].
  destruct (renumber_inner_fields (length table) i 0 table) as [-> ->].
  now rewrite !length_fmap.
Qed.

Lemma renumber_body_ids i j table :
  ObjectID <$> renumber_body i j table = ObjectID <$> table.
Proof.
  unfold renumber_body.
  now rewrite !(renumber_pair_get' _ ObjectID) by reflexivity.
Qed.

Lemma renumber_inner_ids n i : forall j table,
  ObjectID <$> renumber_inner n i j table = ObjectID <$> table.
Proof.
  induction n as [|n IH]; intros j table; cbn [renumber_inner];
    [reflexivity|].
  now rewrite IH, renumber_body_ids.
Qed.

Lemma renumber_outer_ids n : forall i table,
  ObjectID <$> renumber_outer n i table = ObjectID <$> table.
Proof.
  induction n as [|n IH]; intros i table; cbn [renumber_outer];
    [reflexivity|].
  now rewrite IH, renumber_inner_ids.
Qed.

(** The renumbering leaves the objects in their places. *)
Lemma renumber_priorities_ids table :
  ObjectID <$> renumber_priorities table = ObjectID <$> table.
Proof. apply renumber_outer_ids. Qed.

(** The two priority fields are renumbered independently of each other, as
    the lists of priorities are. *)
Lemma renumber_priorities_fields table :
  ObjectStartPriority <$> renumber_priorities table
  = renumberZ (ObjectStartPriority <$> table)
  /\ ObjectStopPriority <$> renumber_priorities table
     = renumberZ (ObjectStopPriority <$> table).
Proof.
  unfold renumber_priorities, renumberZ. rewrite !length_fmap.
  apply renumber_outer_fields.
Qed.

(** *** What the rungs keep *)

Section Preservation.
Context `{Platform}.
Variable P : State -> Prop.
(** [P] looks at the object table and the alias list only, and not at
    fields of an object other than its ID and its priorities. *)
Hypothesis P_frame : forall st st',
  ObjectTable st' = ObjectTable st ->
  PriorityAliasTree st' = PriorityAliasTree st -> P st -> P st'.
Hypothesis P_alter : forall st i f,
  (forall o, ObjectID (f o) = ObjectID o) ->
  (forall o, ObjectStartPriority (f o) = ObjectStartPriority o) ->
  (forall o, ObjectStopPriority (f o) = ObjectStopPriority o) ->
  P st -> P (set_ObjectTable (alter f i (ObjectTable st)) st).

Lemma preserves_ret {A} (a : A) : preserves P (mret a).
Proof. intros st a' st' [= _ <-]. auto. Qed.

Lemma preserves_undefined {A} : preserves P (@undefined A).
Proof. intros st a st' Hm. discriminate. Qed.

Lemma preserves_bind {A B} (m : M A) (f : A -> M B) :
  preserves P m -> (forall a, preserves P (f a)) -> preserves P (m ≫= f).
Proof.
  intros Hm Hf st b st' Hr HP.
  apply bind_inv in Hr as (a & st1 & Hm1 & Hf1).
  eapply Hf; [eassumption|]. eapply Hm; eassumption.
Qed.

Lemma preserves_gets {A} (f : State -> A) : preserves P (gets f).
Proof. intros st a st' [= _ <-]. auto. Qed.

Lemma preserves_modify (f : State -> State) :
  (forall st, ObjectTable (f st) = ObjectTable st) ->
  (forall st, PriorityAliasTree (f st) = PriorityAliasTree st) ->
  preserves P (modify f).
Proof.
  intros Ht Ha st a st' Hm HP. inversion Hm; subst.
  apply (P_frame st); auto.
Qed.

Lemma preserves_emit e : preserves P (emit e).
Proof. apply preserves_modify; reflexivity. Qed.

Lemma preserves_upd_obj i f :
  (forall o, ObjectID (f o) = ObjectID o) ->
  (forall o, ObjectStartPriority (f o) = ObjectStartPriority o) ->
  (forall o, ObjectStopPriority (f o) = ObjectStopPriority o) ->
  preserves P (upd_obj i f).
Proof.
  intros Hi Hs Hp st a st' Hm HP. inversion Hm; subst. now apply P_alter.
Qed.

Lemma preserves_when b m : preserves P m -> preserves P (when b m).
Proof. intros Hm. destruct b; [exact Hm | apply preserves_ret]. Qed.

Lemma preserves_GetLineDelim s : preserves P (GetLineDelim s).
Proof.
  unfold GetLineDelim. destruct (at_eol _); [|apply preserves_ret].
  destruct (_ <=? _)%nat; [apply preserves_undefined|].
  apply preserves_bind; [apply preserves_emit | intros; apply preserves_ret].
Qed.

Lemma preserves_args_loop fuel body :
  (forall s, preserves P (body s)) ->
  forall s, preserves P (args_loop fuel body s).
Proof.
  intros Hbody. induction fuel as [|fuel IH]; intros s; cbn [args_loop].
  - apply preserves_ret.
  - apply preserves_bind; [apply Hbody|]. intros [s'|]; [|apply preserves_ret].
    destruct (WhitespaceArg s'); [apply IH | apply preserves_ret].
Qed.

Lemma preserves_object_attr attr s lc k :
  (forall i d, preserves P (k i d)) -> preserves P (object_attr attr s lc k).
Proof.
  intros Hk. unfold object_attr. destruct (CurObj lc); [|apply preserves_emit].
  apply preserves_bind; [apply preserves_GetLineDelim|].
  intros [d|]; [apply Hk | apply preserves_emit].
Qed.

End Preservation.

(** One step of a proof that an action built from the pieces above keeps a
    property. *)
Ltac keep_step Hframe Halter :=
  lazymatch goal with
  | |- preserves _ (mret _) => apply preserves_ret
  | |- preserves _ (mbind _ _) =>
      apply (preserves_bind _); [|intros ?]
  | |- preserves _ undefined => apply preserves_undefined
  | |- preserves _ (emit _) => apply (preserves_emit _ Hframe)
  | |- preserves _ (ConfigProblem _ _ _ _) => apply (preserves_emit _ Hframe)
  | |- preserves _ (gets _) => apply preserves_gets
  | |- preserves _ (when _ _) => apply (preserves_when _)
  | |- preserves _ (check_truncated _ _ _ _ _) => unfold check_truncated
  | |- preserves _ (GetLineDelim _) => apply (preserves_GetLineDelim _ Hframe)
  | |- preserves _ (upd_obj _ _) =>
      apply (preserves_upd_obj _ Halter); intros ?; reflexivity
  | |- preserves _ (modify _) =>
      apply (preserves_modify _ Hframe); intros ?; reflexivity
  | |- preserves _ (args_loop _ _ _) =>
      apply (preserves_args_loop _); intros ?
  | |- preserves _ (object_attr _ _ _ _) =>
      apply (preserves_object_attr _ Hframe); intros ? ?
  | |- preserves _ (if ?b then _ else _) => destruct b
  | |- preserves _ (match ?x with _ => _ end) => destruct x eqn:?
  | |- preserves _ _ => cbv zeta
  end.

Lemma Forall_alter_keep {A} (Q : A -> Prop) (f : A -> A) i (l : list A) :
  (forall x, Q x -> Q (f x)) -> Forall Q l -> Forall Q (alter f i l).
Proof.
  intros Hf Hl. apply Forall_lookup. intros k x Hk.
  rewrite list_lookup_alter in Hk.
  destruct (decide (i = k)) as [->|].
  - destruct (l !! k) as [y|] eqn:E; [|discriminate].
    injection Hk as <-. apply Hf. eapply Forall_lookup_1; eassumption.
  - eapply Forall_lookup_1; eassumption.
Qed.



(** *** The passes after the parsing loop keep IDs and priorities *)

Lemma fmap_alter_keep {A B} (g : A -> B) (f : A -> A) i (l : list A) :
  (forall x, g (f x) = g x) -> g <$> alter f i l = g <$> l.
Proof.
  intros Hf. apply list_eq. intros k.
  rewrite !list_lookup_fmap, list_lookup_alter.
  destruct (decide (i = k)) as [->|]; [|reflexivity].
  destruct (l !! k); simpl; [now rewrite Hf | reflexivity].
Qed.

Lemma fields_are_frame ids starts stops st st' :
  ObjectTable st' = ObjectTable st ->
  PriorityAliasTree st' = PriorityAliasTree st ->
  fields_are ids starts stops st -> fields_are ids starts stops st'.
Proof. unfold fields_are. now intros -> _. Qed.

Lemma fields_are_alter ids starts stops st i f :
  (forall o, ObjectID (f o) = ObjectID o) ->
  (forall o, ObjectStartPriority (f o) = ObjectStartPriority o) ->
  (forall o, ObjectStopPriority (f o) = ObjectStopPriority o) ->
  fields_are ids starts stops st ->
  fields_are ids starts stops
    (set_ObjectTable (alter f i (ObjectTable st)) st).
Proof.
  intros Hi Hs Hp (Ei & Es & Ep). unfold fields_are. simpl.
  now rewrite !fmap_alter_keep by assumption.
Qed.

Section NoWaitKeeps.
Context `{Platform}.

Lemma emulate_nowait_fields o o' :
  emulate_nowait o = Some o' ->
  ObjectID o' = ObjectID o
  /\ ObjectStartPriority o' = ObjectStartPriority o
  /\ ObjectStopPriority o' = ObjectStopPriority o.
Proof.
  unfold emulate_nowait.
  destruct (EmulNoWait (Opts o)); [|now intros [= <-]].
  destruct (ObjectStartCommand o); [now intros [= <-]|].
  destruct (last_nonblank _); [|discriminate].
  destruct (Ascii.eqb _ _); now intros [= <-].
Qed.

Lemma mapM_emulate_nowait_fields table table' :
  mapM emulate_nowait table = Some table' ->
  ObjectID <$> table' = ObjectID <$> table
  /\ ObjectStartPriority <$> table' = ObjectStartPriority <$> table
  /\ ObjectStopPriority <$> table' = ObjectStopPriority <$> table.
Proof.
  intros Hm. apply mapM_Some_1 in Hm.
  induction Hm as [|o o' table table' Ho _ IH]; [repeat split|].
  destruct (emulate_nowait_fields o o' Ho) as (Ei & Es & Ep).
  destruct IH as (IHi & IHs & IHp).
  rewrite !fmap_cons. now rewrite Ei, Es, Ep, IHi, IHs, IHp.
Qed.

End NoWaitKeeps.

Section ScanKeeps.
Context `{Platform}.
Variable ids : list string.
Variable starts stops : list Z.

Ltac keeps_fields :=
  repeat keep_step (fields_are_frame ids starts stops)
                   (fields_are_alter ids starts stops).

Lemma prompt_runlevel_fields fuel :
  preserves (fields_are ids starts stops) (prompt_runlevel fuel).
Proof.
  induction fuel as [|fuel IH]; cbn [prompt_runlevel]; keeps_fields.
  exact IH.
Qed.

Lemma scan_step_fields k cond ev repair r' r :
  (forall o, ObjectID (repair o) = ObjectID o) ->
  (forall o, ObjectStartPriority (repair o) = ObjectStartPriority o) ->
  (forall o, ObjectStopPriority (repair o) = ObjectStopPriority o) ->
  preserves (fields_are ids starts stops) (scan_step k cond ev repair r' r).
Proof.
  intros Hi Hs Hp. unfold scan_step. keeps_fields.
  now apply (preserves_upd_obj _ (fields_are_alter ids starts stops)).
Qed.

Lemma scan_duplicates_fields k id offenders :
  forall t r,
    preserves (fields_are ids starts stops)
      (scan_duplicates k t id offenders r).
Proof.
  induction offenders as [|o offenders IH]; intros t r;
    cbn [scan_duplicates]; keeps_fields; apply IH.
Qed.

Lemma scan_object_fields k r :
  preserves (fields_are ids starts stops) (scan_object k r).
Proof.
  unfold scan_object.
  repeat (apply (preserves_bind _);
          [apply scan_step_fields; reflexivity | intros ?]).
  keeps_fields. apply scan_duplicates_fields.
Qed.

Lemma scan_objects_fields n :
  forall k r, preserves (fields_are ids starts stops) (scan_objects n k r).
Proof.
  induction n as [|n IH]; intros k r; cbn [scan_objects];
    [apply preserves_ret|].
  apply (preserves_bind _); [apply scan_object_fields | intros r'; apply IH].
Qed.

(** [ScanConfigIntegrity] changes neither the IDs nor the priorities. *)
Lemma ScanConfigIntegrity_fields :
  preserves (fields_are ids starts stops) ScanConfigIntegrity.
Proof.
  unfold ScanConfigIntegrity. keeps_fields;
    first [apply scan_objects_fields | apply prompt_runlevel_fields].
Qed.

End ScanKeeps.

(** *** [InitConfig] *)

Lemma unique_nonzero_vals get table :
  (forall i j, (i < length (get <$> table))%nat ->
     (j < length (get <$> table))%nat -> i <> j ->
     val (get <$> table) i <> 0 ->
     val (get <$> table) i <> val (get <$> table) j) ->
  unique_nonzero get table.
Proof.
  intros Hu i j a b Hij Ha Hb Hnz.
  assert (Hi : (get <$> table) !! i = Some (get a))
    by now rewrite list_lookup_fmap, Ha.
  assert (Hj : (get <$> table) !! j = Some (get b))
    by now rewrite list_lookup_fmap, Hb.
  specialize (Hu i j (lookup_lt_Some _ _ _ Hi) (lookup_lt_Some _ _ _ Hj) Hij).
  unfold val in Hu. rewrite Hi, Hj in Hu. now apply Hu.
Qed.

Lemma bounded_vals (get : ObjTable -> Z) table :
  Forall (fun o => 0 <= get o <= LONG_MAX) table ->
  forall k, (k < length (get <$> table))%nat ->
    0 <= val (get <$> table) k <= LONG_MAX.
Proof.
  intros Hb k Hk. unfold val. rewrite list_lookup_fmap.
  destruct (table !! k) as [o|] eqn:Ho; simpl; [|unfold LONG_MAX; lia].
  rewrite Forall_forall in Hb. apply Hb. now apply list_elem_of_lookup_2 in Ho.
Qed.

(** The renumbering of a table whose priorities are values of a [long] and
    which has no more than 2^63 objects. *)
Lemma renumber_priorities_unique (get : ObjTable -> Z) table table' :
  Forall (fun o => 0 <= get o <= LONG_MAX) table ->
  Z.of_nat (length table) <= 2 ^ 63 ->
  get <$> table' = renumberZ (get <$> table) ->
  unique_nonzero get table'
  /\ (forall i o o', table !! i = Some o -> table' !! i = Some o' ->
        get o = 0 <-> get o' = 0).
Proof.
  intros Hb Hn Hf.
  destruct (renumberZ_unique LONG_MAX (get <$> table)) as (Hlen & Hz & Hu).
  - now apply bounded_vals.
  - rewrite length_fmap. unfold LONG_MAX, ULONG_MODULUS. lia.
  - split.
    + apply unique_nonzero_vals. rewrite Hf, Hlen. exact Hu.
    + intros i o o' Ho Ho'.
      assert (Hi : (get <$> table) !! i = Some (get o))
        by now rewrite list_lookup_fmap, Ho.
      assert (Hi' : (get <$> table') !! i = Some (get o'))
        by now rewrite list_lookup_fmap, Ho'.
      specialize (Hz i (lookup_lt_Some _ _ _ Hi)).
      rewrite <- Hf in Hz. unfold val in Hz. now rewrite Hi, Hi' in Hz.
Qed.

Section InitConfigFacts.
Context `{Platform}.

(** A run of [InitConfig] that does not return FAILURE: the table it leaves
    has the IDs of the parsed table, in their order, and the priorities that
    the renumbering of the parsed table gives. *)
Lemma InitConfig_table st r st' :
  InitConfig st = Some (r, st') -> r <> FAILURE ->
  exists bytes lc st1,
    ConfFile st = Some bytes
    /\ parse_lines (c_str bytes) st = Some (lc, st1)
    /\ ObjectID <$> ObjectTable st' = ObjectID <$> ObjectTable st1
    /\ ObjectStartPriority <$> ObjectTable st'
       = renumberZ (ObjectStartPriority <$> ObjectTable st1)
    /\ ObjectStopPriority <$> ObjectTable st'
       = renumberZ (ObjectStopPriority <$> ObjectTable st1).
Proof.
  intros Hrun Hr. unfold InitConfig in Hrun.
  apply bind_inv in Hrun as (conf & st0 & Hconf & Hrun).
  inversion Hconf; subst conf st0; clear Hconf.
  destruct (ConfFile st) as [bytes|] eqn:Hfile;
    [|inversion Hrun; subst; contradiction].
  destruct (orb _ _); [inversion Hrun; subst; contradiction|].
  apply bind_inv in Hrun as (lc & st1 & Hparse & Hrun).
  apply bind_inv in Hrun as (table & st0 & Htable & Hrun).
  inversion Htable; subst table st0; clear Htable.
  exists bytes, lc, st1. split; [reflexivity|]. split; [exact Hparse|].
  destruct (ObjectTable st1) as [|o table] eqn:Ht; [discriminate|].
  destruct (mapM emulate_nowait _) as [table'|] eqn:Hmap; [|discriminate].
  apply mapM_emulate_nowait_fields in Hmap as (Ei & Es & Ep).
  rewrite renumber_priorities_ids in Ei.
  destruct (renumber_priorities_fields (o :: table)) as [Rs Rp].
  rewrite Rs in Es. rewrite Rp in Ep.
  apply bind_inv in Hrun as ([] & st2 & Hset & Hrun).
  inversion Hset; subst st2; clear Hset.
  apply bind_inv in Hrun as ([] & st2 & Hwhen & Hrun).
  apply bind_inv in Hrun as ([] & st3 & Hshut & Hrun).
  inversion Hshut; subst st3; clear Hshut.
  apply bind_inv in Hrun as (r0 & st3 & Hscan & Hrun).
  assert (Hbefore : fields_are (ObjectID <$> (o :: table))
            (renumberZ (ObjectStartPriority <$> (o :: table)))
            (renumberZ (ObjectStopPriority <$> (o :: table)))
            (set_PriorityAliasTree [] st2)).
  { unfold when in Hwhen. destruct (LongComment lc);
      inversion Hwhen; subst st2; repeat split; assumption. }
  apply (ScanConfigIntegrity_fields _ _ _ _ _ _ Hscan) in Hbefore.
  destruct Hbefore as (Fi & Fs & Fp).
  destruct r0.
  - apply bind_inv in Hrun as ([] & st4 & _ & Hrun).
    apply bind_inv in Hrun as (c & st5 & _ & Hrun).
    apply bind_inv in Hrun as ([] & st6 & _ & Hrun).
    apply bind_inv in Hrun as ([] & st7 & _ & Hrun).
    inversion Hrun; subst. contradiction.
  - inversion Hrun; subst. now repeat split.
  - apply bind_inv in Hrun as ([] & st4 & Hemit & Hrun).
    inversion Hemit; subst st4. inversion Hrun; subst. now repeat split.
Qed.

(** X30.  When [InitConfig] returns SUCCESS or WARNING on a file whose
    priorities, as parsed, are values of a [long] that are not negative, no
    two objects of the table it leaves have the same start priority other
    than 0, no two have the same stop priority other than 0, and an object
    has the priority 0 exactly when the priority parsed for it was 0.  The
    table has the objects of the parsed table in their order, so an index
    designates the same object before and after.  The priorities are
    [unsigned long] counters: the statement is for a table of no more than
    2^63 objects, where the increments cannot wrap around. *)
Theorem InitConfig_priorities_unique st r st' :
  Forall bounded_obj (parsed_table st) ->
  InitConfig st = Some (r, st') ->
  r <> FAILURE ->
  Z.of_nat (length (ObjectTable st')) <= 2 ^ 63 ->
  unique_nonzero ObjectStartPriority (ObjectTable st')
  /\ unique_nonzero ObjectStopPriority (ObjectTable st')
  /\ ObjectID <$> ObjectTable st' = ObjectID <$> parsed_table st
  /\ (forall i o o',
        parsed_table st !! i = Some o -> ObjectTable st' !! i = Some o' ->
        (ObjectStartPriority o = 0 <-> ObjectStartPriority o' = 0)
        /\ (ObjectStopPriority o = 0 <-> ObjectStopPriority o' = 0)).
Proof.
  intros Hb Hrun Hr Hn.
  destruct (InitConfig_table st r st' Hrun Hr)
    as (bytes & lc & st1 & Hfile & Hparse & Ei & Es & Ep).
  assert (Hpt : parsed_table st = ObjectTable st1).
  { unfold parsed_table. now rewrite Hfile, Hparse. }
  rewrite Hpt in *.
  assert (Hlen : length (ObjectTable st') = length (ObjectTable st1)).
  { rewrite <- (length_fmap ObjectID), Ei. apply length_fmap. }
  rewrite Hlen in Hn.
  destruct (renumber_priorities_unique ObjectStartPriority
              (ObjectTable st1) (ObjectTable st')) as [Us Zs];
    [eapply Forall_impl; [exact Hb | intros o Ho; apply Ho] | exact Hn
    | exact Es |].
  destruct (renumber_priorities_unique ObjectStopPriority
              (ObjectTable st1) (ObjectTable st')) as [Up Zp];
    [eapply Forall_impl; [exact Hb | intros o Ho; apply Ho] | exact Hn
    | exact Ep |].
  split; [exact Us|]. split; [exact Up|]. split; [exact Ei|].
  intros i o o' Ho Ho'. split; [now apply (Zs i) | now apply (Zp i)].
Qed.

End InitConfigFacts.

(** The boot with [same_priority_conf]: the objects that shared a priority
    are moved apart, and the object without priorities is left alone. *)
Example same_priority_conf_renumbered :
  final_status (@InitConfig linux (boot same_priority_conf "")) = Some SUCCESS
  /\ (fun o => (ObjectID o, ObjectStartPriority o, ObjectStopPriority o))
       <$> @parsed_table linux (boot same_priority_conf "")
     = [("udev", 2, 3); ("dbus", 2, 3); ("net", 2, 4); ("motd", 0, 0)]
  /\ (fun o => (ObjectID o, ObjectStartPriority o, ObjectStopPriority o))
       <$> ObjectTable renumbered_state
     = [("udev", 2, 3); ("dbus", 4, 4); ("net", 3, 5); ("motd", 0, 0)].
Proof. repeat split; vm_compute; reflexivity. Qed.

(** A witness of X30: the boot with [same_priority_conf]. *)
Lemma InitConfig_priorities_unique_witness :
  unique_nonzero ObjectStartPriority (ObjectTable renumbered_state)
  /\ unique_nonzero ObjectStopPriority (ObjectTable renumbered_state)
  /\ ObjectID <$> ObjectTable renumbered_state
     = ObjectID <$> @parsed_table linux (boot same_priority_conf "")
  /\ (forall i o o',
        @parsed_table linux (boot same_priority_conf "") !! i = Some o ->
        ObjectTable renumbered_state !! i = Some o' ->
        (ObjectStartPriority o = 0 <-> ObjectStartPriority o' = 0)
        /\ (ObjectStopPriority o = 0 <-> ObjectStopPriority o' = 0)).
Proof.
  apply (@InitConfig_priorities_unique linux (boot same_priority_conf "")
           SUCCESS renumbered_state).
  - apply (proj1 (Forall_fmap
                    (fun o => (ObjectStartPriority o, ObjectStopPriority o))
                    (fun p => 0 <= p.1 <= LONG_MAX /\ 0 <= p.2 <= LONG_MAX) _)).
    replace ((fun o => (ObjectStartPriority o, ObjectStopPriority o))
               <$> @parsed_table linux (boot same_priority_conf ""))
      with [(2, 3); (2, 3); (2, 4); (0, 0)] by (vm_compute; reflexivity).
    unfold LONG_MAX. repeat constructor; simpl; lia.
  - vm_compute. reflexivity.
  - discriminate.
  - vm_compute. discriminate.
Defined.

(** C2.  The renumbering does not keep what it is written for when a
    priority of the file is above [INT_MAX].  [wrapped_priority_conf] gives
    two objects the start priority 4294967295 and declares 0 for the third.
    [atoi] answers -1, the [unsigned long] field holds 2^64 - 1, and the
    increment that moves the second object away from the first wraps around
    to 0; every other object whose priority is at least that 0 is then
    incremented.  [InitConfig] returns SUCCESS, the object that was declared
    without start priority is published with the start priority 1, and the
    second object is published without one. *)
Theorem InitConfig_wrapped_priority_shifts_zero :
  final_status (@InitConfig linux (boot wrapped_priority_conf "")) = Some SUCCESS
  /\ (fun o => (ObjectID o, ObjectStartPriority o, ObjectStopPriority o))
       <$> @parsed_table linux (boot wrapped_priority_conf "")
     = [("net", 2 ^ 64 - 1, 1); ("log", 2 ^ 64 - 1, 2); ("motd", 0, 0)]
  /\ (fun o => (ObjectID o, ObjectStartPriority o, ObjectStopPriority o))
       <$> ObjectTable wrapped_state
     = [("net", 2 ^ 64 - 1, 1); ("log", 0, 2); ("motd", 1, 0)]
  /\ ~ (forall i o o',
          @parsed_table linux (boot wrapped_priority_conf "") !! i = Some o ->
          ObjectTable wrapped_state !! i = Some o' ->
          ObjectStartPriority o = 0 -> ObjectStartPriority o' = 0).
Proof.
  assert (Hp : (fun o => (ObjectID o, ObjectStartPriority o, ObjectStopPriority o))
                 <$> @parsed_table linux (boot wrapped_priority_conf "")
               = [("net", 2 ^ 64 - 1, 1); ("log", 2 ^ 64 - 1, 2); ("motd", 0, 0)])
    by (vm_compute; reflexivity).
  assert (Ht : (fun o => (ObjectID o, ObjectStartPriority o, ObjectStopPriority o))
                 <$> ObjectTable wrapped_state
               = [("net", 2 ^ 64 - 1, 1); ("log", 0, 2); ("motd", 1, 0)])
    by (vm_compute; reflexivity).
  split; [vm_compute; reflexivity|]. split; [exact Hp|]. split; [exact Ht|].
  remember (@parsed_table linux (boot wrapped_priority_conf "")) as t eqn:Et.
  remember (ObjectTable wrapped_state) as t' eqn:Et'. clear Et Et'.
  intros Hkeep.
  destruct t as [|a [|b [|c t]]]; try discriminate Hp.
  destruct t' as [|a' [|b' [|c' t']]]; try discriminate Ht.
  injection Hp as _ _ _ _ _ _ _ Hc _. injection Ht as _ _ _ _ _ _ _ Hc' _.
  specialize (Hkeep 2%nat c c' eq_refl eq_refl Hc). lia.
Qed.

(** * Further properties of [config.c] *)

(** ** [NextLine] and [WhitespaceArg] *)

Lemma until_from stop s : until stop s +:+ from stop s = s.
Proof.
  induction s as [|c s IH]; simpl; [reflexivity|].
  destruct (stop c); simpl; [reflexivity | now rewrite IH].
Qed.

Lemma until_is_free stop s : free_of stop (until stop s).
Proof.
  induction s as [|c s IH]; simpl; [reflexivity|].
  destruct (stop c) eqn:Hc; [reflexivity|].
  apply free_of_cons. now split.
Qed.

Lemma blank_run_skip s : blank_run s +:+ skip_blanks s = s.
Proof.
  induction s as [|c s IH]; simpl; [reflexivity|].
  destruct (is_blank c); simpl; [now rewrite IH | reflexivity].
Qed.

Lemma all_blank_run s : all_blank (blank_run s) = true.
Proof.
  induction s as [|c s IH]; simpl; [reflexivity|].
  destruct (is_blank c) eqn:Hc; simpl; [now rewrite Hc | reflexivity].
Qed.

Lemma skip_blanks_start s c r :
  skip_blanks s = String c r -> is_blank c = false.
Proof.
  induction s as [|d s IH]; simpl; [discriminate|].
  destruct (is_blank d) eqn:Hd; [exact IH | now intros [= <- _]].
Qed.

Lemma blank_not_nl c : is_blank c = true -> Ascii.eqb c NL = false.
Proof.
  unfold is_blank. intros [Hc|Hc]%orb_true_iff;
    apply Ascii.eqb_eq in Hc; subst c; reflexivity.
Qed.

(** X1.  [NextLine] answers with the stream right after the first newline,
    and with NULL exactly when the stream has no newline or nothing follows
    the first one: the line it returns is never empty at the end of the
    stream. *)
Theorem NextLine_after_first_newline s t :
  NextLine s = Some t <->
  t <> EmptyString
  /\ exists pre, free_of stop_nl pre /\ s = pre +:+ String NL t.
Proof.
  split.
  - induction s as [|c s IH]; simpl; [discriminate|].
    destruct (Ascii.eqb c NL) eqn:Hc.
    + apply Ascii.eqb_eq in Hc. subst c.
      destruct s as [|d s]; [discriminate|]. intros [= <-].
      split; [discriminate|]. now exists EmptyString.
    + intros Ht. destruct (IH Ht) as (Hne & pre & Hpre & ->).
      split; [assumption|]. exists (String c pre).
      split; [|reflexivity]. apply free_of_cons. now split.
  - intros (Hne & pre & Hpre & ->).
    induction pre as [|c pre IH]; simpl.
    + now destruct t.
    + apply free_of_cons in Hpre as [Hc Hpre].
      unfold stop_nl in Hc. rewrite Hc. auto.
Qed.

(** X2.  [WhitespaceArg] answers with the next argument of the line: it
    steps over what is left of the current word and over the run of blanks
    behind it, and returns the stream there when a byte other than a blank
    and a newline follows.  It returns NULL in every other case, so it never
    leaves the line and never returns a position it was given. *)
Theorem WhitespaceArg_next_argument s t :
  WhitespaceArg s = Some t <->
  exists w b c t',
    s = w +:+ b +:+ t /\ free_of stop_word w
    /\ b <> EmptyString /\ all_blank b = true
    /\ t = String c t' /\ stop_word c = false.
Proof.
  unfold WhitespaceArg. split.
  - destruct (at_eol (from stop_word s)) eqn:E1; [discriminate|].
    destruct (at_eol (skip_blanks (from stop_word s))) eqn:E2; [discriminate|].
    intros [= <-].
    destruct (skip_blanks (from stop_word s)) as [|c t'] eqn:Et;
      [discriminate|].
    exists (until stop_word s), (blank_run (from stop_word s)), c, t'.
    split; [|split; [apply until_is_free|split; [|split; [apply all_blank_run|]]]].
    + rewrite <- Et, blank_run_skip. symmetry. apply until_from.
    + destruct (from stop_word s) as [|d r] eqn:Ef; [discriminate|].
      simpl in E1. simpl.
      assert (Hd : stop_word d = true).
      { destruct s as [|x s]; [discriminate|].
        clear -Ef. revert x Ef. induction s as [|y s IH]; intros x; simpl.
        - destruct (stop_word x) eqn:Hx; [now intros [= <- _] | discriminate].
        - destruct (stop_word x) eqn:Hx; [now intros [= <- _]|]. apply IH. }
      unfold stop_word in Hd. rewrite E1, orb_false_r in Hd. now rewrite Hd.
    + split; [reflexivity|]. unfold stop_word.
      rewrite (skip_blanks_start _ _ _ Et). exact E2.
  - intros (w & b & c & t' & -> & Hw & Hne & Hb & -> & Hc).
    rewrite from_app by assumption.
    destruct b as [|d b]; [congruence|]. simpl in Hb.
    apply andb_true_iff in Hb as [Hd Hb].
    assert (Hstop : stop_word d = true) by (unfold stop_word; now rewrite Hd).
    simpl. rewrite Hstop. simpl. rewrite (blank_not_nl _ Hd), Hd.
    rewrite skip_blanks_app by assumption.
    unfold stop_word in Hc. apply orb_false_elim in Hc as [Hc1 Hc2].
    cbn [skip_blanks]. rewrite Hc1. cbn [at_eol]. now rewrite Hc2.
Qed.

(** ** [GetLineDelim] *)

Lemma no_separator_line s :
  at_eol (from stop_key s) = true <-> free_of stop_key (line_of s).
Proof.
  unfold line_of. induction s as [|c s IH]; simpl; [now split|].
  unfold stop_nl at 1.
  destruct (Ascii.eqb c NL) eqn:Hnl.
  - unfold stop_key. rewrite Hnl, orb_true_r. simpl. now rewrite Hnl.
  - destruct (stop_key c) eqn:Hk.
    + simpl. rewrite Hnl. split; [discriminate|].
      intros [Hc _]%free_of_cons. congruence.
    + rewrite IH. rewrite free_of_cons. tauto.
Qed.

Lemma stake_length n s : (String.length (stake n s) <= n)%nat.
Proof.
  revert s; induction n as [|n IH]; intros [|c s]; simpl; try lia.
  specialize (IH s). lia.
Qed.

Lemma stake_free stop n s : free_of stop s -> free_of stop (stake n s).
Proof.
  revert s; induction n as [|n IH]; intros [|c s]; simpl; try reflexivity.
  intros [Hc Hs]%free_of_cons. apply free_of_cons. auto.
Qed.

Section GetLineDelimFacts.
Context `{Platform}.

(** X3.  [GetLineDelim] fails exactly on a line that has neither a blank nor
    an ['='] on it: it then prints one diagnostic and changes nothing else.
    On every other line it succeeds without touching the state, and the value
    it stores has no newline in it and fits [MAX_LINE_SIZE] with its
    terminator. *)
Theorem GetLineDelim_outcomes InStream st :
  (free_of stop_key (line_of InStream) ->
   (String.length (line_of InStream) < 1024)%nat ->
   GetLineDelim InStream st
   = Some (None,
           set_Console (EvNoParameter (line_of InStream) :: Console st) st))
  /\ (~ free_of stop_key (line_of InStream) ->
      exists value,
        GetLineDelim InStream st = Some (Some value, st)
        /\ free_of stop_nl value
        /\ (String.length value <= MAX_LINE_SIZE - 1)%nat).
Proof.
  unfold GetLineDelim. split.
  - intros Hfree Hlen. apply no_separator_line in Hfree. rewrite Hfree.
    destruct (1024 <=? _)%nat eqn:E; [apply Nat.leb_le in E; lia|].
    reflexivity.
  - intros Hsep. rewrite <- no_separator_line in Hsep.
    apply not_true_is_false in Hsep. rewrite Hsep.
    eexists. split; [reflexivity|]. split.
    + apply stake_free. apply until_is_free.
    + apply stake_length.
Qed.

(** X4.  The separator of a line is a run of blanks or one ['='], not
    both.  After a run of blanks the value begins at the first byte that is
    not a blank, an ['='] included; after an ['='] the value begins at once,
    blanks included, and may be empty.  The value ends at the newline and is
    cut to [MAX_LINE_SIZE - 1] bytes. *)
Theorem GetLineDelim_separator key value rest st :
  free_of stop_key key -> free_of stop_nl value ->
  (forall b, b <> EmptyString -> all_blank b = true ->
     GetLineDelim (key +:+ b +:+ value +:+ String NL rest) st
     = Some (Some (stake (MAX_LINE_SIZE - 1) (skip_blanks value)), st))
  /\ GetLineDelim (key +:+ "=" +:+ value +:+ String NL rest) st
     = Some (Some (stake (MAX_LINE_SIZE - 1) value), st).
Proof.
  intros Hkey Hval. unfold GetLineDelim. split.
  - intros b Hne Hb. rewrite from_app by assumption.
    destruct b as [|d b]; [congruence|]. simpl in Hb.
    apply andb_true_iff in Hb as [Hd Hb].
    assert (Hstop : stop_key d = true) by (unfold stop_key; now rewrite Hd).
    assert (Heq : Ascii.eqb d "=" = false).
    { unfold is_blank in Hd. apply orb_true_iff in Hd as [Hd|Hd];
        apply Ascii.eqb_eq in Hd; subst d; reflexivity. }
    simpl. rewrite Hstop. simpl. rewrite (blank_not_nl _ Hd), Heq, Hd.
    rewrite skip_blanks_app by assumption.
    do 3 f_equal. unfold line_of. clear -Hval.
    induction value as [|c value IH]; [reflexivity|].
    apply free_of_cons in Hval as [Hc Hv]. simpl.
    destruct (is_blank c); [auto|]. simpl. rewrite Hc.
    now rewrite until_app, append_nil_r by assumption.
  - rewrite from_app by assumption. simpl. unfold line_of.
    now rewrite until_app, append_nil_r by assumption.
Qed.

End GetLineDelimFacts.

(** Witnesses of X3 and X4 on Linux. *)
Lemma GetLineDelim_outcomes_witness :
  @GetLineDelim linux "ObjectID" (boot "" "")
  = Some (None, set_Console [EvNoParameter "ObjectID"] (boot "" "")).
Proof.
  apply (proj1 (@GetLineDelim_outcomes linux "ObjectID" (boot "" "")));
    [reflexivity | simpl; lia].
Defined.

Lemma GetLineDelim_separator_witness :
  @GetLineDelim linux
    ("ObjectDescription" +:+ "=" +:+ " two words" +:+ String NL "")
    (boot "" "")
  = Some (Some (stake (@MAX_LINE_SIZE linux - 1) " two words"), boot "" "").
Proof.
  apply (proj2 (@GetLineDelim_separator linux "ObjectDescription"
                  " two words" "" (boot "" "") eq_refl eq_refl)).
Defined.

(** ** The runlevels of an object *)

Lemma has_runlevel_app R rls x :
  has_runlevel R (rls ++ [x]) = has_runlevel R rls || strcmp_eq x R.
Proof.
  induction rls as [|r rls IH]; simpl.
  - now destruct (strcmp_eq x R).
  - destruct (strcmp_eq r R); [reflexivity | exact IH].
Qed.

Lemma del_first_absent R rls : R ∉ rls -> del_first R rls = None.
Proof.
  induction rls as [|r rls IH]; [reflexivity|].
  intros Hin. apply not_elem_of_cons in Hin as [Hne Hin]. simpl.
  destruct (strcmp_eq R r) eqn:E; [apply strcmp_eq_true in E; congruence|].
  now rewrite IH.
Qed.

Lemma del_first_present R pre post :
  R ∉ pre -> del_first R (pre ++ R :: post) = Some (pre ++ post).
Proof.
  induction pre as [|r pre IH]; simpl.
  - intros _. unfold strcmp_eq. now rewrite String.eqb_refl.
  - intros Hin. apply not_elem_of_cons in Hin as [Hne Hin].
    destruct (strcmp_eq R r) eqn:E; [apply strcmp_eq_true in E; congruence|].
    now rewrite IH.
Qed.

Section RunlevelFacts.
Context `{Platform}.

(** X5.  After [ObjRL_AddRunlevel] the object is in the runlevel it was
    given, as stored: [ObjRL_CheckRunlevel] answers true for the name cut to
    [MAX_DESCRIPT_SIZE - 1] bytes, and for every other name it answers what
    it answered before. *)
Theorem ObjRL_AddRunlevel_CheckRunlevel tree R R' o :
  ObjRL_CheckRunlevel tree R' (ObjRL_AddRunlevel R o) false
  = if strcmp_eq (snprintf_s MAX_DESCRIPT_SIZE R) R' then 1
    else ObjRL_CheckRunlevel tree R' o false.
Proof.
  unfold ObjRL_CheckRunlevel, ObjRL_AddRunlevel.
  change (ObjectRunlevels (set_ObjectRunlevels ?l o)) with l.
  set (x := snprintf_s MAX_DESCRIPT_SIZE R).
  pose proof (has_runlevel_app R' (ObjectRunlevels o) x) as Happ.
  destruct (ObjectRunlevels o ++ [x]) as [|y l] eqn:El.
  - now destruct (ObjectRunlevels o).
  - rewrite Happ. simpl.
    destruct (ObjectRunlevels o) as [|r rls]; simpl;
      destruct (strcmp_eq x R'); try reflexivity.
    + now destruct (if strcmp_eq r R' then true else has_runlevel R' rls).
    + now rewrite orb_false_r.
Qed.

(** X6.  [ObjRL_DelRunlevel] answers false and leaves the object alone when
    the runlevel is not in its list; otherwise it answers true and unlinks
    the first node that holds the runlevel, and that node only. *)
Theorem ObjRL_DelRunlevel_first_occurrence R o :
  (R ∉ ObjectRunlevels o -> ObjRL_DelRunlevel R o = (false, o))
  /\ (forall pre post,
        ObjectRunlevels o = pre ++ R :: post -> R ∉ pre ->
        ObjRL_DelRunlevel R o = (true, set_ObjectRunlevels (pre ++ post) o)).
Proof.
  unfold ObjRL_DelRunlevel. split.
  - intros Hin. now rewrite del_first_absent.
  - intros pre post -> Hpre. now rewrite del_first_present.
Qed.

(** X7.  Adding a runlevel that the object does not have and deleting it
    again gives the object back, for a name that fits the buffer. *)
Theorem ObjRL_DelRunlevel_AddRunlevel R o :
  R ∉ ObjectRunlevels o ->
  (String.length R < MAX_DESCRIPT_SIZE)%nat ->
  ObjRL_DelRunlevel R (ObjRL_AddRunlevel R o) = (true, o).
Proof.
  intros Hin Hlen. unfold ObjRL_DelRunlevel, ObjRL_AddRunlevel.
  change (ObjectRunlevels (set_ObjectRunlevels ?l o)) with l.
  unfold snprintf_s. rewrite stake_all by lia.
  rewrite del_first_present by assumption. rewrite app_nil_r.
  now destruct o.
Qed.

(** X8.  [ObjRL_ValidRunlevel] accepts a runlevel exactly when some object
    of the table that is not halt-only lists it or lists a runlevel that it
    inherits: a runlevel used by halt-only objects alone is not valid. *)
Theorem ObjRL_ValidRunlevel_spec tree table R :
  ObjRL_ValidRunlevel tree table R = true <->
  exists o, o ∈ table /\ HaltCmdOnly (Opts o) = false
    /\ (R ∈ ObjectRunlevels o
        \/ exists r, r ∈ ObjectRunlevels o /\ (R, r) ∈ tree).
Proof.
  assert (Hcheck : forall o,
            negb (ObjRL_CheckRunlevel tree R o true =? 0) = true <->
            (R ∈ ObjectRunlevels o
             \/ exists r, r ∈ ObjectRunlevels o /\ (R, r) ∈ tree)).
  { intros o. unfold ObjRL_CheckRunlevel.
    destruct (ObjectRunlevels o) as [|x rls] eqn:Erl.
    - split; [discriminate|].
      intros [Hin | (r & Hin & _)]; inversion Hin.
    - rewrite <- has_runlevel_spec, <- inherits_any_spec.
      generalize (has_runlevel R (x :: rls)) (inherits_any tree R (x :: rls)).
      intros [] []; simpl; split; auto; try discriminate;
        intros [?|?]; congruence. }
  induction table as [|x table IH]; simpl.
  - split; [discriminate | intros (o & Hin & _); inversion Hin].
  - destruct (negb (HaltCmdOnly (Opts x))
              && negb (ObjRL_CheckRunlevel tree R x true =? 0)) eqn:E.
    + apply andb_true_iff in E as [Hh Hc]. apply negb_true_iff in Hh.
      split; [intros _ | reflexivity].
      exists x. split; [left|]. split; [assumption | now apply Hcheck].
    + rewrite IH. split.
      * intros (o & Hin & Ho). exists o. split; [now right | assumption].
      * intros (o & Hin & Hh & Ho). apply elem_of_cons in Hin as [->|Hin].
        -- apply Hcheck in Ho. rewrite Hh, Ho in E. discriminate.
        -- now exists o.
Qed.

End RunlevelFacts.

(** A witness of X7 on Linux. *)
Lemma ObjRL_DelRunlevel_AddRunlevel_witness :
  @ObjRL_DelRunlevel "rescue" (@ObjRL_AddRunlevel linux "rescue" halt_object)
  = (true, halt_object).
Proof.
  apply (@ObjRL_DelRunlevel_AddRunlevel linux "rescue" halt_object).
  - intros Hin. apply list_elem_of_singleton in Hin. discriminate.
  - simpl. lia.
Defined.

(** A witness of X6: the first of two nodes for "default" goes. *)
Lemma ObjRL_DelRunlevel_first_occurrence_witness :
  ObjRL_DelRunlevel "default"
    (set_ObjectRunlevels ["base"; "default"; "net"; "default"] halt_object)
  = (true, set_ObjectRunlevels ["base"; "net"; "default"] halt_object).
Proof.
  apply (proj2 (ObjRL_DelRunlevel_first_occurrence "default"
                  (set_ObjectRunlevels ["base"; "default"; "net"; "default"]
                     halt_object))
           ["base"] ["net"; "default"] eq_refl).
  intros Hin. apply list_elem_of_singleton in Hin. discriminate.
Defined.

(** ** Priority aliases *)

(** X9.  [PriorityAlias_Add] binds an alias once: a second definition of
    an alias is dropped, and [PriorityAlias_Lookup] answers with the target
    of the first.  The lookup of every other alias is what it was. *)
Theorem PriorityAlias_Add_first_wins tree A Target A' :
  PriorityAlias_Lookup (PriorityAlias_Add A Target tree) A'
  = if strcmp_eq A A' && negb (alias_known tree A) then Target
    else PriorityAlias_Lookup tree A'.
Proof.
  unfold PriorityAlias_Add. destruct (alias_known tree A) eqn:Hk.
  - now rewrite andb_false_r.
  - rewrite andb_true_r.
    induction tree as [|[a t] tree IH]; simpl in *.
    + now destruct (strcmp_eq A A').
    + destruct (strcmp_eq a A) eqn:Ea; [discriminate|].
      destruct (strcmp_eq a A') eqn:Ea'; [|auto].
      destruct (strcmp_eq A A') eqn:EA; [|reflexivity].
      apply strcmp_eq_true in EA. subst A'. congruence.
Qed.

(** ** The object table *)

Lemma lookup_from_app b table x id :
  lookup_from b (table ++ [x]) id
  = match lookup_from b table id with
    | Some k => Some k
    | None => if strcmp_eq (ObjectID x) id then Some (b + length table)%nat
              else None
    end.
Proof.
  revert b. induction table as [|y table IH]; intros b; simpl.
  - destruct (strcmp_eq (ObjectID x) id); [f_equal; lia | reflexivity].
  - destruct (strcmp_eq (ObjectID y) id); [reflexivity|].
    rewrite IH. destruct (lookup_from (S b) table id); [reflexivity|].
    destruct (strcmp_eq (ObjectID x) id); [f_equal; lia | reflexivity].
Qed.

Lemma lookup_from_None b table id :
  lookup_from b table id = None <-> forall o, o ∈ table -> ObjectID o <> id.
Proof.
  revert b. induction table as [|x table IH]; intros b; simpl.
  - split; [intros _ o Hin; inversion Hin | reflexivity].
  - destruct (strcmp_eq (ObjectID x) id) eqn:E.
    + apply strcmp_eq_true in E. split; [discriminate|].
      intros Hall. exfalso. apply (Hall x); [left | assumption].
    + apply strcmp_eq_false in E. rewrite IH. split.
      * intros Hall o [->|Hin]%elem_of_cons; auto.
      * intros Hall o Hin. apply Hall. now right.
Qed.

Lemma lookup_from_first b table id i :
  lookup_from b table id = Some i <->
  exists k o, i = (b + k)%nat /\ table !! k = Some o /\ ObjectID o = id
    /\ forall j o', (j < k)%nat -> table !! j = Some o' -> ObjectID o' <> id.
Proof.
  revert b; induction table as [|x table IH]; intros b; simpl.
  - split; [discriminate | intros (k & o & _ & Hk & _); discriminate].
  - destruct (strcmp_eq (ObjectID x) id) eqn:Ex.
    + apply strcmp_eq_true in Ex. split.
      * intros [= <-]. exists 0%nat, x. repeat split; auto with lia.
      * intros (k & o & -> & Hk & Ho & Hfirst).
        destruct k as [|k]; [f_equal; lia|].
        now specialize (Hfirst 0%nat x ltac:(lia) eq_refl).
    + apply strcmp_eq_false in Ex. rewrite IH. split.
      * intros (k & o & -> & Hk & Ho & Hfirst).
        exists (S k), o. repeat split; auto with lia.
        intros [|j] o' Hj Hl; simpl in Hl; [congruence|].
        apply (Hfirst j); [lia | assumption].
      * intros (k & o & -> & Hk & Ho & Hfirst).
        destruct k as [|k]; simpl in Hk; [congruence|].
        exists k, o. repeat split; auto with lia.
        intros j o' Hj Hl. apply (Hfirst (S j)); [lia | assumption].
Qed.

(** X10.  [LookupObjectInTable] returns the first node of the table that
    has the ID, and NULL exactly when no node has it: of two objects with one
    ID the second cannot be reached by its ID. *)
Theorem LookupObjectInTable_first table id :
  (forall i,
     LookupObjectInTable table id = Some i <->
     (exists o, table !! i = Some o /\ ObjectID o = id)
     /\ (forall j o', (j < i)%nat -> table !! j = Some o' ->
           ObjectID o' <> id))
  /\ (LookupObjectInTable table id = None <->
      forall o, o ∈ table -> ObjectID o <> id).
Proof.
  unfold LookupObjectInTable. split; [|apply lookup_from_None].
  intros i. rewrite lookup_from_first. split.
  - intros (k & o & -> & Hk & Ho & Hfirst). simpl. split; [now exists o|].
    exact Hfirst.
  - intros [(o & Hi & Ho) Hfirst]. now exists i, o.
Qed.

Section TableFacts.
Context `{Platform}.

(** X11.  [AddObjectToTable] puts a node with the defaults at the end of the
    table and returns it.  [LookupObjectInTable] finds a node that it found
    before where it was; the new node is found by its ID, cut to
    [MAX_DESCRIPT_SIZE - 1] bytes, only when no earlier node has that ID. *)
Theorem AddObjectToTable_LookupObjectInTable id id' st :
  exists i st',
    AddObjectToTable id st = Some (i, st')
    /\ ObjectTable st' !! i = Some (new_object id)
    /\ length (ObjectTable st') = S (length (ObjectTable st))
    /\ (forall k, (k < i)%nat -> ObjectTable st' !! k = ObjectTable st !! k)
    /\ LookupObjectInTable (ObjectTable st') id'
       = match LookupObjectInTable (ObjectTable st) id' with
         | Some k => Some k
         | None =>
             if strcmp_eq (snprintf_s MAX_DESCRIPT_SIZE id) id' then Some i
             else None
         end.
Proof.
  exists (length (ObjectTable st)),
         (set_ObjectTable (ObjectTable st ++ [new_object id]) st).
  split; [reflexivity|]. simpl. split; [|split; [|split]].
  - rewrite lookup_app_r by lia. now rewrite Nat.sub_diag.
  - rewrite length_app. simpl. lia.
  - intros k Hk. now rewrite lookup_app_l.
  - unfold LookupObjectInTable. now rewrite lookup_from_app.
Qed.

End TableFacts.

Lemma fold_max_ge (f : ObjTable -> Z) table acc :
  acc <= fold_left (fun m o => if m <? f o then f o else m) table acc
  /\ (forall o, o ∈ table ->
        f o <= fold_left (fun m o => if m <? f o then f o else m) table acc)
  /\ (fold_left (fun m o => if m <? f o then f o else m) table acc = acc
      \/ exists o, o ∈ table
           /\ f o = fold_left (fun m o => if m <? f o then f o else m) table acc).
Proof.
  revert acc. induction table as [|x table IH]; intros acc; simpl.
  - split; [lia|]. split; [intros o Hin; inversion Hin | now left].
  - destruct (IH (if acc <? f x then f x else acc)) as (Hge & Hall & Hatt).
    assert (Hstep : acc <= (if acc <? f x then f x else acc)
                    /\ f x <= (if acc <? f x then f x else acc))
      by (destruct (Z.ltb_spec acc (f x)); lia).
    split; [lia|]. split.
    + intros o [->|Hin]%elem_of_cons; [lia | auto].
    + destruct Hatt as [Heq | (o & Hin & Ho)].
      * rewrite Heq. destruct (Z.ltb_spec acc (f x)); [|now left].
        right. exists x. split; [left | reflexivity].
      * right. exists o. split; [now right | assumption].
Qed.

(** X12.  [GetHighestPriority] is the largest priority of the table for the
    phase: no object has a higher one, and the answer is 0, as for an empty
    table, or the priority of some object. *)
Theorem GetHighestPriority_is_maximum table w :
  (forall o, o ∈ table -> phase_priority w o <= GetHighestPriority table w)
  /\ 0 <= GetHighestPriority table w
  /\ (GetHighestPriority table w = 0
      \/ exists o, o ∈ table
           /\ phase_priority w o = GetHighestPriority table w).
Proof.
  destruct (fold_max_ge (phase_priority w) table 0) as (Hge & Hall & Hatt).
  unfold GetHighestPriority. split; [exact Hall|]. split; [exact Hge|].
  exact Hatt.
Qed.

(** X13.  In a table without duplicate priorities for the phase, the lookup
    by priority with a NULL runlevel returns the one object that has the
    priority asked for, when that is not 0; and the priority is no higher
    than [GetHighestPriority], so a scan of the priorities from 1 up to that
    bound meets every object that has one. *)
Theorem GetObjectByPriority_unique st w p i o :
  unique_nonzero (phase_priority w) (ObjectTable st) ->
  ObjectTable st !! i = Some o ->
  phase_priority w o = p -> p <> 0 ->
  GetObjectByPriority st None w p = Some i
  /\ p <= GetHighestPriority (ObjectTable st) w.
Proof.
  intros Hu Hi Hp Hnz. split.
  - unfold GetObjectByPriority. apply by_priority_from_first.
    exists i, o. split; [reflexivity|]. split; [assumption|]. split.
    + unfold priority_match. simpl. apply Z.eqb_eq. exact Hp.
    + intros j o' Hj Hl. unfold priority_match. simpl. apply Z.eqb_neq.
      fold (phase_priority w o'). intros Heq.
      assert (Hnz' : phase_priority w o <> 0) by now rewrite Hp.
      apply (Hu i j o o' ltac:(lia) Hi Hl Hnz'). now rewrite Hp, Heq.
  - rewrite <- Hp.
    destruct (fold_max_ge (phase_priority w) (ObjectTable st) 0)
      as (_ & Hall & _).
    unfold GetHighestPriority. apply Hall.
    now apply list_elem_of_lookup_2 in Hi.
Qed.

(** A witness of X13: the table that the boot with [same_priority_conf]
    leaves, in which the start priority 4 is that of the second object. *)
Lemma GetObjectByPriority_unique_witness :
  GetObjectByPriority renumbered_state None true 4 = Some 1%nat
  /\ 4 <= GetHighestPriority (ObjectTable renumbered_state) true.
Proof.
  assert (Ho : exists o, ObjectTable renumbered_state !! 1%nat = Some o
                         /\ phase_priority true o = 4)
    by (vm_compute; eexists; split; reflexivity).
  destruct Ho as (o & Ho & Hp).
  apply (GetObjectByPriority_unique renumbered_state true 4 1%nat o);
    [|exact Ho|exact Hp|discriminate].
  intros i j a b Hij Ha Hb Hnz.
  assert (Hlen : length (ObjectTable renumbered_state) = 4%nat)
    by (vm_compute; reflexivity).
  pose proof (lookup_lt_Some _ _ _ Ha) as Hi.
  pose proof (lookup_lt_Some _ _ _ Hb) as Hj.
  rewrite Hlen in Hi, Hj.
  destruct i as [|[|[|[|i]]]]; try lia;
    destruct j as [|[|[|[|j]]]]; try lia;
    vm_compute in Ha, Hb; injection Ha as <-; injection Hb as <-;
    vm_compute; discriminate.
Defined.

(** ** [ScanConfigIntegrity] and the returns of [InitConfig] *)

Lemma is_empty_false s : is_empty s = false <-> s <> EmptyString.
Proof. destruct s; simpl; split; congruence. Qed.

Section ScanFacts.
Context `{Platform}.

Lemma scan_step_SUCCESS k cond ev repair r' r st st' :
  r' <> SUCCESS ->
  scan_step k cond ev repair r' r st = Some (SUCCESS, st') ->
  r = SUCCESS /\ st' = st
  /\ forall W, ObjectTable st !! k = Some W -> cond W = false.
Proof.
  intros Hr'. unfold scan_step, mbind, M_bind, gets.
  destruct (ObjectTable st !! k) as [W|] eqn:HW.
  - destruct (cond W) eqn:Hc.
    + unfold emit, upd_obj, modify, mret, M_ret. intros [= E _]. congruence.
    + intros [= -> <-]. repeat split. intros W' [= <-]. exact Hc.
  - intros [= -> <-]. repeat split. discriminate.
Qed.

Lemma scan_duplicates_SUCCESS k id offenders :
  forall t r st st',
    scan_duplicates k t id offenders r st = Some (SUCCESS, st') ->
    r = SUCCESS /\ st' = st
    /\ forall j o, offenders !! j = Some o -> (t + j)%nat <> k ->
                   ObjectID o <> id.
Proof.
  induction offenders as [|x offenders IH]; intros t r st st';
    cbn [scan_duplicates].
  - intros [= -> <-]. repeat split. discriminate.
  - destruct (strcmp_eq id (ObjectID x) && negb (k =? t)%nat) eqn:E.
    + intros Hm. apply bind_inv in Hm as ([] & st1 & _ & Hm).
      apply IH in Hm as (Hr & _). discriminate.
    + intros Hm. apply IH in Hm as (-> & -> & Hrest). repeat split.
      intros [|j] o Ho Hne; simpl in Ho.
      * injection Ho as <-. apply andb_false_iff in E as [E|E].
        -- apply strcmp_eq_false in E. congruence.
        -- apply negb_false_iff, Nat.eqb_eq in E. lia.
      * apply (Hrest j o Ho). lia.
Qed.

Lemma scan_object_SUCCESS k r st st' :
  scan_object k r st = Some (SUCCESS, st') ->
  r = SUCCESS /\ st' = st
  /\ forall W, ObjectTable st !! k = Some W ->
       passes_scan W
       /\ forall j o, ObjectTable st !! j = Some o -> j <> k ->
                      ObjectID o <> ObjectID W.
Proof.
  unfold scan_object. intros Hm.
  apply bind_inv in Hm as (r1 & st1 & H1 & Hm).
  apply bind_inv in Hm as (r2 & st2 & H2 & Hm).
  apply bind_inv in Hm as (r3 & st3 & H3 & Hm).
  apply bind_inv in Hm as (r4 & st4 & H4 & Hm).
  apply bind_inv in Hm as (r5 & st5 & H5 & Hm).
  apply bind_inv in Hm as (r6 & st6 & H6 & Hm).
  apply bind_inv in Hm as (table & st7 & Hg & Hm).
  injection Hg as <- <-.
  assert (Hlast : r6 = SUCCESS /\ st' = st6
            /\ forall W, ObjectTable st6 !! k = Some W ->
                 forall j o, ObjectTable st6 !! j = Some o -> j <> k ->
                             ObjectID o <> ObjectID W).
  { destruct (ObjectTable st6 !! k) as [W|] eqn:HW.
    - apply scan_duplicates_SUCCESS in Hm as (-> & -> & Hd).
      repeat split. intros W' [= <-] j o Ho Hne. now apply (Hd j o Ho).
    - injection Hm as -> <-. repeat split. discriminate. }
  destruct Hlast as (-> & -> & Hdup).
  apply scan_step_SUCCESS in H6 as (-> & -> & C6); [|discriminate].
  apply scan_step_SUCCESS in H5 as (-> & -> & C5); [|discriminate].
  apply scan_step_SUCCESS in H4 as (-> & -> & C4); [|discriminate].
  apply scan_step_SUCCESS in H3 as (-> & -> & C3); [|discriminate].
  apply scan_step_SUCCESS in H2 as (-> & -> & C2); [|discriminate].
  apply scan_step_SUCCESS in H1 as (-> & -> & C1); [|discriminate].
  repeat split. 7: now apply Hdup.
  all: try (specialize (C1 W H0)); try (specialize (C2 W H0));
    try (specialize (C3 W H0)); try (specialize (C4 W H0));
    try (specialize (C5 W H0)); try (specialize (C6 W H0)).
  - now apply is_empty_false.
  - apply andb_false_iff in C2 as [C2|C2];
      [apply andb_false_iff in C2 as [C2|C2]|].
    + left. now apply is_empty_false.
    + right. left. now apply is_empty_false.
    + right. right. now apply bool_decide_eq_false in C2.
  - apply andb_false_iff in C3 as [C3|C3].
    + left. now apply negb_false_iff in C3.
    + right. now apply is_empty_false.
  - apply andb_false_iff in C4 as [C4|C4].
    + left. now apply bool_decide_eq_false in C4.
    + right. now apply negb_false_iff in C4.
  - now apply Z.eqb_neq.
  - intros Hpid. apply andb_false_iff in C6 as [C6|C6]; [|exact C6].
    apply bool_decide_eq_false in C6. contradiction.
Qed.

Lemma scan_objects_SUCCESS n :
  forall k r st st',
    scan_objects n k r st = Some (SUCCESS, st') ->
    r = SUCCESS /\ st' = st
    /\ forall i W, (k <= i < k + n)%nat -> ObjectTable st !! i = Some W ->
         passes_scan W
         /\ forall j o, ObjectTable st !! j = Some o -> j <> i ->
                        ObjectID o <> ObjectID W.
Proof.
  induction n as [|n IH]; intros k r st st'; cbn [scan_objects].
  - intros [= -> <-]. repeat split; lia.
  - intros Hm. apply bind_inv in Hm as (r1 & st1 & H1 & Hm).
    apply IH in Hm as (-> & -> & Hrest).
    apply scan_object_SUCCESS in H1 as (-> & -> & Hk).
    split; [reflexivity|]. split; [reflexivity|].
    intros i W Hi HW. destruct (decide (i = k)) as [->|Hne].
    + now apply Hk.
    + apply Hrest; [lia | assumption].
Qed.

Lemma fgets_length n input :
  (String.length (fgets n input).1 <= n)%nat.
Proof.
  revert input. induction n as [|n IH]; intros [|c input]; simpl; try lia.
  destruct (Ascii.eqb c NL); simpl; [lia|].
  specialize (IH input). destruct (fgets n input). simpl in *. lia.
Qed.

Lemma but_last_length s : (String.length (but_last s) <= String.length s)%nat.
Proof.
  induction s as [|c s IH]; simpl; [lia|]. destruct s; simpl in *; lia.
Qed.

(** The prompt ends with a runlevel that the table has. *)
Lemma prompt_runlevel_valid fuel :
  forall st st',
    prompt_runlevel fuel st = Some (tt, st') ->
    ObjectTable st' = ObjectTable st
    /\ RunlevelInheritance st' = RunlevelInheritance st
    /\ PriorityAliasTree st' = PriorityAliasTree st
    /\ ObjRL_ValidRunlevel (RunlevelInheritance st') (ObjectTable st')
         (CurRunlevel st') = true.
Proof.
  induction fuel as [|fuel IH]; intros st st'; cbn [prompt_runlevel];
    [discriminate|].
  intros Hm. apply bind_inv in Hm as ([] & st1 & He & Hm).
  injection He as <-.
  apply bind_inv in Hm as (input & st2 & Hg & Hm). injection Hg as <- <-.
  cbn [Stdin set_Console] in Hm.
  destruct (Stdin st) as [|c0 input0] eqn:Ein; [discriminate|].
  pose proof (fgets_length (MAX_DESCRIPT_SIZE - 1) (String c0 input0)) as Hlen.
  destruct (fgets (MAX_DESCRIPT_SIZE - 1) (String c0 input0))
    as [NewRL rest] eqn:Ef.
  simpl in Hlen.
  apply bind_inv in Hm as ([] & st2 & Hs & Hm). injection Hs as <-.
  apply bind_inv in Hm as ([] & st3 & Hw & Hm).
  assert (Hst3 : ObjectTable st3 = ObjectTable st
                 /\ RunlevelInheritance st3 = RunlevelInheritance st
                 /\ PriorityAliasTree st3 = PriorityAliasTree st).
  { unfold when in Hw. destruct (String.prefix _ _);
      injection Hw as <-; repeat split. }
  destruct Hst3 as (Ht3 & Hi3 & Ha3).
  apply bind_inv in Hm as (st4 & st5 & Hg & Hm). injection Hg as <- <-.
  destruct (ObjRL_ValidRunlevel _ _ _) eqn:Ev.
  - apply bind_inv in Hm as ([] & st4 & He & Hm). injection He as <-.
    injection Hm as <-. cbn. rewrite Ht3, Hi3, Ha3. repeat split.
    unfold snprintf_s. rewrite stake_all.
    + rewrite <- Ht3, <- Hi3. exact Ev.
    + pose proof (but_last_length NewRL). lia.
  - apply bind_inv in Hm as ([] & st4 & He & Hm). injection He as <-.
    apply IH in Hm as (Ht & Hi & Ha & Hv). cbn in Ht, Hi, Ha.
    rewrite Ht, Hi, Ha, Ht3, Hi3, Ha3 in *. repeat split. exact Hv.
Qed.

(** [ScanConfigIntegrity] returns SUCCESS only when nothing was found and
    nothing was repaired. *)
Lemma ScanConfigIntegrity_SUCCESS st st' :
  ScanConfigIntegrity st = Some (SUCCESS, st') ->
  ObjectTable st' = ObjectTable st
  /\ RunlevelInheritance st' = RunlevelInheritance st
  /\ PriorityAliasTree st' = PriorityAliasTree st
  /\ ObjectTable st <> []
  /\ Forall passes_scan (ObjectTable st)
  /\ NoDup (ObjectID <$> ObjectTable st)
  /\ ObjRL_ValidRunlevel (RunlevelInheritance st') (ObjectTable st')
       (CurRunlevel st') = true.
Proof.
  unfold ScanConfigIntegrity. intros Hm.
  apply bind_inv in Hm as (st0 & st1 & Hg & Hm). injection Hg as <- <-.
  destruct (ObjectTable st) as [|o table] eqn:Et.
  { apply bind_inv in Hm as ([] & st1 & _ & Hm). discriminate. }
  rewrite <- Et in *.
  assert (Hscan : forall s s',
    (r ← scan_objects (length (ObjectTable st)) 0 SUCCESS;
     modify (set_WasRunBefore true);; mret r) s = Some (SUCCESS, s') ->
    ObjectTable s = ObjectTable st ->
    ObjectTable s' = ObjectTable s
    /\ RunlevelInheritance s' = RunlevelInheritance s
    /\ PriorityAliasTree s' = PriorityAliasTree s
    /\ CurRunlevel s' = CurRunlevel s
    /\ Forall passes_scan (ObjectTable st)
    /\ NoDup (ObjectID <$> ObjectTable st)).
  { intros s s' Hs Hts.
    apply bind_inv in Hs as (r & s1 & Hobj & Hs).
    apply bind_inv in Hs as ([] & s2 & Hmod & Hs).
    injection Hmod as <-. injection Hs as -> <-.
    apply scan_objects_SUCCESS in Hobj as (_ & -> & Hall).
    rewrite Hts in Hall. repeat split.
    - apply Forall_lookup. intros i W HW.
      apply (Hall i W); [|assumption].
      apply lookup_lt_Some in HW. lia.
    - apply NoDup_alt. intros i j x Hi Hj.
      rewrite list_lookup_fmap in Hi, Hj.
      destruct (ObjectTable st !! i) as [W|] eqn:HW; [|discriminate].
      destruct (ObjectTable st !! j) as [W'|] eqn:HW'; [|discriminate].
      injection Hi as <-. injection Hj as Heq.
      destruct (decide (j = i)) as [|Hne]; [congruence|]. exfalso.
      pose proof (lookup_lt_Some _ _ _ HW) as Hlt.
      destruct (Hall i W ltac:(lia) HW) as [_ Hd].
      now apply (Hd j W' HW' Hne). }
  assert (Hne : ObjectTable st <> []) by (rewrite Et; discriminate).
  destruct (is_empty (CurRunlevel st)
            || negb (ObjRL_ValidRunlevel (RunlevelInheritance st)
                       (ObjectTable st) (CurRunlevel st))) eqn:Erl.
  - apply bind_inv in Hm as ([] & st1 & He & Hm).
    assert (Hst1 : ObjectTable st1 = ObjectTable st
                   /\ RunlevelInheritance st1 = RunlevelInheritance st
                   /\ PriorityAliasTree st1 = PriorityAliasTree st
                   /\ Stdin st1 = Stdin st).
    { destruct (is_empty (CurRunlevel st)); injection He as <-;
        repeat split. }
    destruct Hst1 as (Ht1 & Hi1 & Ha1 & _).
    destruct (negb (WasRunBefore st)); [|discriminate].
    apply bind_inv in Hm as ([] & st2 & Hp & Hm).
    apply prompt_runlevel_valid in Hp as (Ht2 & Hi2 & Ha2 & Hv).
    destruct (Hscan st2 st' Hm ltac:(congruence))
      as (Ht & Hi & Ha & Hc & Hall & Hnd).
    repeat split; try congruence; try assumption.
  - apply orb_false_iff in Erl as [_ Ev]. apply negb_false_iff in Ev.
    destruct (Hscan st st' Hm eq_refl) as (Ht & Hi & Ha & Hc & Hall & Hnd).
    repeat split; try assumption.
    rewrite Ht, Hi, Hc. exact Ev.
Qed.

(** X14.  [InitConfig] returns SUCCESS only with a table that
    [ScanConfigIntegrity] found nothing wrong with: there is an object, no
    two objects have one ID, every object has a description, a value for
    ObjectEnabled, and, unless it is halt-only, a start command and a
    runlevel; no halt-only object is stopped by PID; and the current
    runlevel is one that an object of the table is in. *)
Theorem InitConfig_SUCCESS_integrity st st' :
  InitConfig st = Some (SUCCESS, st') ->
  ObjectTable st' <> []
  /\ NoDup (ObjectID <$> ObjectTable st')
  /\ Forall passes_scan (ObjectTable st')
  /\ ObjRL_ValidRunlevel (RunlevelInheritance st') (ObjectTable st')
       (CurRunlevel st') = true.
Proof.
  intros Hrun. unfold InitConfig in Hrun.
  apply bind_inv in Hrun as (conf & st0 & Hconf & Hrun).
  injection Hconf as <- <-.
  destruct (ConfFile st) as [bytes|];
    [|apply bind_inv in Hrun as ([] & st1 & _ & Hrun); discriminate].
  destruct (orb _ _);
    [apply bind_inv in Hrun as ([] & st1 & _ & Hrun); discriminate|].
  apply bind_inv in Hrun as (lc & st1 & Hparse & Hrun).
  apply bind_inv in Hrun as (table & st0 & Htable & Hrun).
  injection Htable as <- <-.
  destruct (ObjectTable st1) as [|o table]; [discriminate|].
  destruct (mapM emulate_nowait _) as [table'|]; [|discriminate].
  apply bind_inv in Hrun as ([] & st2 & _ & Hrun).
  apply bind_inv in Hrun as ([] & st3 & _ & Hrun).
  apply bind_inv in Hrun as ([] & st4 & _ & Hrun).
  apply bind_inv in Hrun as (r0 & st5 & Hscan & Hrun).
  destruct r0.
  - apply bind_inv in Hrun as ([] & st6 & _ & Hrun).
    apply bind_inv in Hrun as (c & st7 & _ & Hrun).
    apply bind_inv in Hrun as ([] & st8 & _ & Hrun).
    apply bind_inv in Hrun as ([] & st9 & _ & Hrun). discriminate.
  - injection Hrun as <-.
    apply ScanConfigIntegrity_SUCCESS in Hscan
      as (Ht & _ & _ & Hne & Hall & Hnd & Hv).
    rewrite Ht. repeat split; try assumption. now rewrite <- Ht.
  - apply bind_inv in Hrun as ([] & st6 & _ & Hrun). discriminate.
Qed.

End ScanFacts.

(** ** What the passes of [InitConfig] keep *)

Section ScanPreserves.
Context `{Platform}.
Variable P : State -> Prop.
Hypothesis P_frame : forall st st',
  ObjectTable st' = ObjectTable st ->
  PriorityAliasTree st' = PriorityAliasTree st -> P st -> P st'.
Hypothesis P_repair : forall i f, repairs f -> preserves P (upd_obj i f).

Lemma prompt_runlevel_preserves fuel : preserves P (prompt_runlevel fuel).
Proof.
  induction fuel as [|fuel IH]; cbn [prompt_runlevel];
    repeat keep_step P_frame I. exact IH.
Qed.

Lemma scan_step_preserves k cond ev repair r' r :
  repairs repair -> preserves P (scan_step k cond ev repair r' r).
Proof.
  intros Hf. unfold scan_step.
  apply (preserves_bind _); [apply preserves_gets | intros table].
  destruct (table !! k) as [W|]; [|apply preserves_ret].
  destruct (cond W); [|apply preserves_ret].
  apply (preserves_bind _); [apply (preserves_emit _ P_frame) | intros _].
  apply (preserves_bind _); [now apply P_repair | intros _].
  apply preserves_ret.
Qed.

Lemma scan_duplicates_preserves k id offenders :
  forall t r, preserves P (scan_duplicates k t id offenders r).
Proof.
  induction offenders as [|o offenders IH]; intros t r;
    cbn [scan_duplicates]; repeat keep_step P_frame I; apply IH.
Qed.

Lemma scan_object_preserves k r : preserves P (scan_object k r).
Proof.
  unfold scan_object.
  repeat (apply (preserves_bind _);
          [apply scan_step_preserves; unfold repairs; tauto | intros ?]).
  repeat keep_step P_frame I. apply scan_duplicates_preserves.
Qed.

Lemma scan_objects_preserves n :
  forall k r, preserves P (scan_objects n k r).
Proof.
  induction n as [|n IH]; intros k r; cbn [scan_objects];
    [apply preserves_ret|].
  apply (preserves_bind _); [apply scan_object_preserves | intros r'; apply IH].
Qed.

Lemma ScanConfigIntegrity_preserves : preserves P ScanConfigIntegrity.
Proof.
  unfold ScanConfigIntegrity. repeat keep_step P_frame I;
    first [apply scan_objects_preserves | apply prompt_runlevel_preserves].
Qed.

End ScanPreserves.

Section ParsePreserves.
Context `{Platform}.
Variable P : State -> Prop.
Hypothesis P_frame : forall st st',
  ObjectTable st' = ObjectTable st ->
  PriorityAliasTree st' = PriorityAliasTree st -> P st -> P st'.
Hypothesis P_handle : forall a s lc, preserves P (handle a s lc).

Lemma line_body_preserves s lc : preserves P (line_body s lc).
Proof.
  assert (Hlive : forall w l, preserves P (live_line w l)).
  { intros w l. unfold live_line. repeat keep_step P_frame I; apply P_handle. }
  unfold line_body. repeat keep_step P_frame I; apply Hlive.
Qed.

Lemma rest_of_lines_preserves s :
  forall lc, preserves P (rest_of_lines s lc).
Proof.
  induction s as [|c s IH]; intros lc; cbn [rest_of_lines].
  - apply preserves_ret.
  - destruct (Ascii.eqb c NL); [|apply IH].
    destruct s as [|d s']; [apply preserves_ret|].
    apply (preserves_bind _); [apply line_body_preserves | intros lc'; apply IH].
Qed.

Lemma parse_lines_preserves s : preserves P (parse_lines s).
Proof.
  unfold parse_lines. apply (preserves_bind _);
    [apply line_body_preserves | intros lc; apply rest_of_lines_preserves].
Qed.

End ParsePreserves.

(** *** Invariants of the objects *)

Section ObjectInvariant.
Context `{Platform}.
Variable inv : ObjTable -> Prop.

Lemma all_inv_frame (st st' : State) :
  ObjectTable st' = ObjectTable st ->
  PriorityAliasTree st' = PriorityAliasTree st ->
  Forall inv (ObjectTable st) -> Forall inv (ObjectTable st').
Proof. now intros -> _. Qed.

Lemma upd_obj_inv i f :
  (forall o, inv o -> inv (f o)) ->
  preserves (fun st => Forall inv (ObjectTable st)) (upd_obj i f).
Proof.
  intros Hf st a st' Hm HP. inversion Hm; subst. simpl.
  now apply Forall_alter_keep.
Qed.

Lemma modify_table_inv f :
  (forall st, ObjectTable (f st) = ObjectTable st) ->
  preserves (fun st => Forall inv (ObjectTable st)) (modify f).
Proof. intros Hf st a st' Hm HP. inversion Hm; subst. now rewrite Hf. Qed.

Lemma AddObjectToTable_inv id :
  inv (new_object id) ->
  preserves (fun st => Forall inv (ObjectTable st)) (AddObjectToTable id).
Proof.
  intros Hnew st a st' Hm HP. inversion Hm; subst. simpl.
  apply Forall_app. split; [exact HP|]. now repeat constructor.
Qed.

Hypothesis inv_start : forall v o, inv o -> inv (set_ObjectStartPriority v o).
Hypothesis inv_stop : forall v o, inv o -> inv (set_ObjectStopPriority v o).

Lemma renumber_pair_inv get set i j table :
  (forall v o, inv o -> inv (set v o)) ->
  Forall inv table -> Forall inv (renumber_pair get set i j table).
Proof.
  intros Hset Ht. unfold renumber_pair.
  destruct (table !! i) as [a|]; [|exact Ht].
  destruct (table !! j) as [b|] eqn:Hb; [|exact Ht].
  destruct (andb _ _); [|exact Ht].
  unfold shift_others. apply Forall_lookup. intros k x Hk.
  rewrite list_lookup_imap in Hk.
  destruct (<[j:=set (ulong_incr (get b)) b]> table !! k) as [y|] eqn:Hy;
    [|discriminate].
  assert (Hiy : inv y).
  { destruct (decide (j = k)) as [->|Hne].
    - rewrite list_lookup_insert_eq in Hy
        by (now apply lookup_lt_Some in Hb).
      injection Hy as <-. apply Hset.
      eapply Forall_lookup_1; eassumption.
    - rewrite list_lookup_insert_ne in Hy by assumption.
      eapply Forall_lookup_1; eassumption. }
  simpl in Hk. destruct (andb _ _); injection Hk as <-; auto.
Qed.

Lemma renumber_priorities_inv table :
  Forall inv table -> Forall inv (renumber_priorities table).
Proof.
  assert (Hbody : forall i j t, Forall inv t -> Forall inv (renumber_body i j t)).
  { intros i j t Ht. unfold renumber_body.
    now apply renumber_pair_inv; [|apply renumber_pair_inv]. }
  assert (Hinner : forall n i j t,
            Forall inv t -> Forall inv (renumber_inner n i j t)).
  { induction n as [|n IH]; intros i j t Ht; cbn [renumber_inner]; auto. }
  assert (Houter : forall n i t,
            Forall inv t -> Forall inv (renumber_outer n i t)).
  { induction n as [|n IH]; intros i t Ht; cbn [renumber_outer]; auto. }
  apply Houter.
Qed.

Hypothesis inv_nowait : forall o o',
  inv o -> emulate_nowait o = Some o' -> inv o'.

Lemma mapM_emulate_nowait_inv table table' :
  Forall inv table -> mapM emulate_nowait table = Some table' ->
  Forall inv table'.
Proof.
  intros Ht Hmap. apply mapM_Some_1 in Hmap.
  induction Hmap as [|x y l1 l2 Hxy _ IH]; [constructor|].
  apply Forall_cons in Ht as [Hx Hl]. constructor; eauto.
Qed.

Hypothesis inv_repair : forall f o, repairs f -> inv o -> inv (f o).
Hypothesis inv_handle : forall a s lc,
  preserves (fun st => Forall inv (ObjectTable st)) (handle a s lc).

(** Whatever [InitConfig] returns, an invariant that the rungs of the
    ladder and the passes after the parsing loop keep holds of every object
    of the table it leaves. *)
Lemma InitConfig_inv :
  preserves (fun st => Forall inv (ObjectTable st)) InitConfig.
Proof.
  intros st r st' Hrun HP. unfold InitConfig in Hrun.
  apply bind_inv in Hrun as (conf & st0 & Hconf & Hrun).
  injection Hconf as <- <-.
  destruct (ConfFile st) as [bytes|].
  2: { apply bind_inv in Hrun as ([] & st1 & He & Hrun).
       injection He as <-. now injection Hrun as _ <-. }
  destruct (orb _ _).
  { apply bind_inv in Hrun as ([] & st1 & He & Hrun).
    injection He as <-. now injection Hrun as _ <-. }
  apply bind_inv in Hrun as (lc & st1 & Hparse & Hrun).
  apply (parse_lines_preserves _ all_inv_frame inv_handle _ _ _ _ Hparse)
    in HP.
  apply bind_inv in Hrun as (table & st0 & Htable & Hrun).
  injection Htable as <- <-.
  destruct (ObjectTable st1) as [|o table] eqn:Et; [discriminate|].
  destruct (mapM emulate_nowait _) as [table'|] eqn:Hmap; [|discriminate].
  assert (Ht' : Forall inv table').
  { eapply mapM_emulate_nowait_inv; [|eassumption].
    now apply renumber_priorities_inv. }
  apply bind_inv in Hrun as ([] & st2 & Hset & Hrun). injection Hset as <-.
  apply bind_inv in Hrun as ([] & st2 & Hwhen & Hrun).
  apply bind_inv in Hrun as ([] & st3 & Hshut & Hrun). injection Hshut as <-.
  apply bind_inv in Hrun as (r0 & st3 & Hscan & Hrun).
  assert (Hbefore : Forall inv (ObjectTable (set_PriorityAliasTree [] st2))).
  { unfold when in Hwhen. destruct (LongComment lc);
      injection Hwhen as <-; exact Ht'. }
  assert (Hafter : Forall inv (ObjectTable st3)).
  { refine (ScanConfigIntegrity_preserves
              (fun st => Forall inv (ObjectTable st)) all_inv_frame _
              _ _ _ Hscan Hbefore).
    intros i f Hf. apply upd_obj_inv. intros x. now apply inv_repair. }
  destruct r0.
  - apply bind_inv in Hrun as ([] & st4 & _ & Hrun).
    apply bind_inv in Hrun as (c & st5 & _ & Hrun).
    apply bind_inv in Hrun as ([] & st6 & _ & Hrun).
    apply bind_inv in Hrun as ([] & st7 & Hsd & Hrun).
    injection Hsd as <-. injection Hrun as _ <-. constructor.
  - now injection Hrun as _ <-.
  - apply bind_inv in Hrun as ([] & st4 & He & Hrun).
    injection He as <-. now injection Hrun as _ <-.
Qed.

End ObjectInvariant.

(** One step of a proof that a rung keeps an invariant of the objects;
    [tac] shows that an update of the current object keeps it. *)
Ltac keep_inv Hframe tac :=
  lazymatch goal with
  | |- preserves _ (upd_obj _ _) => apply upd_obj_inv; tac
  | |- preserves _ (modify _) =>
      apply modify_table_inv; intros ?; reflexivity
  | |- preserves _ (AddObjectToTable _) => apply AddObjectToTable_inv; tac
  | |- _ => keep_step Hframe I
  end.

Ltac handle_keeps Hframe tac :=
  let a := fresh "a" in
  intros a ? ?; destruct a; cbn [handle];
  unfold toggle, do_RunlevelInherits, do_DefinePriority, do_MountVirtual,
    do_BootBannerText, do_BootBannerColor, do_DefaultRunlevel, do_Hostname,
    do_ObjectID, do_ObjectEnabled, do_ObjectOptions, option_arg, term_signal,
    do_ObjectDescription, do_ObjectStartCommand, do_ObjectReloadCommand,
    do_ObjectStopCommand, do_priority, do_ObjectRunlevels;
  repeat keep_inv Hframe tac.

Section BufferFacts.
Context `{Platform}.
Hypothesis descript_size : (0 < MAX_DESCRIPT_SIZE)%nat.
Hypothesis line_size : (0 < MAX_LINE_SIZE)%nat.

Lemma snprintf_s_fits size s :
  (0 < size)%nat -> (String.length (snprintf_s size s) < size)%nat.
Proof.
  intros Hsize. unfold snprintf_s.
  pose proof (stake_length (size - 1) s). lia.
Qed.

Ltac fits_fields :=
  unfold fits_buffers, new_object, ObjRL_AddRunlevel, upd_Opts; simpl;
  repeat split;
  first [ assumption
        | now apply snprintf_s_fits
        | apply Forall_nil; exact I
        | apply Forall_app; split;
          [assumption | repeat constructor; now apply snprintf_s_fits] ].

Ltac fits_tac :=
  first [ intros ? (? & ? & ? & ? & ? & ? & ?); fits_fields | fits_fields ].

Lemma handle_fits_buffers a s lc :
  preserves (fun st => Forall fits_buffers (ObjectTable st)) (handle a s lc).
Proof.
  revert a s lc. handle_keeps (all_inv_frame fits_buffers) fits_tac.
Qed.

Lemma emulate_nowait_fits o o' :
  fits_buffers o -> emulate_nowait o = Some o' -> fits_buffers o'.
Proof.
  intros Ho. unfold emulate_nowait.
  destruct (EmulNoWait (Opts o)); [|now intros [= <-]].
  destruct (ObjectStartCommand o) as [|c cmd] eqn:Ecmd; [now intros [= <-]|].
  destruct (last_nonblank _); [|discriminate].
  destruct (Ascii.eqb _ _); intros [= <-]; [assumption|].
  destruct Ho as (H1 & H2 & H3 & H4 & H5 & H6 & H7).
  unfold fits_buffers. simpl. repeat split; try assumption.
  rewrite Ecmd in H3. simpl in H3.
  pose proof (stake_length (MAX_LINE_SIZE - S (String.length cmd) - 1) "&").
  change (String c (cmd +:+ ?t)) with (String c cmd +:+ t).
  rewrite length_append.
  destruct (MAX_LINE_SIZE - S (String.length cmd) - 1)%nat eqn:En;
    simpl in *; lia.
Qed.

(** X15.  No write of [InitConfig] to a string of an object goes past the
    size that bounds it: when the objects of the table fit their buffers
    before, as those of the empty table do, the objects of the table that
    [InitConfig] leaves fit theirs, whatever it returns.  This covers the
    ampersand that the NOWAIT emulation appends and the description that the
    integrity scan fills in. *)
Theorem InitConfig_fits_buffers st r st' :
  Forall fits_buffers (ObjectTable st) ->
  InitConfig st = Some (r, st') ->
  Forall fits_buffers (ObjectTable st').
Proof.
  intros Hfit Hrun.
  refine (InitConfig_inv fits_buffers _ _ emulate_nowait_fits _
            handle_fits_buffers _ _ _ Hrun Hfit).
  - intros v. fits_tac.
  - intros v. fits_tac.
  - intros f o [->|[->| ->]]; [| |auto]; revert o; fits_tac.
Qed.

End BufferFacts.

(** A witness of X15: the boot with [same_priority_conf]. *)
Lemma InitConfig_fits_buffers_witness :
  Forall (@fits_buffers linux) (ObjectTable renumbered_state).
Proof.
  apply (@InitConfig_fits_buffers linux ltac:(simpl; lia) ltac:(simpl; lia)
           (boot same_priority_conf "") SUCCESS renumbered_state).
  - constructor.
  - vm_compute. reflexivity.
Defined.

Section HaltFacts.
Context `{Platform}.

Ltac halt_tac :=
  first [ intros ? [? ?] | idtac ];
  unfold halt_marked, new_object, ObjRL_AddRunlevel, upd_Opts; simpl;
  split; first [ assumption | reflexivity | discriminate | auto ].

Lemma handle_halt_marked a s lc :
  preserves (fun st => Forall halt_marked (ObjectTable st)) (handle a s lc).
Proof.
  revert a s lc. handle_keeps (all_inv_frame halt_marked) halt_tac.
Qed.

(** X16.  The parser marks as started the objects that it makes halt-only,
    and those only, and it never leaves a halt-only object stoppable: when
    this holds of the table before, as of the empty table, it holds of the
    table that [InitConfig] leaves. *)
Theorem InitConfig_halt_marked st r st' :
  Forall halt_marked (ObjectTable st) ->
  InitConfig st = Some (r, st') ->
  Forall halt_marked (ObjectTable st').
Proof.
  intros Hm Hrun.
  refine (InitConfig_inv halt_marked _ _ _ _
            handle_halt_marked _ _ _ Hrun Hm).
  - intros v. halt_tac.
  - intros v. halt_tac.
  - intros o o' Ho. unfold emulate_nowait.
    destruct (EmulNoWait (Opts o)); [|now intros [= <-]].
    destruct (ObjectStartCommand o); [now intros [= <-]|].
    destruct (last_nonblank _); [|discriminate].
    destruct (Ascii.eqb _ _); intros [= <-]; [assumption|].
    exact Ho.
  - intros f o [->|[->| ->]] Ho; exact Ho.
Qed.

End HaltFacts.

(** A witness of X16: the boot with [same_priority_conf]. *)
Lemma InitConfig_halt_marked_witness :
  Forall halt_marked (ObjectTable renumbered_state).
Proof.
  apply (@InitConfig_halt_marked linux (boot same_priority_conf "")
           SUCCESS renumbered_state).
  - constructor.
  - vm_compute. reflexivity.
Defined.

Section InitConfigReturns.
Context `{Platform}.

Lemma ScanConfigIntegrity_aliases st r st' :
  ScanConfigIntegrity st = Some (r, st') ->
  PriorityAliasTree st = [] -> PriorityAliasTree st' = [].
Proof.
  apply (ScanConfigIntegrity_preserves (fun st => PriorityAliasTree st = [])).
  - intros s s' _ Ha. now rewrite Ha.
  - intros i f _ s a s' Hm Hs. now inversion Hm; subst.
Qed.

(** X17.  What [InitConfig] leaves behind.  Without a configuration file,
    or with one that is empty or holds a single newline, it returns FAILURE
    after one diagnostic and touches nothing else.  Otherwise the priority
    aliases are released whatever it returns, and a FAILURE return leaves
    neither an object nor an inheritance pair in memory. *)
Theorem InitConfig_returns st r st' :
  InitConfig st = Some (r, st') ->
  match ConfFile st with
  | None =>
      r = FAILURE /\ st' = set_Console (EvStatFailed :: Console st) st
  | Some bytes =>
      if is_empty (c_str bytes) || String.eqb (c_str bytes) (String NL "")
      then r = FAILURE /\ st' = set_Console (EvEmptyConfig :: Console st) st
      else PriorityAliasTree st' = []
           /\ (r = FAILURE ->
               ObjectTable st' = [] /\ RunlevelInheritance st' = [])
  end.
Proof.
  intros Hrun. unfold InitConfig in Hrun.
  apply bind_inv in Hrun as (conf & st0 & Hconf & Hrun).
  injection Hconf as <- <-.
  destruct (ConfFile st) as [bytes|].
  2: { apply bind_inv in Hrun as ([] & st1 & He & Hrun).
       injection He as <-. now injection Hrun as <- <-. }
  destruct (orb _ _).
  { apply bind_inv in Hrun as ([] & st1 & He & Hrun).
    injection He as <-. now injection Hrun as <- <-. }
  apply bind_inv in Hrun as (lc & st1 & Hparse & Hrun).
  apply bind_inv in Hrun as (table & st0 & Htable & Hrun).
  injection Htable as <- <-.
  destruct (ObjectTable st1) as [|o table] eqn:Et; [discriminate|].
  destruct (mapM emulate_nowait _) as [table'|] eqn:Hmap; [|discriminate].
  apply bind_inv in Hrun as ([] & st2 & Hset & Hrun). injection Hset as <-.
  apply bind_inv in Hrun as ([] & st2 & Hwhen & Hrun).
  apply bind_inv in Hrun as ([] & st3 & Hshut & Hrun). injection Hshut as <-.
  apply bind_inv in Hrun as (r0 & st3 & Hscan & Hrun).
  apply ScanConfigIntegrity_aliases in Hscan; [|reflexivity].
  destruct r0.
  - apply bind_inv in Hrun as ([] & st4 & He & Hrun). injection He as <-.
    apply bind_inv in Hrun as (c & st5 & Hc & Hrun).
    assert (Ha5 : PriorityAliasTree st5 = []).
    { unfold getchar in Hc. simpl in Hc.
      destruct (Stdin st3); injection Hc as _ <-; exact Hscan. }
    apply bind_inv in Hrun as ([] & st6 & Hd & Hrun).
    assert (Ha6 : PriorityAliasTree st6 = []).
    { destruct (bool_decide _); injection Hd as <-; exact Ha5. }
    apply bind_inv in Hrun as ([] & st7 & Hsd & Hrun).
    injection Hsd as <-. injection Hrun as <- <-. now repeat split.
  - injection Hrun as <- <-. split; [exact Hscan | discriminate].
  - apply bind_inv in Hrun as ([] & st4 & He & Hrun).
    injection He as <-. injection Hrun as <- <-.
    split; [exact Hscan | discriminate].
Qed.

End InitConfigReturns.

(** A witness of X17: the boot with [broken_conf], whose object lacks
    ObjectEnabled. *)
Lemma InitConfig_returns_witness :
  PriorityAliasTree (state_of failed_boot) = []
  /\ (FAILURE = FAILURE ->
      ObjectTable (state_of failed_boot) = []
      /\ RunlevelInheritance (state_of failed_boot) = []).
Proof.
  apply (@InitConfig_returns linux
           (boot broken_conf ("default" +:+ String NL "")) FAILURE
           (state_of failed_boot)).
  vm_compute. reflexivity.
Defined.

(** A witness of X14: the boot with [same_priority_conf]. *)
Lemma InitConfig_SUCCESS_integrity_witness :
  ObjectTable renumbered_state <> []
  /\ NoDup (ObjectID <$> ObjectTable renumbered_state)
  /\ Forall passes_scan (ObjectTable renumbered_state)
  /\ @ObjRL_ValidRunlevel (RunlevelInheritance renumbered_state)
       (ObjectTable renumbered_state) (CurRunlevel renumbered_state) = true.
Proof.
  apply (@InitConfig_SUCCESS_integrity linux (boot same_priority_conf "")
           renumbered_state).
  vm_compute. reflexivity.
Defined.

(** ** The renumbering and the NOWAIT emulation *)

Lemma renumber_pair_idle get set i j table :
  unique_nonzero get table -> renumber_pair get set i j table = table.
Proof.
  intros Hu. unfold renumber_pair.
  destruct (table !! i) as [a|] eqn:Ha; [|reflexivity].
  destruct (table !! j) as [b|] eqn:Hb; [|reflexivity].
  destruct (negb (get a =? 0) && negb (i =? j)%nat && (get b =? get a))
    eqn:E; [|reflexivity].
  apply andb_true_iff in E as [E Heq]. apply andb_true_iff in E as [Hnz Hij].
  apply negb_true_iff in Hnz, Hij.
  apply Z.eqb_neq in Hnz. apply Nat.eqb_neq in Hij. apply Z.eqb_eq in Heq.
  exfalso. now apply (Hu i j a b Hij Ha Hb Hnz).
Qed.

(** X18.  The renumbering leaves alone a table that has no two objects
    with one priority other than 0: priorities that are declared distinct
    are the priorities of the objects. *)
Theorem renumber_priorities_idle table :
  unique_nonzero ObjectStartPriority table ->
  unique_nonzero ObjectStopPriority table ->
  renumber_priorities table = table.
Proof.
  intros Hs Hp.
  assert (Hbody : forall i j, renumber_body i j table = table).
  { intros i j. unfold renumber_body.
    now rewrite (renumber_pair_idle ObjectStartPriority),
                (renumber_pair_idle ObjectStopPriority). }
  assert (Hinner : forall n i j, renumber_inner n i j table = table).
  { induction n as [|n IH]; intros i j; cbn [renumber_inner];
      [reflexivity|]. now rewrite Hbody. }
  assert (Houter : forall n i, renumber_outer n i table = table).
  { induction n as [|n IH]; intros i; cbn [renumber_outer];
      [reflexivity|]. now rewrite Hinner. }
  apply Houter.
Qed.

(** A witness of X18: the table that a renumbering leaves is not
    renumbered again. *)
Lemma renumber_priorities_idle_witness :
  renumber_priorities (ObjectTable renumbered_state)
  = ObjectTable renumbered_state.
Proof.
  assert (Hlen : length (ObjectTable renumbered_state) = 4%nat)
    by (vm_compute; reflexivity).
  apply renumber_priorities_idle;
    intros i j a b Hij Ha Hb Hnz;
    pose proof (lookup_lt_Some _ _ _ Ha) as Hi;
    pose proof (lookup_lt_Some _ _ _ Hb) as Hj;
    rewrite Hlen in Hi, Hj;
    destruct i as [|[|[|[|i]]]]; try lia;
    destruct j as [|[|[|[|j]]]]; try lia;
    vm_compute in Ha, Hb; injection Ha as <-; injection Hb as <-;
    vm_compute; try discriminate; now vm_compute in Hnz.
Defined.

Lemma last_nonblank_app s c :
  is_blank c = false -> last_nonblank (s +:+ String c "") = Some c.
Proof.
  intros Hc. induction s as [|d s IH]; simpl; [now rewrite Hc|].
  now rewrite IH.
Qed.

Section NoWaitFacts.
Context `{Platform}.

(** X19.  The NOWAIT emulation touches the start command alone, and only
    by the ampersand it appends: an object without the option, without a
    start command, or whose start command ends in an ampersand before its
    trailing blanks is left as it is; otherwise the command gets one
    ampersand at its end when the buffer has room for it.  A second pass
    changes nothing. *)
Theorem emulate_nowait_appends_once o o' :
  (String.length (ObjectStartCommand o) < MAX_LINE_SIZE)%nat ->
  emulate_nowait o = Some o' ->
  (o' = o
   \/ (EmulNoWait (Opts o) = true
       /\ last_nonblank (ObjectStartCommand o) <> Some "&"%char
       /\ (String.length (ObjectStartCommand o) + 1 < MAX_LINE_SIZE)%nat
       /\ o' = set_ObjectStartCommand (ObjectStartCommand o +:+ "&") o))
  /\ emulate_nowait o' = Some o'.
Proof.
  intros Hlen. unfold emulate_nowait at 1.
  destruct (EmulNoWait (Opts o)) eqn:Eopt.
  2: { intros [= <-]. split; [now left|]. unfold emulate_nowait.
       now rewrite Eopt. }
  destruct (ObjectStartCommand o) as [|c cmd] eqn:Ecmd.
  { intros [= <-]. split; [now left|]. unfold emulate_nowait.
    now rewrite Eopt, Ecmd. }
  destruct (last_nonblank (String c cmd)) as [d|] eqn:El; [|discriminate].
  destruct (Ascii.eqb d "&") eqn:Ed.
  { intros [= <-]. split; [now left|]. unfold emulate_nowait.
    now rewrite Eopt, Ecmd, El, Ed. }
  cbn [String.length] in *. intros [= <-].
  destruct (MAX_LINE_SIZE - S (String.length cmd) - 1)%nat
    as [|room] eqn:Eroom.
  - cbn [stake]. rewrite append_nil_r.
    assert (Hsame : set_ObjectStartCommand (String c cmd) o = o)
      by (rewrite <- Ecmd; now destruct o).
    rewrite Hsame. split; [now left|]. unfold emulate_nowait.
    rewrite Eopt, Ecmd, El, Ed. cbn [String.length].
    rewrite Eroom. cbn [stake]. now rewrite append_nil_r, Hsame.
  - assert (Hamp : stake (S room) "&" = "&") by now destruct room.
    rewrite Hamp. split.
    + right. split; [reflexivity|]. split.
      * intros [= ->]. discriminate.
      * split; [lia | reflexivity].
    + unfold emulate_nowait. cbn [Opts set_ObjectStartCommand
        ObjectStartCommand]. rewrite Eopt.
      change (String c (cmd +:+ "&")) with (String c cmd +:+ String "&" "").
      rewrite last_nonblank_app by reflexivity. reflexivity.
Qed.

End NoWaitFacts.

(** A witness of X19: [nowait_object]. *)
Lemma emulate_nowait_appends_once_witness :
  (set_ObjectStartCommand "/bin/sync &" nowait_object = nowait_object
   \/ (EmulNoWait (Opts nowait_object) = true
       /\ last_nonblank (ObjectStartCommand nowait_object) <> Some "&"%char
       /\ (String.length (ObjectStartCommand nowait_object) + 1
           < @MAX_LINE_SIZE linux)%nat
       /\ set_ObjectStartCommand "/bin/sync &" nowait_object
          = set_ObjectStartCommand
              (ObjectStartCommand nowait_object +:+ "&") nowait_object))
  /\ @emulate_nowait linux
       (set_ObjectStartCommand "/bin/sync &" nowait_object)
     = Some (set_ObjectStartCommand "/bin/sync &" nowait_object).
Proof.
  apply (@emulate_nowait_appends_once linux nowait_object
           (set_ObjectStartCommand "/bin/sync &" nowait_object));
    [simpl; lia | reflexivity].
Defined.

(** ** [ReloadConfig] *)

Section ReloadOutcomeFacts.
Context `{Platform}.

(** X20.  [ReloadConfig] returns FAILURE when its [InitConfig] does and
    SUCCESS otherwise, never WARNING.  Either way [EnableLogging],
    [DisableCAD] and [AlignStatusReports] end as they were before the
    reload, and the other globals that the file sets end as the reparse left
    them: a failed reload does not put back the hostname, the shell and log
    switches, the boot banner or the mount options. *)
Theorem ReloadConfig_outcomes st r st' :
  ReloadConfig st = Some (r, st') ->
  exists r0 st1,
    InitConfig (after_shutdown st) = Some (r0, st1)
    /\ r = (if bool_decide (r0 = FAILURE) then FAILURE else SUCCESS)
    /\ EnableLogging st' = EnableLogging st
    /\ DisableCAD st' = DisableCAD st
    /\ AlignStatusReports st' = AlignStatusReports st
    /\ Hostname st' = Hostname st1
    /\ ShellEnabled st' = ShellEnabled st1
    /\ BlankLogOnBoot st' = BlankLogOnBoot st1
    /\ BootBanner st' = BootBanner st1
    /\ AutoMountOpts st' = AutoMountOpts st1.
Proof.
  intros Hrun.
  assert (Hne : ObjectTable st <> []).
  { intros Hnil. unfold ReloadConfig in Hrun.
    apply bind_inv in Hrun as (s & s' & Hg & Hrun).
    injection Hg as <- <-. now rewrite Hnil in Hrun. }
  destruct (InitConfig (after_shutdown st)) as [[r0 st1]|] eqn:Hinit.
  - exists r0, st1. split; [reflexivity|].
    destruct (decide (r0 = FAILURE)) as [->|Hr0].
    + rewrite (ReloadConfig_rollback st st1 Hne Hinit) in Hrun.
      injection Hrun as <- <-. now repeat split.
    + rewrite (ReloadConfig_commit st st1 r0 Hne Hinit Hr0) in Hrun.
      injection Hrun as <- <-.
      rewrite bool_decide_eq_false_2 by assumption. now repeat split.
  - exfalso. unfold ReloadConfig in Hrun.
    apply bind_inv in Hrun as (s & s' & Hg & Hrun).
    injection Hg as <- <-.
    destruct (ObjectTable st) as [|o table]; [discriminate|].
    apply bind_inv in Hrun as ([] & s1 & Hs & Hrun). injection Hs as <-.
    apply bind_inv in Hrun as (r1 & s2 & Hi & _).
    unfold after_shutdown in Hinit. rewrite Hinit in Hi. discriminate.
Qed.

(** X21.  What a failed reload puts back: the object table as it was, the
    current runlevel as it was, and of the inheritance relation the last
    pair only.  With no more than one pair stored the rollback is exact. *)
Theorem ReloadConfig_rollback_exact st st1 :
  ObjectTable st <> [] ->
  (String.length (CurRunlevel st) < MAX_DESCRIPT_SIZE)%nat ->
  InitConfig (after_shutdown st) = Some (FAILURE, st1) ->
  exists st',
    ReloadConfig st = Some (FAILURE, st')
    /\ ObjectTable st' = ObjectTable st
    /\ CurRunlevel st' = CurRunlevel st
    /\ RunlevelInheritance st'
       = match last (RunlevelInheritance st) with
         | Some p => [p]
         | None => []
         end
    /\ ((length (RunlevelInheritance st) <= 1)%nat ->
        RunlevelInheritance st' = RunlevelInheritance st).
Proof.
  intros Hne Hlen Hinit.
  destruct (ReloadConfig_rollback_state st st1 Hne Hlen Hinit)
    as (st' & Hrun & Ht & Hc & Hi & _).
  exists st'. repeat split; try assumption.
  intros Hone. rewrite Hi.
  destruct (RunlevelInheritance st) as [|p [|q tree]]; simpl in *;
    [reflexivity | reflexivity | lia].
Qed.

End ReloadOutcomeFacts.

(** A witness of X20: the reload of [running_state]. *)
Lemma ReloadConfig_outcomes_witness :
  exists r0 st1,
    @InitConfig linux (after_shutdown running_state) = Some (r0, st1)
    /\ SUCCESS = (if bool_decide (r0 = FAILURE) then FAILURE else SUCCESS)
    /\ EnableLogging (state_of (@ReloadConfig linux running_state))
       = EnableLogging running_state
    /\ DisableCAD (state_of (@ReloadConfig linux running_state))
       = DisableCAD running_state
    /\ AlignStatusReports (state_of (@ReloadConfig linux running_state))
       = AlignStatusReports running_state
    /\ Hostname (state_of (@ReloadConfig linux running_state)) = Hostname st1
    /\ ShellEnabled (state_of (@ReloadConfig linux running_state))
       = ShellEnabled st1
    /\ BlankLogOnBoot (state_of (@ReloadConfig linux running_state))
       = BlankLogOnBoot st1
    /\ BootBanner (state_of (@ReloadConfig linux running_state))
       = BootBanner st1
    /\ AutoMountOpts (state_of (@ReloadConfig linux running_state))
       = AutoMountOpts st1.
Proof.
  apply (@ReloadConfig_outcomes linux running_state SUCCESS
           (state_of (@ReloadConfig linux running_state))).
  vm_compute. reflexivity.
Defined.

(** A witness of X21: the reload of [stale_state]. *)
Lemma ReloadConfig_rollback_exact_witness :
  exists st',
    @ReloadConfig linux stale_state = Some (FAILURE, st')
    /\ ObjectTable st' = ObjectTable stale_state
    /\ CurRunlevel st' = CurRunlevel stale_state
    /\ RunlevelInheritance st'
       = match last (RunlevelInheritance stale_state) with
         | Some p => [p]
         | None => []
         end
    /\ ((length (RunlevelInheritance stale_state) <= 1)%nat ->
        RunlevelInheritance st' = RunlevelInheritance stale_state).
Proof.
  apply (@ReloadConfig_rollback_exact linux stale_state
           (state_of (@InitConfig linux (after_shutdown stale_state)))).
  - intros Heq. vm_compute in Heq. discriminate.
  - vm_compute. lia.
  - vm_compute. reflexivity.
Defined.

(** ** Lines of the configuration file *)

Section LineFacts.
Context `{Platform}.

(** X22.  Attributes out of place are dropped with a warning and change
    nothing else: an attribute of an object before the first ObjectID, and
    DefinePriority, Hostname or a first DefaultRunlevel after an ObjectID.
    A DefaultRunlevel line is dropped in silence once a runlevel is set, as
    it is on every reload. *)
Theorem attributes_out_of_place a rest lc st :
  LongComment lc = false ->
  (a ∈ object_attributes -> CurObj lc = None ->
   line_body (keyword a +:+ rest) lc st
   = Some (lc, set_Console
                 (EvConfigProblem CONFIG_EBEFORE (keyword a) None (LineNum lc)
                  :: Console st) st))
  /\ (a = A_DefinePriority \/ a = A_Hostname
      \/ (a = A_DefaultRunlevel /\ CurRunlevel st = EmptyString) ->
      CurObj lc <> None ->
      line_body (keyword a +:+ rest) lc st
      = Some (lc, set_Console
                    (EvConfigProblem CONFIG_EAFTER (keyword a) None (LineNum lc)
                     :: Console st) st))
  /\ (a = A_DefaultRunlevel -> CurRunlevel st <> EmptyString ->
      line_body (keyword a +:+ rest) lc st = Some (lc, st)).
Proof.
  intros Hlc. rewrite line_body_keyword by assumption.
  split; [|split].
  - intros Ha Hcur. unfold object_attributes in Ha.
    repeat (apply elem_of_cons in Ha as [->|Ha]);
      try (cbn [handle keyword];
           unfold do_ObjectEnabled, do_ObjectOptions, do_ObjectDescription,
             do_ObjectStartCommand, do_ObjectReloadCommand,
             do_ObjectStopCommand, do_priority, do_ObjectRunlevels,
             object_attr; rewrite Hcur; reflexivity).
    inversion Ha.
  - intros Ha Hcur. destruct (CurObj lc) as [i|] eqn:Ecur; [|congruence].
    destruct Ha as [->|[->|[-> Hrl]]]; cbn [handle keyword].
    + unfold do_DefinePriority. rewrite Ecur. reflexivity.
    + unfold do_Hostname. rewrite Ecur. reflexivity.
    + unfold do_DefaultRunlevel, mbind, M_bind, gets. rewrite Hrl, Ecur.
      reflexivity.
  - intros -> Hrl. cbn [handle keyword].
    unfold do_DefaultRunlevel, mbind, M_bind, gets.
    destruct (CurRunlevel st); [congruence | reflexivity].
Qed.

(** An attribute of the current object whose line has the keyword, one
    space and a value that fits the line buffer. *)
Lemma object_attr_value attr a value rest lc st i k :
  CurObj lc = Some i ->
  skip_blanks value = value -> free_of stop_nl value ->
  (String.length value < MAX_LINE_SIZE)%nat ->
  object_attr attr (keyword a +:+ " " +:+ value +:+ String NL rest) lc k st
  = k i value st.
Proof.
  intros Hcur Hskip Hnl Hlen. unfold object_attr. rewrite Hcur.
  unfold mbind, M_bind.
  now rewrite (GetLineDelim_value (keyword a) value rest st (keyword_free a)).
Qed.

(** X23.  An ObjectStopCommand line stores its value as the stop command
    only when the value begins with none of PIDFILE, PID and NONE: these are
    tested as the first bytes of the value, so a command that begins with one
    of them is taken for the stop mode of that name and is not stored. *)
Theorem ObjectStopCommand_line value rest lc st i :
  LongComment lc = false -> CurObj lc = Some i ->
  skip_blanks value = value -> free_of stop_nl value ->
  (String.length value + 1 < MAX_LINE_SIZE)%nat ->
  line_body ("ObjectStopCommand" +:+ " " +:+ value +:+ String NL rest) lc st
  = Some (lc, set_ObjectTable
                (alter (stop_command_of value) i (ObjectTable st)) st)
  /\ forall o,
       (String.prefix "PID" value = true ->
        ObjectStopCommand (stop_command_of value o) = ObjectStopCommand o
        /\ (StopMode (Opts (stop_command_of value o)) = STOP_PID
            \/ StopMode (Opts (stop_command_of value o)) = STOP_PIDFILE))
       /\ (String.prefix "NONE" value = true ->
           ObjectStopCommand (stop_command_of value o) = ObjectStopCommand o
           /\ StopMode (Opts (stop_command_of value o)) = STOP_NONE)
       /\ (String.prefix "PID" value = false ->
           String.prefix "NONE" value = false ->
           ObjectStopCommand (stop_command_of value o) = value
           /\ StopMode (Opts (stop_command_of value o)) = STOP_COMMAND).
Proof.
  intros Hlc Hcur Hskip Hnl Hlen. split.
  - change "ObjectStopCommand" with (keyword A_ObjectStopCommand).
    rewrite line_body_keyword by assumption. cbn [handle].
    unfold do_ObjectStopCommand.
    unfold mbind at 1, M_bind at 1.
    rewrite (object_attr_value _ _ _ _ _ _ i) by (assumption || lia).
    unfold check_truncated, when.
    destruct (Nat.leb_spec MAX_LINE_SIZE (String.length value + 1));
      [lia|].
    unfold stop_command_of, strncmp_eq, snprintf_s.
    rewrite (stake_all (MAX_LINE_SIZE - 1) value) by lia.
    destruct (String.prefix "PIDFILE" value);
      [|destruct (String.prefix "PID" value);
        [|destruct (String.prefix "NONE" value)]]; reflexivity.
  - intros o. unfold stop_command_of.
    assert (Hpf : String.prefix "PIDFILE" value = true ->
                  String.prefix "PID" value = true).
    { intros Hp. apply prefix_inv in Hp as [tail ->]. reflexivity. }
    assert (Hpn : String.prefix "PID" value = true ->
                  String.prefix "NONE" value = false).
    { intros Hp. apply prefix_inv in Hp as [tail ->]. reflexivity. }
    destruct (String.prefix "PIDFILE" value) eqn:E1.
    { rewrite (Hpf eq_refl), (Hpn (Hpf eq_refl)).
      repeat split; auto; discriminate. }
    destruct (String.prefix "PID" value) eqn:E2.
    { rewrite (Hpn eq_refl). repeat split; auto; discriminate. }
    destruct (String.prefix "NONE" value) eqn:E3;
      repeat split; auto; discriminate.
Qed.

(** X24.  A priority line whose value is not a number is looked up as an
    alias, and an alias that is bound to a target other than 0 gives the
    current object that target as its priority for the phase. *)
Theorem priority_alias_line a A rest lc st i :
  a = A_ObjectStartPriority \/ a = A_ObjectStopPriority ->
  LongComment lc = false -> CurObj lc = Some i ->
  skip_blanks A = A -> free_of stop_nl A -> AllNumeric A = false ->
  (String.length A < MAX_LINE_SIZE)%nat ->
  PriorityAlias_Lookup (PriorityAliasTree st) A <> 0 ->
  line_body (keyword a +:+ " " +:+ A +:+ String NL rest) lc st
  = Some (lc,
          set_ObjectTable
            (alter ((if bool_decide (a = A_ObjectStartPriority)
                     then set_ObjectStartPriority
                     else set_ObjectStopPriority)
                      (PriorityAlias_Lookup (PriorityAliasTree st) A))
               i (ObjectTable st)) st).
Proof.
  intros Ha Hlc Hcur Hskip Hnl Hnum Hlen Hlook.
  rewrite line_body_keyword by assumption.
  apply Z.eqb_neq in Hlook.
  destruct Ha as [-> | ->]; cbn [handle]; unfold do_priority;
    unfold mbind at 1, M_bind at 1;
    rewrite (object_attr_value _ _ _ _ _ _ i) by assumption;
    rewrite Hnum; cbn [negb]; unfold mbind, M_bind, gets;
    rewrite Hlook; reflexivity.
Qed.

End LineFacts.

(** Witnesses of X22, X23 and X24 on Linux. *)
Lemma attributes_out_of_place_witness :
  @line_body linux (keyword A_ObjectEnabled +:+ " true")
    (mkLocals None 3 false) (boot "" "")
  = Some (mkLocals None 3 false,
          set_Console
            [EvConfigProblem CONFIG_EBEFORE "ObjectEnabled" None 3]
            (boot "" "")).
Proof.
  apply (proj1 (@attributes_out_of_place linux A_ObjectEnabled " true"
                  (mkLocals None 3 false) (boot "" "") eq_refl));
    [|reflexivity].
  unfold object_attributes. left.
Defined.

Lemma ObjectStopCommand_line_witness :
  @line_body linux
    ("ObjectStopCommand" +:+ " " +:+ "PIDGIN --quit" +:+ String NL "")
    (in_object 0 7) alias_state
  = Some (in_object 0 7,
          set_ObjectTable
            (alter (@stop_command_of linux "PIDGIN --quit") 0%nat
               (ObjectTable alias_state)) alias_state).
Proof.
  apply (proj1 (@ObjectStopCommand_line linux "PIDGIN --quit" ""
                  (in_object 0 7) alias_state 0%nat eq_refl eq_refl eq_refl
                  eq_refl ltac:(simpl; lia))).
Defined.

Lemma from_idem stop s : from stop (from stop s) = from stop s.
Proof.
  induction s as [|c s IH]; simpl; [reflexivity|].
  destruct (stop c) eqn:Hc; [simpl; now rewrite Hc | exact IH].
Qed.

Lemma WhitespaceArg_from s : WhitespaceArg (from stop_word s) = WhitespaceArg s.
Proof. unfold WhitespaceArg. now rewrite from_idem. Qed.

Lemma skip_blanks_line l rest :
  free_of stop_nl l ->
  skip_blanks (l +:+ String NL rest) = skip_blanks l +:+ String NL rest.
Proof.
  induction l as [|c l IH]; [reflexivity|].
  intros [Hc Hl]%free_of_cons. simpl.
  destruct (is_blank c); [auto | reflexivity].
Qed.

Lemma prefix_line k x rest :
  free_of stop_nl k -> k <> EmptyString ->
  String.prefix k (x +:+ String NL rest) = String.prefix k x.
Proof.
  revert x. induction k as [|c k IH]; intros x Hk Hne; [congruence|].
  apply free_of_cons in Hk as [Hc Hk].
  destruct x as [|d x]; simpl.
  - destruct (ascii_dec c NL) as [->|]; [discriminate | reflexivity].
  - destruct (ascii_dec c d); [|reflexivity].
    destruct k as [|c' k']; [now destruct x|].
    apply IH; [assumption | discriminate].
Qed.

Section MoreLineFacts.
Context `{Platform}.

Lemma foldl_AddRunlevel ts : forall o,
  Forall (fun t => (String.length t < MAX_DESCRIPT_SIZE)%nat) ts ->
  foldl (fun o t => ObjRL_AddRunlevel t o) o ts
  = set_ObjectRunlevels (ObjectRunlevels o ++ ts) o.
Proof.
  induction ts as [|t ts IH]; intros o Hlen; simpl.
  - rewrite app_nil_r. now destruct o.
  - apply Forall_cons in Hlen as [Ht Hts]. rewrite IH by assumption.
    unfold ObjRL_AddRunlevel, snprintf_s. rewrite stake_all by lia.
    simpl. now rewrite <- app_assoc.
Qed.

Lemma runlevels_loop i ts : forall fuel st,
  ts <> [] -> Forall is_word ts ->
  Forall (fun t => (String.length t < MAX_DESCRIPT_SIZE)%nat) ts ->
  (length ts <= fuel)%nat ->
  args_loop fuel
    (fun TWorker =>
       let TRL := until stop_word TWorker in
       if (MAX_DESCRIPT_SIZE <=? String.length TRL)%nat
       then undefined
       else upd_obj i (ObjRL_AddRunlevel TRL);;
            mret (Some (from stop_word TWorker)))
    (words ts) st
  = Some (tt,
          set_ObjectTable
            (alter (fun o => foldl (fun o t => ObjRL_AddRunlevel t o) o ts)
               i (ObjectTable st)) st).
Proof.
  induction ts as [|t ts IH]; intros fuel st Hne Hw Hlen Hfuel; [congruence|].
  destruct fuel as [|fuel]; [simpl in Hfuel; lia|].
  apply Forall_cons in Hlen as [Ht Hts].
  pose proof Hw as Hw'. apply Forall_cons in Hw' as [Hwt Hwts].
  cbn [args_loop]. cbv zeta.
  assert (Htrl : until stop_word (words (t :: ts)) = t).
  { destruct ts as [|t' ts'].
    - simpl. apply until_free, Hwt.
    - rewrite words_cons by discriminate. rewrite until_app by apply Hwt.
      change (until stop_word (" " +:+ words (t' :: ts'))) with "".
      apply append_nil_r. }
  rewrite Htrl.
  destruct (Nat.leb_spec MAX_DESCRIPT_SIZE (String.length t)); [lia|].
  unfold mbind, M_bind, upd_obj, modify, mret, M_ret.
  rewrite WhitespaceArg_from, WhitespaceArg_words by assumption.
  destruct ts as [|t' ts']; [reflexivity|].
  rewrite IH; [|discriminate|assumption|assumption|simpl in *; lia].
  cbn [ObjectTable set_ObjectTable]. rewrite list_alter_alter_eq.
  reflexivity.
Qed.

(** X25.  An ObjectRunlevels line puts its words, in their order, at the
    end of the runlevel list of the current object: nothing is dropped,
    whether the object has the runlevel already or the line names it twice,
    and no other object is touched. *)
Theorem ObjectRunlevels_line ts rest lc st i :
  LongComment lc = false -> CurObj lc = Some i ->
  ts <> [] -> Forall is_word ts ->
  Forall (fun t => (String.length t < MAX_DESCRIPT_SIZE)%nat) ts ->
  (String.length (words ts) + 1 < MAX_LINE_SIZE)%nat ->
  exists st',
    line_body ("ObjectRunlevels" +:+ " " +:+ words ts +:+ String NL rest) lc st
    = Some (lc, st')
    /\ ObjectTable st'
       = alter (fun o => set_ObjectRunlevels (ObjectRunlevels o ++ ts) o) i
           (ObjectTable st).
Proof.
  intros Hlc Hcur Hne Hw Hlen Hline.
  set (W := "ObjectRunlevels" +:+ " " +:+ words ts +:+ String NL rest).
  assert (Hval : forall s, GetLineDelim W s = Some (Some (words ts), s)).
  { intros s.
    apply GetLineDelim_value; [reflexivity | | now apply words_no_nl | lia].
    destruct ts as [|t ts']; [congruence|].
    destruct (words_head t ts') as [tail Htail].
    rewrite <- (append_nil_r (words (t :: ts'))), Htail, append_assoc.
    apply skip_blanks_word. now inversion Hw. }
  assert (Hfuel : (length ts <= S (String.length (words ts)))%nat)
    by (pose proof (words_length ts Hw); lia).
  assert (Htail : forall s,
    (v ← GetLineDelim W;
     match v with
     | None =>
         ConfigProblem CONFIG_EMISSINGVAL "ObjectRunlevels" None (LineNum lc)
     | Some DelimCurr =>
         args_loop (S (String.length DelimCurr))
           (fun TWorker =>
              let TRL := until stop_word TWorker in
              if (MAX_DESCRIPT_SIZE <=? String.length TRL)%nat
              then undefined
              else upd_obj i (ObjRL_AddRunlevel TRL);;
                   mret (Some (from stop_word TWorker)))
           DelimCurr;;
         check_truncated MAX_LINE_SIZE "ObjectRunlevels" (Some DelimCurr)
           DelimCurr (LineNum lc)
     end) s
    = Some (tt,
            set_ObjectTable
              (alter (fun o => foldl (fun o t => ObjRL_AddRunlevel t o) o ts)
                 i (ObjectTable s)) s)).
  { intros s. erewrite bind_eq by apply Hval. cbv beta iota.
    erewrite bind_eq by (now apply runlevels_loop).
    unfold check_truncated, when.
    destruct (Nat.leb_spec MAX_LINE_SIZE (String.length (words ts) + 1));
      [lia | reflexivity]. }
  assert (Hext : forall table : list ObjTable,
    alter (fun o => foldl (fun o t => ObjRL_AddRunlevel t o) o ts) i table
    = alter (fun o => set_ObjectRunlevels (ObjectRunlevels o ++ ts) o) i
        table).
  { intros table. apply list_alter_ext; [|reflexivity].
    intros o _. now apply foldl_AddRunlevel. }
  assert (Hdo : exists st',
    do_ObjectRunlevels W lc st = Some (tt, st')
    /\ ObjectTable st'
       = alter (fun o => set_ObjectRunlevels (ObjectRunlevels o ++ ts) o) i
           (ObjectTable st)).
  { unfold do_ObjectRunlevels. rewrite Hcur.
    erewrite bind_eq by reflexivity. erewrite bind_eq by reflexivity.
    destruct (bool_decide (LastObject st = Some i));
      (erewrite bind_eq by reflexivity); (erewrite bind_eq by reflexivity);
      rewrite Htail; (eexists; split; [reflexivity|]); apply Hext. }
  destruct Hdo as (st' & Hdo & Ht). exists st'. split; [|exact Ht].
  subst W. change "ObjectRunlevels" with (keyword A_ObjectRunlevels) in *.
  rewrite line_body_keyword by assumption. cbn [handle].
  erewrite bind_eq by exact Hdo. reflexivity.
Qed.

Lemma rest_of_lines_line l R lc st :
  free_of stop_nl l -> R <> EmptyString ->
  rest_of_lines (l +:+ String NL R) lc st = parse_from R (next_line lc) st.
Proof.
  intros Hl HR. induction l as [|c l IH].
  - cbn [String.append rest_of_lines].
    change (Ascii.eqb NL NL) with true. cbv iota.
    destruct R; [congruence | reflexivity].
  - apply free_of_cons in Hl as [Hc Hl].
    change (String c l +:+ String NL R) with (String c (l +:+ String NL R)).
    cbn [rest_of_lines]. unfold stop_nl in Hc. rewrite Hc. auto.
Qed.

(** X26.  The lines of a block comment count as lines and do nothing
    else: inside a comment opened by a line that begins with the three bytes
    of the opener, the parser passes over every line that does not begin,
    after its blanks, with the three bytes of the terminator, whatever the
    line holds. *)
Theorem block_comment_lines ls tail lc st :
  LongComment lc = true -> tail <> EmptyString ->
  Forall (fun l => free_of stop_nl l
                   /\ strncmp_eq (skip_blanks l) "<!<" = false) ls ->
  parse_from (text ls +:+ tail) lc st
  = parse_from tail
      (mkLocals (CurObj lc) (LineNum lc + length ls) true) st.
Proof.
  intros Hlc Htail Hls. revert lc Hlc.
  induction Hls as [|l ls [Hnl Hterm] _ IH]; intros lc Hlc.
  - simpl. rewrite Nat.add_0_r. destruct lc; simpl in *. now subst.
  - cbn [text]. rewrite append_assoc.
    change (String NL (text ls) +:+ tail) with (String NL (text ls +:+ tail)).
    unfold parse_from at 1.
    assert (Hbody : line_body (l +:+ String NL (text ls +:+ tail)) lc st
                    = Some (lc, st)).
    { unfold line_body. rewrite skip_blanks_line by assumption.
      unfold strncmp_eq in *.
      rewrite prefix_line by (reflexivity || discriminate).
      now rewrite Hterm, Hlc. }
    unfold mbind, M_bind. rewrite Hbody.
    rewrite rest_of_lines_line; [|assumption|].
    + rewrite IH by exact Hlc. cbn [CurObj LineNum next_line].
      replace (LineNum lc + length (l :: ls))%nat
        with (S (LineNum lc) + length ls)%nat by (simpl; lia).
      reflexivity.
    + destruct ls as [|l0 ls0]; [exact Htail|].
      cbn [text]. destruct l0; discriminate.
Qed.

End MoreLineFacts.

(** Witnesses of X24, X25 and X26 on Linux. *)
Lemma priority_alias_line_witness :
  @line_body linux
    (keyword A_ObjectStartPriority +:+ " " +:+ "Services" +:+ String NL "")
    (in_object 0 7) services_state
  = Some (in_object 0 7,
          set_ObjectTable
            (alter (set_ObjectStartPriority 3) 0%nat
               (ObjectTable services_state)) services_state).
Proof.
  apply (@priority_alias_line linux A_ObjectStartPriority "Services" ""
           (in_object 0 7) services_state 0%nat);
    try reflexivity; [now left | simpl; lia | discriminate].
Defined.

Lemma ObjectRunlevels_line_witness :
  exists st',
    @line_body linux
      ("ObjectRunlevels" +:+ " " +:+ words ["default"; "rescue"; "default"]
       +:+ String NL "")
      (in_object 0 7) alias_state
    = Some (in_object 0 7, st')
    /\ ObjectTable st'
       = alter (fun o => set_ObjectRunlevels
                           (ObjectRunlevels o
                            ++ ["default"; "rescue"; "default"]) o) 0%nat
           (ObjectTable alias_state).
Proof.
  apply (@ObjectRunlevels_line linux ["default"; "rescue"; "default"] ""
           (in_object 0 7) alias_state 0%nat);
    try reflexivity; try discriminate.
  - repeat constructor; discriminate.
  - repeat constructor; simpl; lia.
  - simpl. lia.
Defined.

Lemma block_comment_lines_witness :
  @parse_from linux
    (text ["ObjectID ghost"; "  ObjectEnabled true"] +:+ "<!<")
    (mkLocals None 2 true) (boot "" "")
  = @parse_from linux "<!<" (mkLocals None (2 + 2) true) (boot "" "").
Proof.
  apply (@block_comment_lines linux
           ["ObjectID ghost"; "  ObjectEnabled true"] "<!<"
           (mkLocals None 2 true) (boot "" "") eq_refl);
    [discriminate|].
  repeat constructor.
Defined.

(** ** [EditConfigValue] *)

Lemma stake_sdrop n s : stake n s +:+ sdrop n s = s.
Proof.
  revert s; induction n as [|n IH]; intros [|c s]; simpl; try reflexivity.
  now rewrite IH.
Qed.

Lemma stake_length_exact n s :
  (n <= String.length s)%nat -> String.length (stake n s) = n.
Proof.
  revert s; induction n as [|n IH]; intros [|c s] Hn; simpl in *;
    try reflexivity; try lia.
  rewrite IH by lia. reflexivity.
Qed.

Lemma sdrop_byte n s :
  (n < String.length s)%nat ->
  sdrop n s = String (byte_at s n) (sdrop (S n) s).
Proof.
  revert s; induction n as [|n IH]; intros [|c s] Hn; simpl in *; try lia.
  - reflexivity.
  - rewrite IH by lia. reflexivity.
Qed.

Lemma sdrop_sdrop a b s : sdrop b (sdrop a s) = sdrop (a + b) s.
Proof.
  revert s; induction a as [|a IH]; intros s; [reflexivity|].
  destruct s as [|c s]; simpl; [now destruct b | apply IH].
Qed.

Lemma sdrop_stake n k s : sdrop n (stake k s) = stake (k - n) (sdrop n s).
Proof.
  revert k s; induction n as [|n IH]; intros k s.
  - now rewrite Nat.sub_0_r.
  - destruct k as [|k]; destruct s as [|c s]; simpl; try reflexivity.
    + now destruct (k - n)%nat.
    + apply IH.
Qed.

Lemma prefix_stake k m s :
  String.prefix k (stake m s) = true -> String.prefix k s = true.
Proof.
  revert m s; induction k as [|c k IH]; intros m s; [now destruct s|].
  destruct m as [|m]; destruct s as [|d s]; simpl; try discriminate.
  destruct (ascii_dec c d); [apply IH | discriminate].
Qed.

Lemma strstr_prefix hay needle n :
  strstr hay needle = Some n -> String.prefix needle (sdrop n hay) = true.
Proof.
  revert n; induction hay as [|c hay IH]; intros n; cbn [strstr].
  - destruct (String.prefix needle "") eqn:E; [now intros [= <-]|discriminate].
  - destruct (String.prefix needle (String c hay)) eqn:E;
      [now intros [= <-]|].
    destruct (strstr hay needle) as [k|]; [|discriminate].
    intros [= <-]. now apply IH.
Qed.

Lemma from_stops s : at_eol (from stop_nl s) = true.
Proof.
  induction s as [|c s IH]; [reflexivity|]. simpl.
  unfold stop_nl at 1. destruct (Ascii.eqb c NL) eqn:E; [exact E | exact IH].
Qed.

(** The separator that an edit keeps is the run of ['='] signs and blanks
    behind the keyword; the code measures it as one ['='] or as the blanks
    it begins with, and the two agree on the run itself. *)
Lemma blank_run_until s : blank_run (until stop_sep s) = blank_run s.
Proof.
  induction s as [|c s IH]; [reflexivity|]. cbn [until blank_run].
  destruct (is_blank c) eqn:Hc.
  - unfold stop_sep at 1. rewrite Hc, orb_true_r. cbn [negb blank_run].
    now rewrite Hc, IH.
  - now destruct (stop_sep c); cbn [blank_run]; rewrite ?Hc.
Qed.

Lemma sep_width_until s : sep_width (until stop_sep s) = sep_width s.
Proof.
  unfold sep_width. rewrite blank_run_until.
  destruct s as [|c s]; [reflexivity|]. cbn [until at_equals].
  destruct (Ascii.eqb c "=") eqn:Eeq.
  - unfold stop_sep at 1. rewrite Eeq. cbn [orb negb at_equals].
    now rewrite Eeq.
  - destruct (stop_sep c); cbn [at_equals]; now rewrite ?Eeq.
Qed.

Lemma from_head stop s c r : from stop s = String c r -> stop c = true.
Proof.
  induction s as [|d s IH]; [discriminate|]. cbn [from].
  destruct (stop d) eqn:Hd; [|exact IH]. now intros [= <- _].
Qed.

Lemma separator_head at_sep :
  at_eol at_sep = false -> from stop_key at_sep = at_sep ->
  until stop_sep at_sep <> EmptyString.
Proof.
  intros Heol Hstop. destruct at_sep as [|c r]; [discriminate|].
  apply from_head in Hstop. cbn [at_eol] in Heol. unfold stop_key in Hstop.
  rewrite Heol, orb_false_r in Hstop.
  cbn [until]. unfold stop_sep at 1. rewrite orb_comm, Hstop. discriminate.
Qed.

Lemma blank_not_equals c : is_blank c = true -> Ascii.eqb c "=" = false.
Proof.
  intros Hc. destruct (Ascii.eqb_spec c "=") as [->|]; [discriminate|reflexivity].
Qed.

Lemma all_blank_run_id s : all_blank s = true -> blank_run s = s.
Proof.
  induction s as [|c s IH]; [reflexivity|]. cbn [all_blank blank_run].
  intros [Hc Hs]%andb_prop. now rewrite Hc, IH.
Qed.

(** On a separator that is one ['='] or a run of blanks the measure is the
    length. *)
Lemma sep_width_pure sep :
  sep = "=" \/ all_blank sep = true -> sep_width sep = String.length sep.
Proof.
  intros [->|Hb]; [reflexivity|]. unfold sep_width.
  rewrite (all_blank_run_id _ Hb). destruct sep as [|c r]; [reflexivity|].
  cbn [all_blank] in Hb. apply andb_prop in Hb as [Hc _].
  cbn [at_equals]. now rewrite (blank_not_equals _ Hc).
Qed.

Section EditForm.
Context `{Platform}.

(** X27.  What a successful edit writes.  The file is cut at an occurrence
    of the attribute name.  Behind the first word there stands the
    separator, the run of ['='] signs and blanks up to the old value; the
    code measures it as 1 when it begins with ['='] and as the number of
    blanks it begins with otherwise.  Everything from the occurrence to the
    end of that line is replaced by the name, the separator and the new
    value, cut to the length of the name, the measure and the new value: on
    a separator that is one ['='] or a run of blanks nothing is cut, and on
    one that mixes them the new value loses the bytes that the measure
    misses.  The bytes before the occurrence and the lines after that line
    are written back as they were, and nothing but the file changes. *)
Theorem EditConfigValue_rewrites_one_value id Attribute Value st st' :
  EditConfigValue id Attribute Value st = Some (SUCCESS, st') ->
  exists bytes before c key sep old after,
    ConfFile st = Some bytes
    /\ c_str bytes = before +:+ String c key +:+ sep +:+ old +:+ after
    /\ String.prefix Attribute (String c key +:+ sep +:+ old +:+ after) = true
    /\ free_of stop_key key
    /\ sep <> EmptyString /\ free_of stop_sep sep
    /\ (forall d r, old = String d r -> stop_sep d = true)
    /\ free_of stop_nl old
    /\ at_eol after = true
    /\ st' = set_ConfFile
               (Some (before
                      +:+ stake (String.length Attribute + sep_width sep
                                 + String.length Value)
                            (Attribute +:+ sep +:+ Value)
                      +:+ after)) st
    /\ (sep = "=" \/ all_blank sep = true ->
        st' = set_ConfFile
                (Some (before +:+ Attribute +:+ sep +:+ Value +:+ after)) st).
Proof.
  intros Hedit.
  destruct (ConfFile st) as [bytes|] eqn:Hconf.
  2: { unfold EditConfigValue in Hedit.
       apply bind_inv in Hedit as (conf & s & Hg & Hedit).
       injection Hg as <- <-. rewrite Hconf in Hedit.
       apply bind_inv in Hedit as ([] & s & _ & Hedit). discriminate. }
  assert (Hne : c_str bytes <> EmptyString).
  { intros He. unfold EditConfigValue in Hedit.
    apply bind_inv in Hedit as (conf & s & Hg & Hedit).
    injection Hg as <- <-. rewrite Hconf, He in Hedit. discriminate. }
  rewrite (EditConfigValue_unfold _ _ _ _ _ Hconf Hne) in Hedit.
  set (M := c_str bytes) in *. unfold rewrite_stream in Hedit.
  destruct (find_object M id) as [| |[Worker|]]; try discriminate.
  destruct (strstr (section_of M Worker) Attribute) as [found|] eqn:Hfound;
    [|discriminate].
  destruct (Ascii.eqb _ "#"%char); [discriminate|].
  destruct (Nat.leb_spec (String.length M) (Worker + found)) as [|Hpos];
    [discriminate|].
  set (pos := (Worker + found)%nat) in *.
  set (X := sdrop (S pos) M) in *.
  destruct (at_eol (from stop_key X)) eqn:Heol; [discriminate|].
  set (at_sep := from stop_key X) in *.
  destruct (Nat.ltb _ _); [discriminate|].
  injection Hedit as <-.
  set (WS := until stop_sep at_sep) in *.
  set (Y := from stop_sep at_sep) in *.
  assert (HM : M = stake pos M +:+ String (byte_at M pos) (until stop_key X)
                   +:+ WS +:+ line_of Y +:+ skip_line Y).
  { rewrite <- (stake_sdrop pos M) at 1. f_equal.
    rewrite (sdrop_byte pos M Hpos). fold X.
    change (String (byte_at M pos) (until stop_key X) +:+ ?t)
      with (String (byte_at M pos) (until stop_key X +:+ t)).
    f_equal. rewrite <- (until_from stop_key X) at 1. f_equal.
    fold at_sep. rewrite <- (until_from stop_sep at_sep) at 1.
    fold WS Y. f_equal. symmetry. apply until_from. }
  assert (Hw : sep_width at_sep = sep_width WS)
    by (symmetry; apply sep_width_until).
  assert (Hnew : snprintf_s
                   (String.length Attribute + sep_width at_sep
                    + String.length Value + 1) (Attribute +:+ WS +:+ Value)
                 = stake (String.length Attribute + sep_width WS
                          + String.length Value)
                     (Attribute +:+ WS +:+ Value)).
  { unfold snprintf_s. rewrite Hw. f_equal. lia. }
  exists bytes, (stake pos M), (byte_at M pos), (until stop_key X), WS,
         (line_of Y), (skip_line Y).
  split; [reflexivity|]. split; [exact HM|]. split.
  { rewrite <- (sdrop_app pos (stake pos M)
                  (String (byte_at M pos) (until stop_key X)
                   +:+ WS +:+ line_of Y +:+ skip_line Y)).
    - rewrite <- HM. subst pos. rewrite <- sdrop_sdrop.
      apply strstr_prefix in Hfound. unfold section_of in Hfound.
      destruct (strstr (sdrop Worker M) "ObjectID") as [Stopper|];
        [|exact Hfound].
      rewrite sdrop_stake in Hfound. now apply prefix_stake in Hfound.
    - symmetry. apply stake_length_exact. lia. }
  split; [apply until_is_free|].
  split; [apply separator_head; [exact Heol | apply from_idem]|].
  split; [apply until_is_free|]. split.
  { intros d r Hold. unfold line_of in Hold.
    destruct Y as [|e Y'] eqn:EY; [discriminate|].
    cbn [until] in Hold. destruct (stop_nl e); [discriminate|].
    injection Hold as -> _. exact (from_head _ _ _ _ EY). }
  split; [apply until_is_free|]. split; [apply from_stops|].
  rewrite Hnew. split; [reflexivity|].
  intros Hpure. do 3 f_equal.
  rewrite (sep_width_pure _ Hpure), stake_all; [now rewrite !append_assoc|].
  rewrite !length_append. lia.
Qed.

End EditForm.

(** A witness of X27: the edit of [mixed_separator_conf], whose separator
    is an ['='] and a blank.  The measure is 1, and the new value "/bin/b"
    is written without its last byte. *)
Lemma EditConfigValue_rewrites_one_value_witness :
  exists bytes before c key sep old after,
    ConfFile (boot mixed_separator_conf "") = Some bytes
    /\ c_str bytes = before +:+ String c key +:+ sep +:+ old +:+ after
    /\ String.prefix "ObjectStartCommand"
         (String c key +:+ sep +:+ old +:+ after) = true
    /\ free_of stop_key key
    /\ sep <> EmptyString /\ free_of stop_sep sep
    /\ (forall d r, old = String d r -> stop_sep d = true)
    /\ free_of stop_nl old
    /\ at_eol after = true
    /\ set_ConfFile (Some mixed_separator_conf_edited)
         (boot mixed_separator_conf "")
       = set_ConfFile
           (Some (before
                  +:+ stake (String.length "ObjectStartCommand" + sep_width sep
                             + String.length "/bin/b")
                        ("ObjectStartCommand" +:+ sep +:+ "/bin/b")
                  +:+ after))
           (boot mixed_separator_conf "")
    /\ (sep = "=" \/ all_blank sep = true ->
        set_ConfFile (Some mixed_separator_conf_edited)
          (boot mixed_separator_conf "")
        = set_ConfFile
            (Some (before +:+ "ObjectStartCommand" +:+ sep +:+ "/bin/b"
                   +:+ after))
            (boot mixed_separator_conf "")).
Proof.
  apply (@EditConfigValue_rewrites_one_value linux "svc" "ObjectStartCommand"
           "/bin/b" (boot mixed_separator_conf "")).
  vm_compute. reflexivity.
Defined.

(** The edit of [mixed_separator_conf] and the edit of [empty_value_conf],
    whose separator is one blank: the first loses a byte of the new value,
    the second writes it whole. *)
Example EditConfigValue_separators :
  @EditConfigValue linux "svc" "ObjectStartCommand" "/bin/b"
    (boot mixed_separator_conf "")
  = Some (SUCCESS,
          set_ConfFile (Some mixed_separator_conf_edited)
            (boot mixed_separator_conf ""))
  /\ @EditConfigValue linux "svc" "ObjectDescription" "Service"
       (boot empty_value_conf "")
     = Some (SUCCESS,
             set_ConfFile (Some empty_value_conf_edited)
               (boot empty_value_conf "")).
Proof. split; vm_compute; reflexivity. Qed.

(** ** The arguments of an ObjectOptions line *)

Section OptionLineFacts.
Context `{Platform}.

Lemma option_arg_unknown i line t st :
  t ∉ flag_options -> String.prefix "TERMSIGNAL" t = false ->
  option_arg i line t st
  = Some (false,
          set_Console
            (EvConfigProblem CONFIG_EBADVAL "ObjectOptions" (Some t) line
             :: Console st) st).
Proof.
  intros Hin Hp. unfold option_arg, strncmp_eq. rewrite Hp.
  unfold flag_options in Hin.
  repeat (apply not_elem_of_cons in Hin as [?%strcmp_eq_false Hin]).
  repeat match goal with
         | Hf : strcmp_eq t ?k = false |- _ => rewrite Hf; clear Hf
         end.
  reflexivity.
Qed.

Lemma run_options_break i line pre bad post :
  bad ∉ flag_options -> String.prefix "TERMSIGNAL" bad = false ->
  forall st,
    run_options i line (pre ++ bad :: post) st
    = run_options i line (pre ++ [bad]) st.
Proof.
  intros Hin Hp. induction pre as [|t pre IH]; intros st.
  - cbn [app run_options]. unfold mbind, M_bind.
    now rewrite option_arg_unknown.
  - cbn [app run_options]. unfold mbind, M_bind.
    destruct (option_arg i line t st) as [[[|] st1]|]; auto.
Qed.

(** An ObjectOptions line of words takes its arguments one after the
    other. *)
Lemma ObjectOptions_line_words ts rest lc st i :
  LongComment lc = false -> CurObj lc = Some i ->
  ts <> [] -> Forall is_word ts ->
  Forall (fun t => (String.length t < MAX_DESCRIPT_SIZE)%nat) ts ->
  (String.length (words ts) + 1 < MAX_LINE_SIZE)%nat ->
  line_body ("ObjectOptions" +:+ " " +:+ words ts +:+ String NL rest) lc st
  = (run_options i (LineNum lc) ts;; mret lc) st.
Proof.
  intros Hlc Hcur Hne Hw Hlen Hline.
  assert (Hval : GetLineDelim
                   ("ObjectOptions" +:+ " " +:+ words ts +:+ String NL rest) st
                 = Some (Some (words ts), st)).
  { apply GetLineDelim_value; [reflexivity | | now apply words_no_nl | lia].
    destruct ts as [|t ts']; [congruence|].
    destruct (words_head t ts') as [tail Htail].
    rewrite <- (append_nil_r (words (t :: ts'))), Htail, append_assoc.
    apply skip_blanks_word. now inversion Hw. }
  set (R := (run_options i (LineNum lc) ts;; mret lc) st).
  change "ObjectOptions" with (keyword A_ObjectOptions).
  rewrite line_body_keyword by assumption.
  cbn [handle keyword]. unfold do_ObjectOptions, object_attr. rewrite Hcur.
  unfold mbind at 1, M_bind at 1.
  rewrite (bind_eq _ _ _ _ _ Hval). cbv beta iota.
  unfold check_truncated, when.
  destruct (Nat.leb_spec MAX_LINE_SIZE (String.length (words ts) + 1));
    [lia|].
  unfold mbind at 1, M_bind at 1, mret at 1, M_ret at 1.
  rewrite args_loop_words; try assumption; [reflexivity|].
  pose proof (words_length ts Hw). lia.
Qed.

(** X28.  An argument of an ObjectOptions line that is no option ends the
    line: it is reported as a bad value, and the arguments behind it are not
    looked at, so the line acts as the line that stops at that argument. *)
Theorem ObjectOptions_unknown_argument pre bad post rest lc st i :
  LongComment lc = false -> CurObj lc = Some i ->
  Forall is_word (pre ++ bad :: post) ->
  Forall (fun t => (String.length t < MAX_DESCRIPT_SIZE)%nat)
    (pre ++ bad :: post) ->
  (String.length (words (pre ++ bad :: post)) + 1 < MAX_LINE_SIZE)%nat ->
  bad ∉ flag_options -> String.prefix "TERMSIGNAL" bad = false ->
  line_body
    ("ObjectOptions" +:+ " " +:+ words (pre ++ bad :: post)
     +:+ String NL rest) lc st
  = (run_options i (LineNum lc) (pre ++ [bad]);; mret lc) st
  /\ forall s,
       option_arg i (LineNum lc) bad s
       = Some (false,
               set_Console
                 (EvConfigProblem CONFIG_EBADVAL "ObjectOptions" (Some bad)
                    (LineNum lc) :: Console s) s).
Proof.
  intros Hlc Hcur Hw Hlen Hline Hin Hp. split.
  - rewrite (ObjectOptions_line_words _ _ _ _ i) by
      (assumption || now destruct pre).
    unfold mbind, M_bind. now rewrite run_options_break.
  - intros s. now apply option_arg_unknown.
Qed.

End OptionLineFacts.

(** A witness of X28: SERVICE is set, BOGUS is reported, and AUTORESTART is
    not reached. *)
Lemma ObjectOptions_unknown_argument_witness :
  @line_body linux
    ("ObjectOptions" +:+ " " +:+ words (["SERVICE"] ++ "BOGUS" :: ["AUTORESTART"])
     +:+ String NL "") (in_object 0 7) alias_state
  = (@run_options linux 0 7 (["SERVICE"] ++ ["BOGUS"]);; mret (in_object 0 7))
      alias_state
  /\ forall s,
       @option_arg linux 0 7 "BOGUS" s
       = Some (false,
               set_Console
                 (EvConfigProblem CONFIG_EBADVAL "ObjectOptions" (Some "BOGUS")
                    7 :: Console s) s).
Proof.
  apply (@ObjectOptions_unknown_argument linux ["SERVICE"] "BOGUS"
           ["AUTORESTART"] "" (in_object 0 7) alias_state 0%nat);
    try reflexivity.
  - repeat constructor; discriminate.
  - repeat constructor; simpl; lia.
  - simpl. lia.
  - unfold flag_options. intros Hin.
    repeat (apply elem_of_cons in Hin as [Hin|Hin]; [discriminate|]).
    inversion Hin.
Defined.

(** ** What [ScanConfigIntegrity] changes *)

Section ScanRepairs.
Context `{Platform}.

Lemma same_refl st : same_but_table_console st st.
Proof. unfold same_but_table_console. now destruct st. Qed.

Lemma same_trans a b c :
  same_but_table_console a b -> same_but_table_console b c ->
  same_but_table_console a c.
Proof.
  unfold same_but_table_console. intros Hab Hbc. rewrite Hbc, Hab.
  reflexivity.
Qed.

Lemma scan_step_table k cond ev repair r' r st r1 st' :
  scan_step k cond ev repair r' r st = Some (r1, st') ->
  ObjectTable st'
  = alter (fun W => if cond W then repair W else W) k (ObjectTable st)
  /\ same_but_table_console st st'.
Proof.
  unfold scan_step, mbind, M_bind, gets.
  destruct (ObjectTable st !! k) as [W|] eqn:HW.
  - destruct (cond W) eqn:Hc.
    + unfold emit, upd_obj, modify, mret, M_ret. intros [= _ <-]. split.
      * cbn. apply list_alter_ext; [|reflexivity].
        intros x Hx. rewrite HW in Hx. injection Hx as <-. now rewrite Hc.
      * unfold same_but_table_console. now destruct st.
    + intros [= _ <-]. split; [|apply same_refl]. symmetry.
      apply list_eq. intros j. rewrite list_lookup_alter.
      destruct (decide (k = j)) as [<-|]; [|reflexivity].
      rewrite HW. simpl. now rewrite Hc.
  - intros [= _ <-]. split; [|apply same_refl]. symmetry.
    apply list_eq. intros j. rewrite list_lookup_alter.
    destruct (decide (k = j)) as [<-|]; [|reflexivity]. now rewrite HW.
Qed.

Lemma scan_duplicates_table k id offenders :
  forall t r st r1 st',
    scan_duplicates k t id offenders r st = Some (r1, st') ->
    ObjectTable st' = ObjectTable st /\ same_but_table_console st st'.
Proof.
  induction offenders as [|x offenders IH]; intros t r st r1 st';
    cbn [scan_duplicates].
  - intros [= _ <-]. split; [reflexivity | apply same_refl].
  - destruct (andb _ _).
    + intros Hm. apply bind_inv in Hm as ([] & st1 & He & Hm).
      injection He as <-. apply IH in Hm as [Ht Hs]. split; [exact Ht|].
      eapply same_trans; [|exact Hs].
      unfold same_but_table_console. now destruct st.
    + apply IH.
Qed.

Lemma scan_object_table k r st r1 st' :
  scan_object k r st = Some (r1, st') ->
  ObjectTable st' = alter repair_of k (ObjectTable st)
  /\ same_but_table_console st st'.
Proof.
  unfold scan_object. intros Hm.
  apply bind_inv in Hm as (r1' & st1 & H1 & Hm).
  apply bind_inv in Hm as (r2 & st2 & H2 & Hm).
  apply bind_inv in Hm as (r3 & st3 & H3 & Hm).
  apply bind_inv in Hm as (r4 & st4 & H4 & Hm).
  apply bind_inv in Hm as (r5 & st5 & H5 & Hm).
  apply bind_inv in Hm as (r6 & st6 & H6 & Hm).
  apply bind_inv in Hm as (table & st7 & Hg & Hm).
  injection Hg as <- <-.
  assert (Hlast : ObjectTable st' = ObjectTable st6
                  /\ same_but_table_console st6 st').
  { destruct (ObjectTable st6 !! k) as [W|].
    - now apply scan_duplicates_table in Hm.
    - injection Hm as _ <-. split; [reflexivity | apply same_refl]. }
  destruct Hlast as [Ht7 Hs7].
  apply scan_step_table in H1 as [T1 S1]. apply scan_step_table in H2 as [T2 S2].
  apply scan_step_table in H3 as [T3 S3]. apply scan_step_table in H4 as [T4 S4].
  apply scan_step_table in H5 as [T5 S5]. apply scan_step_table in H6 as [T6 S6].
  split.
  - rewrite Ht7, T6, T5, T4, T3, T2, T1. rewrite !list_alter_alter_eq.
    apply list_alter_ext; [|reflexivity]. intros W _.
    unfold repair_of, compose. cbv zeta.
    repeat match goal with
           | |- context [if ?b then ?x else ?x] =>
               replace (if b then x else x) with x by now destruct b
           end.
    reflexivity.
  - exact (same_trans _ _ _ S1 (same_trans _ _ _ S2 (same_trans _ _ _ S3
             (same_trans _ _ _ S4 (same_trans _ _ _ S5
                (same_trans _ _ _ S6 Hs7)))))).
Qed.

Lemma scan_objects_table n :
  forall k r st r1 st',
    scan_objects n k r st = Some (r1, st') ->
    (forall j,
       ObjectTable st' !! j
       = if bool_decide (k <= j < k + n)%nat
         then repair_of <$> ObjectTable st !! j
         else ObjectTable st !! j)
    /\ same_but_table_console st st'.
Proof.
  induction n as [|n IH]; intros k r st r1 st'; cbn [scan_objects].
  - intros [= _ <-]. split; [|apply same_refl].
    intros j. rewrite bool_decide_eq_false_2 by lia. reflexivity.
  - intros Hm. apply bind_inv in Hm as (r2 & st1 & Hobj & Hm).
    apply scan_object_table in Hobj as [T1 S1].
    apply IH in Hm as [T2 S2].
    split; [|eapply same_trans; eassumption].
    intros j. rewrite T2, T1.
    destruct (decide (j = k)) as [->|Hne].
    + rewrite bool_decide_eq_false_2 by lia.
      rewrite bool_decide_eq_true_2 by lia.
      now rewrite list_lookup_alter_eq.
    + rewrite list_lookup_alter_ne by congruence.
      destruct (decide (S k <= j < S k + n)%nat).
      * now rewrite !bool_decide_eq_true_2 by lia.
      * now rewrite !bool_decide_eq_false_2 by lia.
Qed.

Lemma scan_objects_repairs st r st' :
  scan_objects (length (ObjectTable st)) 0 SUCCESS st = Some (r, st') ->
  ObjectTable st' = repair_of <$> ObjectTable st
  /\ same_but_table_console st st'.
Proof.
  intros Hm. apply scan_objects_table in Hm as [Ht Hs].
  split; [|exact Hs]. apply list_eq. intros j.
  rewrite Ht, list_lookup_fmap.
  destruct (decide (j < length (ObjectTable st))%nat) as [Hj|Hj].
  - now rewrite bool_decide_eq_true_2 by lia.
  - rewrite bool_decide_eq_false_2 by lia.
    rewrite lookup_ge_None_2 by lia. reflexivity.
Qed.

Lemma missing_description_not_empty :
  (1 < MAX_DESCRIPT_SIZE)%nat -> missing_description <> EmptyString.
Proof.
  intros Hsize. unfold missing_description, snprintf_s.
  destruct (MAX_DESCRIPT_SIZE - 1)%nat as [|n] eqn:En; [lia|].
  destruct CONSOLE_COLOR_YELLOW; discriminate.
Qed.

(** X29.  [ScanConfigIntegrity] changes the table by its repairs only,
    object by object: an empty description becomes the placeholder, and an
    object without a start command that is not halt-only, or a halt-only
    object stopped by PID, is disabled.  Nothing else of an object is
    touched, whatever the status returned, and a FAILURE for the want of
    objects or of a runlevel leaves the table as it is.  After the repairs
    no object is without description. *)
Theorem ScanConfigIntegrity_repairs st r st' :
  ScanConfigIntegrity st = Some (r, st') ->
  ((r = FAILURE /\ ObjectTable st' = ObjectTable st)
   \/ ObjectTable st' = repair_of <$> ObjectTable st)
  /\ ((1 < MAX_DESCRIPT_SIZE)%nat ->
      Forall (fun o => ObjectDescription o <> EmptyString)
        (repair_of <$> ObjectTable st)).
Proof.
  intros Hm. split.
  - unfold ScanConfigIntegrity in Hm.
    apply bind_inv in Hm as (st0 & st1 & Hg & Hm). injection Hg as <- <-.
    destruct (ObjectTable st) as [|o table] eqn:Et.
    { apply bind_inv in Hm as ([] & st1 & He & Hm). injection He as <-.
      injection Hm as <- <-. left. split; [reflexivity | exact Et]. }
    rewrite <- Et in *.
    assert (Hscan : forall s,
      (r0 ← scan_objects (length (ObjectTable st)) 0 SUCCESS;
       modify (set_WasRunBefore true);; mret r0) s = Some (r, st') ->
      ObjectTable s = ObjectTable st ->
      ObjectTable st' = repair_of <$> ObjectTable st).
    { intros s Hs Hts.
      apply bind_inv in Hs as (r0 & s1 & Hobj & Hs).
      apply bind_inv in Hs as ([] & s2 & Hmod & Hs).
      injection Hmod as <-. injection Hs as _ <-.
      rewrite <- Hts in Hobj. apply scan_objects_repairs in Hobj as [Ht _].
      cbn. now rewrite Ht, Hts. }
    destruct (is_empty (CurRunlevel st) || negb _).
    + apply bind_inv in Hm as ([] & st1 & He & Hm).
      assert (Ht1 : ObjectTable st1 = ObjectTable st)
        by (destruct (is_empty (CurRunlevel st)); now injection He as <-).
      destruct (negb (WasRunBefore st)).
      * apply bind_inv in Hm as ([] & st2 & Hp & Hm).
        apply prompt_runlevel_valid in Hp as (Ht2 & _).
        right. apply (Hscan st2 Hm). congruence.
      * injection Hm as <- <-. left. split; [reflexivity | exact Ht1].
    + right. now apply (Hscan st).
  - intros Hsize. apply Forall_fmap, Forall_forall. intros o _. cbn.
    unfold repair_of. cbv zeta.
    destruct (is_empty (ObjectDescription o)) eqn:Ed.
    + repeat match goal with
             | |- context [if ?b then _ else _] => destruct b
             end; now apply missing_description_not_empty.
    + apply is_empty_false in Ed.
      repeat match goal with
             | |- context [if ?b then _ else _] => destruct b
             end; exact Ed.
Qed.

End ScanRepairs.


(** A witness of X29: the scan of [undescribed_state]. *)
Lemma ScanConfigIntegrity_repairs_witness :
  ((WARNING = FAILURE
    /\ ObjectTable (state_of (@ScanConfigIntegrity linux undescribed_state))
       = ObjectTable undescribed_state)
   \/ ObjectTable (state_of (@ScanConfigIntegrity linux undescribed_state))
      = @repair_of linux <$> ObjectTable undescribed_state)
  /\ ((1 < @MAX_DESCRIPT_SIZE linux)%nat ->
      Forall (fun o => ObjectDescription o <> EmptyString)
        (@repair_of linux <$> ObjectTable undescribed_state)).
Proof.
  apply (@ScanConfigIntegrity_repairs linux undescribed_state WARNING
           (state_of (@ScanConfigIntegrity linux undescribed_state))).
  vm_compute. reflexivity.
Defined.
